(** * Statement Scanner: the extraction-and-aggregation pipeline

    A shallow embedding of the TypeScript sources

      - [types.ts]           (Transaction, FileStatus)
      - [utils/csv.ts]       (generateCSV, copyToClipboard)
      - [services/geminiService.ts] (transactionSchema, extractTransactions)
      - [components/FileUpload.tsx] (handleDrag, handleDrop, handleChange,
                                     handleFiles, removeFile, clearAll)
      - [components/TransactionTable.tsx] (the rows of the totals, the
                                     colour of a row)
      - [App.tsx]            (handleFilesSelect, convertFileToBase64,
                              handleAnalyze, handleCopyCSV, handleReset)

    followed by the properties of the pipeline that the specification
    states, and by further properties of the upload component, of a run
    of [handleAnalyze], of the export and of the table.  JavaScript strings are modelled by [string]; a character is a
    code unit below 256.  The built-ins of the JavaScript engine that the
    program calls ([JSON.parse], [Date.parse]) are the fields of the class
    [Engine]; [reference_engine] is an executable instance. *)

From Stdlib Require Import ZArith NArith PArith Bool List Lia.
From Stdlib Require Import Ascii String.
From Stdlib Require Import Decimal DecimalString DecimalPos DecimalN.
From Stdlib Require DecimalFacts.
From Stdlib Require Import Permutation Sorted.
Import ListNotations.

Local Open Scope list_scope.
Local Open Scope string_scope.

(* ================================================================== *)
(** * JavaScript strings *)
(* ================================================================== *)

Module JsString.

Definition tab : ascii := "009"%char.
Definition lf : ascii := "010"%char.
Definition cr : ascii := "013"%char.
Definition space : ascii := " "%char.
Definition quote : ascii := "034"%char.

(** [str.split(sep)] for a one-character separator. *)
Fixpoint split (sep : ascii) (s : string) : list string :=
  match s with
  | EmptyString => [EmptyString]
  | String c rest =>
      match split sep rest with
      | [] => [String c EmptyString]
      | cur :: more =>
          if Ascii.eqb c sep then EmptyString :: cur :: more
          else String c cur :: more
      end
  end.

(** [parts.join(sep)]. *)
Fixpoint join (sep : string) (parts : list string) : string :=
  match parts with
  | [] => EmptyString
  | [p] => p
  | p :: more => p ++ sep ++ join sep more
  end.

(** Every character of [s] satisfies [p]. *)
Fixpoint all_chars (p : ascii -> bool) (s : string) : bool :=
  match s with
  | EmptyString => true
  | String c rest => p c && all_chars p rest
  end.

(** [c] does not occur in [s]. *)
Definition lacks (c : ascii) (s : string) : bool :=
  all_chars (fun d => negb (Ascii.eqb d c)) s.

(** The character class [[\t\n\r]]. *)
Definition is_tnr (c : ascii) : bool :=
  Ascii.eqb c tab || Ascii.eqb c lf || Ascii.eqb c cr.

(** [str.replace(/[\t\n\r]+/g, ' ')]: scanning from the left, every
    maximal run of class characters is one match and is replaced by
    one space.  [in_run] tells that the previous character belonged to
    the match under way. *)
Fixpoint replace_runs (in_run : bool) (s : string) : string :=
  match s with
  | EmptyString => EmptyString
  | String c rest =>
      if is_tnr c then
        if in_run then replace_runs true rest
        else String space (replace_runs true rest)
      else String c (replace_runs false rest)
  end.

Definition starts_tnr (s : string) : bool :=
  match s with
  | String c _ => is_tnr c
  | EmptyString => false
  end.

(** WhiteSpace and LineTerminator code points below 256: TAB, LF, VT,
    FF, CR, SP and NBSP. *)
Definition is_space (c : ascii) : bool :=
  let n := N_of_ascii c in
  ((9 <=? n) && (n <=? 13) || (n =? 32) || (n =? 160))%N.

Fixpoint trimStart (s : string) : string :=
  match s with
  | EmptyString => EmptyString
  | String c rest => if is_space c then trimStart rest else s
  end.

Fixpoint trimEnd (s : string) : string :=
  match s with
  | EmptyString => EmptyString
  | String c rest =>
      match trimEnd rest with
      | EmptyString => if is_space c then EmptyString else String c EmptyString
      | kept => String c kept
      end
  end.

(** [str.trim()]. *)
Definition trim (s : string) : string := trimEnd (trimStart s).

Fixpoint repeat (c : ascii) (n : nat) : string :=
  match n with
  | O => EmptyString
  | S m => String c (repeat c m)
  end.

Fixpoint take (n : nat) (s : string) : string :=
  match n, s with
  | S m, String c rest => String c (take m rest)
  | _, _ => EmptyString
  end.

Fixpoint drop (n : nat) (s : string) : string :=
  match n, s with
  | S m, String _ rest => drop m rest
  | _, _ => s
  end.

Fixpoint rev_append (s acc : string) : string :=
  match s with
  | EmptyString => acc
  | String c rest => rev_append rest (String c acc)
  end.

Definition rev (s : string) : string := rev_append s EmptyString.

(** The value of a decimal digit. *)
Definition digit_of (c : ascii) : option N :=
  let n := N_of_ascii c in
  if ((48 <=? n) && (n <=? 57))%N then Some (n - 48)%N else None.

Definition is_digit (c : ascii) : bool :=
  match digit_of c with Some _ => true | None => false end.

Definition starts_with_minus (s : string) : bool :=
  match s with
  | String c _ => Ascii.eqb c "-"
  | EmptyString => false
  end.

End JsString.

(* ================================================================== *)
(** * JavaScript numbers *)
(* ================================================================== *)

(** A Number value is kept in the form in which [Number::toString]
    reads it: its sign, the decimal digits [s] of its shortest
    round-tripping representation ([s] is no multiple of ten) and the
    exponent [n], so that the value is [0.s * 10^n].  The binary64
    rounding that produces these digits from a literal is outside the
    model: [JsNumber.of_decimal] takes the digits of the literal, which
    are those of the Number for literals of up to 15 significant
    digits. *)
Inductive number : Type :=
| NaN
| Infinity (negative : bool)
| Zero (negative : bool)
| Finite (negative : bool) (s : positive) (n : Z).

Module JsNumber.

Definition digits (s : positive) : string :=
  NilEmpty.string_of_uint (Pos.to_uint s).

Definition decimal (n : N) : string :=
  NilZero.string_of_uint (N.to_uint n).

(** Steps 5 to 10 of [Number::toString] (radix 10) for a positive
    finite value with digits [s] and exponent [n]; [k] is the number of
    digits. *)
Definition toString_finite (s : positive) (n : Z) : string :=
  let ds := digits s in
  let k := Z.of_nat (String.length ds) in
  if ((k <=? n) && (n <=? 21))%Z then
    ds ++ JsString.repeat "0" (Z.to_nat (n - k))
  else if ((0 <? n) && (n <=? 21))%Z then
    JsString.take (Z.to_nat n) ds ++ "." ++ JsString.drop (Z.to_nat n) ds
  else if ((-6 <? n) && (n <=? 0))%Z then
    "0." ++ JsString.repeat "0" (Z.to_nat (- n)) ++ ds
  else
    let e := (n - 1)%Z in
    let sign := if (e <? 0)%Z then "-" else "+" in
    match ds with
    | String d EmptyString =>
        String d EmptyString ++ "e" ++ sign ++ decimal (Z.abs_N e)
    | String d more =>
        String d EmptyString ++ "." ++ more ++ "e" ++ sign ++ decimal (Z.abs_N e)
    | EmptyString => EmptyString
    end.

(** [x.toString()]. *)
Definition toString (x : number) : string :=
  match x with
  | NaN => "NaN"
  | Zero _ => "0"
  | Infinity false => "Infinity"
  | Infinity true => "-Infinity"
  | Finite false s n => toString_finite s n
  | Finite true s n => "-" ++ toString_finite s n
  end.

(** [x < 0]. *)
Definition is_negative (x : number) : bool :=
  match x with
  | Infinity true | Finite true _ _ => true
  | _ => false
  end.

(** [x > 0]. *)
Definition is_positive (x : number) : bool :=
  match x with
  | Infinity false | Finite false _ _ => true
  | _ => false
  end.

(** [x >= 0]: false for [NaN], true for both zeros. *)
Definition is_nonnegative (x : number) : bool :=
  match x with
  | NaN => false
  | Zero _ => true
  | Infinity negative | Finite negative _ _ => negb negative
  end.

(** [Math.abs(x)]. *)
Definition abs (x : number) : number :=
  match x with
  | NaN => NaN
  | Zero _ => Zero false
  | Infinity _ => Infinity false
  | Finite _ s n => Finite false s n
  end.

(** The characters of a finite number's string. *)
Definition numeric_char (c : ascii) : bool :=
  JsString.is_digit c || Ascii.eqb c "." || Ascii.eqb c "-"
  || Ascii.eqb c "+" || Ascii.eqb c "e".

(** The characters of any number's string: the above and the letters
    of [NaN] and [Infinity]. *)
Definition number_char (c : ascii) : bool :=
  numeric_char c || existsb (Ascii.eqb c) (list_ascii_of_string "NaInfity").

(** Trailing zeros of a little-endian digit sequence: how many there
    are, and what is left. *)
Fixpoint strip_zeros (u : Decimal.uint) : nat * Decimal.uint :=
  match u with
  | D0 rest => let (z, r) := strip_zeros rest in (S z, r)
  | _ => (O, u)
  end.

(** The Number written [m * 10^e] in decimal. *)
Definition of_decimal (negative : bool) (m : N) (e : Z) : number :=
  match m with
  | N0 => Zero negative
  | Npos p =>
      let (z, r) := strip_zeros (Pos.to_little_uint p) in
      match Pos.of_uint (Decimal.rev r) with
      | N0 => Zero negative
      | Npos s =>
          Finite negative s (Z.of_nat (Decimal.nb_digits r) + Z.of_nat z + e)
      end
  end.

(** The digits [s] are those of a shortest representation: the last
    one is not a zero. *)
Definition shortest (s : positive) : bool :=
  match Pos.to_little_uint s with
  | D0 _ => false
  | _ => true
  end.

(** ** Decimal numerals

    The Number that a decimal numeral denotes.  A numeral is an optional
    minus sign, the digits of the integer part, optionally a point and
    the digits of the fraction, and optionally an exponent part: [e], a
    sign and digits.  Its value is that of the digits of the integer
    part and of the fraction read as one whole number, times ten to the
    exponent less the number of digits of the fraction. *)
Definition read_exponent (x : string) : option Z :=
  match x with
  | String c ds =>
      if Ascii.eqb c "-" then
        option_map (fun u => (- Z.of_N (N.of_uint u))%Z)
          (NilZero.uint_of_string ds)
      else if Ascii.eqb c "+" then
        option_map (fun u => Z.of_N (N.of_uint u)) (NilZero.uint_of_string ds)
      else option_map (fun u => Z.of_N (N.of_uint u)) (NilZero.uint_of_string x)
  | EmptyString => None
  end.

Definition read_mantissa (negative : bool) (m : string) (e : Z)
  : option number :=
  match JsString.split "." m with
  | [i] =>
      match NilZero.uint_of_string i with
      | Some u => Some (of_decimal negative (N.of_uint u) e)
      | None => None
      end
  | [String c i; String d f] =>
      match NilEmpty.uint_of_string (String c i ++ String d f) with
      | Some u =>
          Some (of_decimal negative (N.of_uint u)
                  (e - Z.of_nat (String.length (String d f))))
      | None => None
      end
  | _ => None
  end.

Definition read_unsigned (negative : bool) (body : string) : option number :=
  match JsString.split "e" body with
  | [m] => read_mantissa negative m 0
  | [m; x] =>
      match read_exponent x with
      | Some e => read_mantissa negative m e
      | None => None
      end
  | _ => None
  end.

Definition decimal_value (text : string) : option number :=
  match text with
  | String c rest =>
      if Ascii.eqb c "-" then read_unsigned true rest
      else read_unsigned false text
  | EmptyString => None
  end.

End JsNumber.

(* ================================================================== *)
(** * types.ts *)
(* ================================================================== *)

Record Transaction : Type := {
  date : string;
  description : string;
  category : string;
  amount : number
}.

Inductive FileStatus : Type := IDLE | PROCESSING | SUCCESS | ERROR.

(* ================================================================== *)
(** * utils/csv.ts *)
(* ================================================================== *)

Module Csv.
Import JsString.

Definition headers : list string :=
  ["Date"; "Description"; "Category"; "Amount"].

Definition clean (str : string) : string :=
  trim (replace_runs false str).

(** The body of [transactions.map((t) => ...)]. *)
Definition row (t : Transaction) : string :=
  join (String tab EmptyString)
    [date t; clean (description t); clean (category t);
     JsNumber.toString (amount t)].

(** ** The sanitisation in the words of the specification *)

(** The maximal runs of [s], each with the flag telling whether it is
    made of tab, line-feed and carriage-return characters. *)
Fixpoint runs (s : string) : list (bool * string) :=
  match s with
  | EmptyString => []
  | String c rest =>
      match runs rest with
      | (b, r) :: more =>
          if Bool.eqb b (is_tnr c) then (b, String c r) :: more
          else (is_tnr c, String c EmptyString) :: (b, r) :: more
      | [] => [(is_tnr c, String c EmptyString)]
      end
  end.

(** Every such run is collapsed to one space. *)
Definition collapse_spec (s : string) : string :=
  String.concat EmptyString
    (map (fun br : bool * string => if fst br then " " else snd br) (runs s)).

(** Leading white space is removed, then trailing white space, which
    is the leading white space of the reversed string. *)
Definition trim_spec (s : string) : string :=
  rev (trimStart (rev (trimStart s))).

Definition sanitize_spec (s : string) : string :=
  trim_spec (collapse_spec s).

(** No tab, line feed or carriage return occurs in [s]. *)
Definition tabular (s : string) : bool :=
  all_chars (fun c => negb (is_tnr c)) s.

Definition generateCSV (transactions : list Transaction) : string :=
  match transactions with
  | [] => EmptyString
  | _ :: _ =>
      join (String lf EmptyString)
        (join (String tab EmptyString) headers :: map row transactions)
  end.

End Csv.

(* ================================================================== *)
(** * Promises, thrown values, JSON values *)
(* ================================================================== *)

(** What the program can catch.  [ProgressEvent] is the event a
    [FileReader] hands to [onerror]; it has no [message]. *)
Inductive Thrown : Type :=
| Error (message : string)
| SyntaxError (message : string)
| TypeError (message : string)
| ProgressEvent.

(** [err.message]; [None] is [undefined]. *)
Definition message (err : Thrown) : option string :=
  match err with
  | Error m | SyntaxError m | TypeError m => Some m
  | ProgressEvent => None
  end.

(** How a promise settles (for a synchronous computation: how it
    completes). *)
Inductive settled (A : Type) : Type :=
| Fulfilled (value : A)
| Rejected (reason : Thrown).
Arguments Fulfilled {A} value.
Arguments Rejected {A} reason.

(** The values [JSON.parse] returns. *)
#[warnings="-register-all"]
Inductive json : Type :=
| JNull
| JBool (b : bool)
| JNumber (x : number)
| JString (s : string)
| JArray (items : list json)
| JObject (members : list (string * json)).

Module Json.

(** [CreateDataProperty]: a repeated name overwrites the earlier
    value. *)
Fixpoint set_member (k : string) (v : json) (ms : list (string * json))
  : list (string * json) :=
  match ms with
  | [] => [(k, v)]
  | (k', v') :: rest =>
      if String.eqb k k' then (k, v) :: rest
      else (k', v') :: set_member k v rest
  end.

Fixpoint get_member (k : string) (ms : list (string * json)) : option json :=
  match ms with
  | [] => None
  | (k', v) :: rest => if String.eqb k k' then Some v else get_member k rest
  end.

(** [data[p]] for a value other than [null], for a name [p] that no
    prototype defines (such as ["transactions"]); [None] is
    [undefined]. *)
Definition property (p : string) (data : json) : option json :=
  match data with
  | JObject ms => get_member p ms
  | _ => None
  end.

(** [ToBoolean]. *)
Definition truthy (v : json) : bool :=
  match v with
  | JNull => false
  | JBool b => b
  | JNumber NaN | JNumber (Zero _) => false
  | JNumber _ => true
  | JString s => negb (String.eqb s EmptyString)
  | JArray _ | JObject _ => true
  end.

(** ** A reference [JSON.parse]

    A pushdown recogniser of the JSON grammar that reads the text one
    character at a time. *)

Inductive frame : Type :=
| InArray (items : list json)              (* the elements read, last first *)
| InObject (members : list (string * json))
| Named (key : string).                    (* a member name awaiting its value *)

Inductive numphase : Type :=
| AfterMinus | AfterZero | IntDigits | AfterPoint | FracDigits
| AfterE | AfterESign | ExpDigits.

Record numeral : Type := {
  neg : bool; mant : N; frac : N; eneg : bool; expo : N
}.

Inductive mode : Type :=
| Value (may_close : bool)
| After
| Key (may_close : bool)
| Colon
| Str (is_key : bool) (acc : string)
| Esc (is_key : bool) (acc : string)
| Hex (is_key : bool) (acc : string) (remaining : nat) (code : N)
| Lit (rest : string) (v : json)
| Num (ph : numphase) (x : numeral)
| Done (v : json)
| Bad.

Definition pstate : Type := (mode * list frame)%type.

Definition is_ws (c : ascii) : bool :=
  Ascii.eqb c " " || Ascii.eqb c JsString.tab
  || Ascii.eqb c JsString.lf || Ascii.eqb c JsString.cr.

Definition hex_of (c : ascii) : option N :=
  let n := N_of_ascii c in
  if ((48 <=? n) && (n <=? 57))%N then Some (n - 48)%N
  else if ((65 <=? n) && (n <=? 70))%N then Some (n - 55)%N
  else if ((97 <=? n) && (n <=? 102))%N then Some (n - 87)%N
  else None.

(** A value has been read in full. *)
Definition complete (v : json) (stack : list frame) : pstate :=
  match stack with
  | [] => (Done v, [])
  | InArray items :: rest => (After, InArray (v :: items) :: rest)
  | Named k :: InObject ms :: rest => (After, InObject (set_member k v ms) :: rest)
  | _ => (Bad, stack)
  end.

Definition number_of (x : numeral) : json :=
  let e := if eneg x then (- Z.of_N (expo x))%Z else Z.of_N (expo x) in
  JNumber (JsNumber.of_decimal (neg x) (mant x) (e - Z.of_N (frac x))).

Definition numeral0 (negative : bool) (m : N) : numeral :=
  {| neg := negative; mant := m; frac := 0; eneg := false; expo := 0 |}.

Definition push_int (x : numeral) (d : N) : numeral :=
  {| neg := neg x; mant := mant x * 10 + d; frac := frac x;
     eneg := eneg x; expo := expo x |}.

Definition push_frac (x : numeral) (d : N) : numeral :=
  {| neg := neg x; mant := mant x * 10 + d; frac := frac x + 1;
     eneg := eneg x; expo := expo x |}.

Definition push_exp (x : numeral) (d : N) : numeral :=
  {| neg := neg x; mant := mant x; frac := frac x;
     eneg := eneg x; expo := expo x * 10 + d |}.

Definition set_eneg (x : numeral) (b : bool) : numeral :=
  {| neg := neg x; mant := mant x; frac := frac x;
     eneg := b; expo := expo x |}.

Definition ends_number (ph : numphase) : bool :=
  match ph with
  | AfterZero | IntDigits | FracDigits | ExpDigits => true
  | _ => false
  end.

Definition step_value (may_close : bool) (stack : list frame) (c : ascii)
  : pstate :=
  if is_ws c then (Value may_close, stack)
  else if Ascii.eqb c "{" then (Key true, InObject [] :: stack)
  else if Ascii.eqb c "[" then (Value true, InArray [] :: stack)
  else if Ascii.eqb c "]" then
    match may_close, stack with
    | true, InArray [] :: rest => complete (JArray []) rest
    | _, _ => (Bad, stack)
    end
  else if Ascii.eqb c JsString.quote then (Str false EmptyString, stack)
  else if Ascii.eqb c "-" then (Num AfterMinus (numeral0 true 0), stack)
  else if Ascii.eqb c "t" then (Lit "rue" (JBool true), stack)
  else if Ascii.eqb c "f" then (Lit "alse" (JBool false), stack)
  else if Ascii.eqb c "n" then (Lit "ull" JNull, stack)
  else
    match JsString.digit_of c with
    | Some N0 => (Num AfterZero (numeral0 false 0), stack)
    | Some d => (Num IntDigits (numeral0 false d), stack)
    | None => (Bad, stack)
    end.

(** After a complete value: a separator, a closing bracket, or, at the
    top level, nothing but white space. *)
Definition step_idle (st : pstate) (c : ascii) : pstate :=
  match st with
  | (Done v, stack) => if is_ws c then st else (Bad, stack)
  | (After, stack) =>
      if is_ws c then st
      else if Ascii.eqb c "," then
        match stack with
        | InArray _ :: _ => (Value false, stack)
        | InObject _ :: _ => (Key false, stack)
        | _ => (Bad, stack)
        end
      else if Ascii.eqb c "]" then
        match stack with
        | InArray items :: rest => complete (JArray (List.rev items)) rest
        | _ => (Bad, stack)
        end
      else if Ascii.eqb c "}" then
        match stack with
        | InObject ms :: rest => complete (JObject ms) rest
        | _ => (Bad, stack)
        end
      else (Bad, stack)
  | (_, stack) => (Bad, stack)
  end.

Definition step_number (ph : numphase) (x : numeral) (stack : list frame)
  (c : ascii) : pstate :=
  match JsString.digit_of c with
  | Some d =>
      match ph with
      | AfterMinus =>
          if (d =? 0)%N then (Num AfterZero x, stack)
          else (Num IntDigits (push_int x d), stack)
      | AfterZero => (Bad, stack)
      | IntDigits => (Num IntDigits (push_int x d), stack)
      | AfterPoint | FracDigits => (Num FracDigits (push_frac x d), stack)
      | AfterE | AfterESign | ExpDigits => (Num ExpDigits (push_exp x d), stack)
      end
  | None =>
      if Ascii.eqb c "." then
        match ph with
        | AfterZero | IntDigits => (Num AfterPoint x, stack)
        | _ => (Bad, stack)
        end
      else if Ascii.eqb c "e" || Ascii.eqb c "E" then
        match ph with
        | AfterZero | IntDigits | FracDigits => (Num AfterE x, stack)
        | _ => (Bad, stack)
        end
      else if Ascii.eqb c "+" || Ascii.eqb c "-" then
        match ph with
        | AfterE => (Num AfterESign (set_eneg x (Ascii.eqb c "-")), stack)
        | _ => (Bad, stack)
        end
      else if ends_number ph then step_idle (complete (number_of x) stack) c
      else (Bad, stack)
  end.

Definition end_string (is_key : bool) (acc : string) (stack : list frame)
  : pstate :=
  let s := JsString.rev acc in
  if is_key then (Colon, Named s :: stack) else complete (JString s) stack.

Definition step_escape (is_key : bool) (acc : string) (stack : list frame)
  (c : ascii) : pstate :=
  let keep (d : ascii) : pstate := (Str is_key (String d acc), stack) in
  if Ascii.eqb c JsString.quote || Ascii.eqb c "\" || Ascii.eqb c "/" then keep c
  else if Ascii.eqb c "b" then keep "008"%char
  else if Ascii.eqb c "f" then keep "012"%char
  else if Ascii.eqb c "n" then keep JsString.lf
  else if Ascii.eqb c "r" then keep JsString.cr
  else if Ascii.eqb c "t" then keep JsString.tab
  else if Ascii.eqb c "u" then (Hex is_key acc 3 0%N, stack)
  else (Bad, stack).

Definition step (st : pstate) (c : ascii) : pstate :=
  match st with
  | (Value may_close, stack) => step_value may_close stack c
  | (After, _) | (Done _, _) => step_idle st c
  | (Key may_close, stack) =>
      if is_ws c then st
      else if Ascii.eqb c JsString.quote then (Str true EmptyString, stack)
      else if Ascii.eqb c "}" then
        match may_close, stack with
        | true, InObject ms :: rest => complete (JObject ms) rest
        | _, _ => (Bad, stack)
        end
      else (Bad, stack)
  | (Colon, stack) =>
      if is_ws c then st
      else if Ascii.eqb c ":" then (Value false, stack)
      else (Bad, stack)
  | (Str is_key acc, stack) =>
      if Ascii.eqb c JsString.quote then end_string is_key acc stack
      else if Ascii.eqb c "\" then (Esc is_key acc, stack)
      else if (N_of_ascii c <? 32)%N then (Bad, stack)
      else (Str is_key (String c acc), stack)
  | (Esc is_key acc, stack) => step_escape is_key acc stack c
  | (Hex is_key acc remaining code, stack) =>
      match hex_of c with
      | Some d =>
          let code' := (code * 16 + d)%N in
          match remaining with
          | S l => (Hex is_key acc l code', stack)
          | O =>
              (* a code unit above 255 has no character in this model *)
              if (code' <? 256)%N
              then (Str is_key (String (ascii_of_N code') acc), stack)
              else (Bad, stack)
          end
      | None => (Bad, stack)
      end
  | (Lit rest v, stack) =>
      match rest with
      | String d EmptyString =>
          if Ascii.eqb c d then complete v stack else (Bad, stack)
      | String d more =>
          if Ascii.eqb c d then (Lit more v, stack) else (Bad, stack)
      | EmptyString => (Bad, stack)
      end
  | (Num ph x, stack) => step_number ph x stack c
  | (Bad, _) => st
  end.

Fixpoint run (st : pstate) (text : string) : pstate :=
  match text with
  | EmptyString => st
  | String c rest => run (step st c) rest
  end.

(** [JSON.parse(text)]: the value, or the message of the [SyntaxError]. *)
Definition parse (text : string) : json + string :=
  match run (Value false, []) text with
  | (Done v, _) => inl v
  | (Num ph x, []) =>
      if ends_number ph then inl (number_of x)
      else inr "Unexpected end of JSON input"
  | (Bad, _) => inr "Unexpected token in JSON"
  | _ => inr "Unexpected end of JSON input"
  end.

(** [s] between double quotes. *)
Definition quoted (s : string) : string :=
  String JsString.quote s ++ String JsString.quote EmptyString.

End Json.

(* ================================================================== *)
(** * The JavaScript engine *)
(* ================================================================== *)

(** [Array.prototype.sort(comparefn)].  The standard requires a stable
    sort, so with a consistent [comparefn] every engine returns the same
    array; with an inconsistent one the order is left to the engine.  The
    model is the insertion sort that engines run on short arrays: each
    element in turn moves left past the elements it must precede. *)
Module JsArray.
Section Sort.
Context {A : Type} (comparefn : A -> A -> option Z).

(** [SortCompare(a, b) < 0]: a [NaN] from [comparefn] counts as [+0]. *)
Definition precedes (a b : A) : bool :=
  match comparefn a b with
  | Some v => (v <? 0)%Z
  | None => false
  end.

(** [before] is the sorted prefix, its last element first. *)
Fixpoint insert (x : A) (before : list A) : list A :=
  match before with
  | [] => [x]
  | y :: more => if precedes x y then y :: insert x more else x :: before
  end.

Definition sort (l : list A) : list A :=
  List.rev (fold_left (fun before x => insert x before) l []).
End Sort.

(** Sorting by a numeric key that may be [NaN]: the comparison
    function [(a, b) => key(a) - key(b)], and the order and the classes
    it induces. *)
Section ByKey.
Context {A : Type} (key : A -> option Z).

Definition compare_keys (a b : A) : option Z :=
  match key a, key b with
  | Some x, Some y => Some (x - y)%Z
  | _, _ => None
  end.

(** [a] may stand before [b]; an element without key is not
    compared. *)
Definition key_le (a b : A) : Prop :=
  match key a, key b with
  | Some x, Some y => (x <= y)%Z
  | _, _ => True
  end.

Definition has_key (a : A) : Prop := key a <> None.

(** A sorted prefix kept last element first: read from its end it
    is in key order. *)
Definition descending (before : list A) : Prop :=
  StronglySorted (fun a b => key_le b a) before.

(** The key of [a] is [k]. *)
Definition keyed (k : option Z) (a : A) : bool :=
  match key a, k with
  | Some x, Some y => (x =? y)%Z
  | None, None => true
  | _, _ => false
  end.
End ByKey.

(** [xs.filter((x, idx) => p(x, idx))]; [idx] is the index of the
    head of [l] in the array. *)
Fixpoint filter_from {A : Type} (p : A -> nat -> bool) (idx : nat) (l : list A)
  : list A :=
  match l with
  | [] => []
  | x :: rest =>
      if p x idx then x :: filter_from p (S idx) rest
      else filter_from p (S idx) rest
  end.

Definition filter_indexed {A : Type} (p : A -> nat -> bool) (l : list A)
  : list A :=
  filter_from p 0 l.

(** [xs.includes(x)] on strings. *)
Definition includes (xs : list string) (x : string) : bool :=
  existsb (String.eqb x) xs.

Fixpoint set_nth {A : Type} (i : nat) (x : A) (l : list A) : list A :=
  match l, i with
  | [], _ => []
  | _ :: rest, O => x :: rest
  | y :: rest, S j => y :: set_nth j x rest
  end.
End JsArray.

(** The built-ins whose results the program depends on. *)
Class Engine : Type := {
  (** [JSON.parse(text)]: the value, or the message of the [SyntaxError]
      it throws. *)
  JSON_parse : string -> json + string;
  (** [new Date(s).getTime()]: the time value in milliseconds; [None] is
      [NaN]. *)
  Date_parse : string -> option Z;
  (** The message of the [TypeError] raised by reading property [p] of
      [null]. *)
  null_property_message : string -> string
}.

(** ** A reference [Date.parse]

    The date-only forms [YYYY], [YYYY-MM] and [YYYY-MM-DD] of the Date
    Time String Format, read as UTC.  Every other string is left
    unrecognised. *)
Module JsDate.

Fixpoint value_of (acc : Z) (s : string) : option Z :=
  match s with
  | EmptyString => Some acc
  | String c rest =>
      match JsString.digit_of c with
      | Some d => value_of (acc * 10 + Z.of_N d) rest
      | None => None
      end
  end.

(** A field of exactly [width] digits. *)
Definition field (width : nat) (s : string) : option Z :=
  if Nat.eqb (String.length s) width then value_of 0 s else None.

Definition leap (y : Z) : bool :=
  ((y mod 4 =? 0) && (negb (y mod 100 =? 0) || (y mod 400 =? 0)))%Z.

Definition DayFromYear (y : Z) : Z :=
  (365 * (y - 1970) + (y - 1969) / 4 - (y - 1901) / 100 + (y - 1601) / 400)%Z.

Definition days_in_month (y m : Z) : Z :=
  (if m =? 2 then (if leap y then 29 else 28)
   else if (m =? 4) || (m =? 6) || (m =? 9) || (m =? 11) then 30
   else 31)%Z.

Fixpoint days_before (y : Z) (m : nat) : Z :=
  match m with
  | O => 0
  | S k => (days_before y k + days_in_month y (Z.of_nat (S k)))%Z
  end.

Definition msPerDay : Z := 86400000.

Definition MakeDate (y m d : Z) : option Z :=
  if ((1 <=? m) && (m <=? 12) && (1 <=? d) && (d <=? days_in_month y m))%Z
  then Some ((DayFromYear y + days_before y (Z.to_nat (m - 1)) + (d - 1)) * msPerDay)%Z
  else None.

Definition parse (s : string) : option Z :=
  match JsString.split "-" s with
  | [y] =>
      match field 4 y with
      | Some y => MakeDate y 1 1
      | None => None
      end
  | [y; m] =>
      match field 4 y, field 2 m with
      | Some y, Some m => MakeDate y m 1
      | _, _ => None
      end
  | [y; m; d] =>
      match field 4 y, field 2 m, field 2 d with
      | Some y, Some m, Some d => MakeDate y m d
      | _, _, _ => None
      end
  | _ => None
  end.

End JsDate.

#[export] Instance reference_engine : Engine := {
  JSON_parse := Json.parse;
  Date_parse := JsDate.parse;
  null_property_message p :=
    ("Cannot read properties of null (reading '" ++ p ++ "')")%string
}.

(* ================================================================== *)
(** * utils/csv.ts: the clipboard *)
(* ================================================================== *)

Module Clipboard.

(** [copyToClipboard(text)], given how [navigator.clipboard.writeText]
    settles for the text (a rejection stands also for the exception
    raised where the clipboard is not there).  The promise returned is
    never rejected: the value is what it fulfils with. *)
Definition copyToClipboard (writeText : string -> settled unit) (text : string)
  : bool :=
  match writeText text with
  | Fulfilled _ => true
  | Rejected _ => false
  end.

End Clipboard.

(* ================================================================== *)
(** * services/geminiService.ts *)
(* ================================================================== *)

Module GeminiService.
Section WithEngine.
Context {engine : Engine}.

(** [data.transactions || []], for [data] other than [null]. *)
Definition transactions_or_empty (data : json) : json :=
  match Json.property "transactions" data with
  | Some v => if Json.truthy v then v else JArray []
  | None => JArray []
  end.

(** [generateContent mimeType data] is how the request to the model
    settles: rejected, or fulfilled with [response.text], which is
    [undefined] ([None]) when the response carries no text. *)
Definition extractTransactions
  (generateContent : string -> string -> settled (option string))
  (base64Data mimeType : string) : settled json :=
  match generateContent mimeType base64Data with
  | Rejected error => Rejected error
  | Fulfilled responseText =>
      match responseText with
      | None | Some EmptyString =>
          Rejected (Error "No response received from Gemini.")
      | Some text =>
          match JSON_parse text with
          | inr msg => Rejected (SyntaxError msg)
          | inl JNull =>
              Rejected (TypeError (null_property_message "transactions"))
          | inl data => Fulfilled (transactions_or_empty data)
          end
      end
  end.

End WithEngine.

(** ** The response schema *)

(** The [Schema] values the request uses (the [description] texts are
    left out). *)
#[warnings="-register-all"]
Inductive Schema : Type :=
| OBJECT (properties : list (string * Schema)) (required : list string)
| ARRAY (items : Schema)
| STRING
| NUMBER.

Definition itemSchema : Schema :=
  OBJECT
    [("date", STRING); ("description", STRING); ("category", STRING);
     ("amount", NUMBER)]
    ["date"; "description"; "category"; "amount"].

Definition transactionSchema : Schema :=
  OBJECT [("transactions", ARRAY itemSchema)] ["transactions"].

(** [v] conforms to the schema: it has the type asked for, an object
    has every required member, and the members it has conform to the
    schemas of their names. *)
Fixpoint conforms (s : Schema) (v : json) {struct s} : bool :=
  match s, v with
  | STRING, JString _ => true
  | NUMBER, JNumber _ => true
  | ARRAY items, JArray vs => forallb (conforms items) vs
  | OBJECT properties required, JObject ms =>
      forallb
        (fun k =>
           match Json.get_member k ms with
           | Some _ => true
           | None => false
           end) required
      && (fix each (ps : list (string * Schema)) : bool :=
            match ps with
            | [] => true
            | (k, s') :: rest =>
                match Json.get_member k ms with
                | Some v' => conforms s' v'
                | None => true
                end && each rest
            end) properties
  | _, _ => false
  end.

(** The invariant of a transaction record in the words of the
    specification: the four fields are present and none is [null]. *)
Definition has_all_fields (item : json) : bool :=
  match item with
  | JObject ms =>
      forallb
        (fun p =>
           match Json.get_member p ms with
           | Some JNull | None => false
           | Some _ => true
           end)
        ["date"; "description"; "category"; "amount"]
  | _ => false
  end.

(** The value is a sequence of records that conform to the item
    schema. *)
Definition all_records_valid (v : json) : bool := conforms (ARRAY itemSchema) v.

(** The parsed response conforms to the response schema. *)
Definition schema_conformant (data : json) : bool :=
  conforms transactionSchema data.

(** A conformant item as the [Transaction] its type says it is. *)
Definition asTransaction (item : json) : option Transaction :=
  match item with
  | JObject ms =>
      match Json.get_member "date" ms, Json.get_member "description" ms,
            Json.get_member "category" ms, Json.get_member "amount" ms with
      | Some (JString d), Some (JString desc), Some (JString cat),
        Some (JNumber x) =>
          Some {| date := d; description := desc; category := cat; amount := x |}
      | _, _, _, _ => None
      end
  | _ => None
  end.

Fixpoint asTransactions_items (items : list json) : option (list Transaction) :=
  match items with
  | [] => Some []
  | item :: rest =>
      match asTransaction item, asTransactions_items rest with
      | Some t, Some ts => Some (t :: ts)
      | _, _ => None
      end
  end.

(** The returned value read at its declared type [Transaction[]];
    [None] when the value is not of that type. *)
Definition asTransactions (v : json) : option (list Transaction) :=
  match v with
  | JArray items => asTransactions_items items
  | _ => None
  end.

End GeminiService.

(* ================================================================== *)
(** * components/FileUpload.tsx *)
(* ================================================================== *)

(** The properties of a [File] that the program reads. *)
Record File : Type := {
  name : string;
  size : N;
  type : string
}.

Module FileUpload.

Definition validTypes : list string :=
  ["image/jpeg"; "image/png"; "image/webp"; "image/heic"; "application/pdf"].

(** [f.name === file.name && f.size === file.size]. *)
Definition same_name_and_size (file f : File) : bool :=
  String.eqb (name f) (name file) && N.eqb (size f) (size file).

(** The body of the [forEach]: [newFiles] after looking at [file]. *)
Definition consider (selectedFiles newFiles : list File) (file : File)
  : list File :=
  if JsArray.includes validTypes (type file) then
    let isDuplicate := existsb (same_name_and_size file) selectedFiles in
    if negb isDuplicate then newFiles ++ [file] else newFiles
  else newFiles.

(** [handleFiles(fileList)] in a component rendered with the props
    [disabled] and the state [selectedFiles].  The result is the update
    it queues on the state: the function given to [setSelectedFiles],
    or the identity when it queues none. *)
Definition handleFiles (disabled : bool) (selectedFiles : list File)
  (fileList : list File) : list File -> list File :=
  if disabled then fun prev => prev
  else
    let newFiles := fold_left (consider selectedFiles) fileList [] in
    if (0 <? List.length newFiles)%nat then fun prev => (prev ++ newFiles)%list
    else fun prev => prev.

(** One add-event: the component is rendered with the current state,
    the handler runs, React applies the queued update. *)
Definition add_event (disabled : bool) (selectedFiles : list File)
  (fileList : list File) : list File :=
  handleFiles disabled selectedFiles fileList selectedFiles.

(** A sequence of add-events, starting from the state [selectedFiles]. *)
Definition add_events (disabled : bool) (selectedFiles : list File)
  (batches : list (list File)) : list File :=
  fold_left (add_event disabled) batches selectedFiles.

(** The files of a batch that [consider] keeps. *)
Definition accepted (selectedFiles : list File) (file : File) : bool :=
  JsArray.includes validTypes (type file)
  && negb (existsb (same_name_and_size file) selectedFiles).

(** The deduplication key of an entry. *)
Definition key (f : File) : string * N := (name f, size f).

(** [handleFiles] calls [setSelectedFiles]: for a component that is not
    disabled, when the batch holds a new file. *)
Definition queues_update (disabled : bool) (selectedFiles fileList : list File)
  : bool :=
  negb disabled
  && (0 <? List.length (fold_left (consider selectedFiles) fileList []))%nat.

(** [removeFile(indexToRemove)]: the update it queues on the state. *)
Definition removeFile (disabled : bool) (indexToRemove : nat)
  : list File -> list File :=
  if disabled then fun prev => prev
  else
    fun prev =>
      JsArray.filter_indexed
        (fun _ idx => negb (Nat.eqb idx indexToRemove)) prev.

(** [clearAll(e)]: the update it queues on the state. *)
Definition clearAll (disabled : bool) : list File -> list File :=
  if disabled then fun prev => prev else fun _ => [].

(** [handleDrag(e)] for an event of the given type: the new value of
    [dragActive]. *)
Definition handleDrag (type : string) (dragActive : bool) : bool :=
  if String.eqb type "dragenter" || String.eqb type "dragover" then true
  else if String.eqb type "dragleave" then false
  else dragActive.

(** The state of the component. *)
Record Widget : Type := {
  dragActive : bool;
  selection : list File          (* [selectedFiles] *)
}.

(** What the user does with the component.  The file list of a drop or
    of the input is [None] when the event carries none. *)
Inductive Event : Type :=
| DragEvent (type : string)
| DropEvent (files : option (list File))
| ChangeEvent (files : option (list File))
| RemoveClick (index : nat)
| ClearAllClick.

(** [if (files && files.length > 0) handleFiles(files)]. *)
Definition offer (disabled : bool) (files : option (list File))
  (selectedFiles : list File) : list File * bool :=
  match files with
  | Some (file :: more) =>
      (add_event disabled selectedFiles (file :: more),
       queues_update disabled selectedFiles (file :: more))
  | Some [] | None => (selectedFiles, false)
  end.

(** The handler of an event in a component rendered with [disabled] and
    the state [w]: the state after React has applied the updates, and
    whether [setSelectedFiles] was called (the effect that notifies the
    parent runs then, the array being a new one). *)
Definition handle (disabled : bool) (w : Widget) (ev : Event) : Widget * bool :=
  match ev with
  | DragEvent type =>
      ({| dragActive := handleDrag type (dragActive w);
          selection := selection w |}, false)
  | DropEvent files =>
      let (sel, updated) := offer disabled files (selection w) in
      ({| dragActive := false; selection := sel |}, updated)
  | ChangeEvent files =>
      let (sel, updated) := offer disabled files (selection w) in
      ({| dragActive := dragActive w; selection := sel |}, updated)
  | RemoveClick index =>
      ({| dragActive := dragActive w;
          selection := removeFile disabled index (selection w) |},
       negb disabled)
  | ClearAllClick =>
      ({| dragActive := dragActive w;
          selection := clearAll disabled (selection w) |},
       negb disabled)
  end.

(** Every entry has a type of the allow-list. *)
Definition all_valid (selectedFiles : list File) : Prop :=
  Forall (fun f => JsArray.includes validTypes (type f) = true) selectedFiles.

(** The batch of an event holds no two files of one name and size. *)
Definition batch_distinct (ev : Event) : Prop :=
  match ev with
  | DropEvent (Some files) | ChangeEvent (Some files) => NoDup (map key files)
  | _ => True
  end.

End FileUpload.

(* ================================================================== *)
(** * App.tsx *)
(* ================================================================== *)

Module App.

(** The component's state. *)
Record State : Type := {
  files : list File;
  status : FileStatus;
  transactions : list Transaction;
  error : option string;
  copied : bool;
  processedCount : nat
}.

Definition setStatus (v : FileStatus) (st : State) : State :=
  {| files := files st; status := v; transactions := transactions st;
     error := error st; copied := copied st;
     processedCount := processedCount st |}.

Definition setTransactions (v : list Transaction) (st : State) : State :=
  {| files := files st; status := status st; transactions := v;
     error := error st; copied := copied st;
     processedCount := processedCount st |}.

Definition setError (v : option string) (st : State) : State :=
  {| files := files st; status := status st; transactions := transactions st;
     error := v; copied := copied st;
     processedCount := processedCount st |}.

Definition setProcessedCount (f : nat -> nat) (st : State) : State :=
  {| files := files st; status := status st; transactions := transactions st;
     error := error st; copied := copied st;
     processedCount := f (processedCount st) |}.

Definition setFiles (v : list File) (st : State) : State :=
  {| files := v; status := status st; transactions := transactions st;
     error := error st; copied := copied st;
     processedCount := processedCount st |}.

Definition setCopied (v : bool) (st : State) : State :=
  {| files := files st; status := status st; transactions := transactions st;
     error := error st; copied := v;
     processedCount := processedCount st |}.

Definition is_processing (st : State) : bool :=
  match status st with
  | PROCESSING => true
  | _ => false
  end.

(** [handleFilesSelect(selectedFiles)]; the [status] it tests is the one
    of the render that made the callback, which is the current one. *)
Definition handleFilesSelect (selectedFiles : list File) (st : State) : State :=
  let st' := setFiles selectedFiles st in
  if is_processing st then st'
  else
    match selectedFiles with
    | [] =>
        setProcessedCount (fun _ => 0)
          (setError None (setTransactions [] (setStatus IDLE st')))
    | _ :: _ => st'
    end.

(** [handleReset()]. *)
Definition handleReset (st : State) : State :=
  setProcessedCount (fun _ => 0)
    (setError None (setStatus IDLE (setTransactions [] (setFiles [] st)))).

(** [handleCopyCSV()] up to the timer, for transactions of the declared
    type: the state, and the text handed to the clipboard. *)
Definition handleCopyCSV (writeText : string -> settled unit) (st : State)
  : State * string :=
  let csv := Csv.generateCSV (transactions st) in
  let success := Clipboard.copyToClipboard writeText csv in
  (if success then setCopied true st else st, csv).

(** The callback of [setTimeout(..., 2000)], which [handleCopyCSV]
    schedules after a copy that succeeded. *)
Definition copiedTimeout (st : State) : State := setCopied false st.

(** What the outside world does with one file of a run: [reader] is
    the data URL the [FileReader] loads ([None]: it fires [onerror]),
    [extraction] is how the call of [extractTransactions] for the file
    settles, read at its declared type [Promise<Transaction[]>]. *)
Record FileIO : Type := {
  reader : option string;
  extraction : settled (list Transaction)
}.

(** The calls a run makes on its collaborators. *)
Inductive Call : Type :=
| ReadAsDataURL (file : File)
| ExtractTransactions (base64Data : option string) (mimeType : string).

(** [convertFileToBase64(file)], given what the reader does.  The
    payload is [result.split(',')[1]], [undefined] ([None]) when the
    data URL has no comma. *)
Definition convertFileToBase64 (read : option string) : settled (option string) :=
  match read with
  | Some result => Fulfilled (nth_error (JsString.split "," result) 1)
  | None => Rejected ProgressEvent
  end.

(** Where the asynchronous function mapped over one file stands. *)
Inductive Task : Type :=
| Reading                              (* awaiting convertFileToBase64 *)
| Extracting                           (* awaiting extractTransactions *)
| Resolved (result : list Transaction)
| Failed (reason : Thrown).

(** A run under way: the component's state, the task of every file,
    whether the promise of [Promise.all] has settled, and the calls made
    so far. *)
Record Run : Type := {
  app : State;
  tasks : list Task;
  joined : bool;
  calls : list Call
}.

Definition defaultMessage : string :=
  "Failed to analyze one or more documents. Please check the files and try again.".

(** [err.message || defaultMessage]. *)
Definition displayed (err : Thrown) : string :=
  match message err with
  | Some EmptyString | None => defaultMessage
  | Some m => m
  end.

(** [Some] of the results in file order when every task is resolved:
    the value [Promise.all] fulfils with. *)
Fixpoint results (ts : list Task) : option (list (list Transaction)) :=
  match ts with
  | [] => Some []
  | Resolved r :: rest =>
      match results rest with
      | Some rs => Some (r :: rs)
      | None => None
      end
  | _ :: _ => None
  end.

Definition is_settled (t : Task) : bool :=
  match t with
  | Resolved _ | Failed _ => true
  | _ => false
  end.

(** Task [t] agrees with what the world [w] does with its file. *)
Definition task_ok (w : FileIO) (t : Task) : Prop :=
  match t with
  | Reading => True
  | Extracting => reader w <> None
  | Resolved r => reader w <> None /\ extraction w = Fulfilled r
  | Failed err => reader w = None \/ extraction w = Rejected err
  end.

Definition is_resolved (t : Task) : bool :=
  match t with
  | Resolved _ => true
  | _ => false
  end.

(** The number of files extracted so far. *)
Definition resolved_count (ts : list Task) : nat :=
  List.length (filter is_resolved ts).

(** Every task has settled: the run is over. *)
Definition completed (r : Run) : bool := forallb is_settled (tasks r).

(** What settles while a run is under way: the promise that task [i] of
    the run awaits, the extraction that a task of an earlier run is
    still waiting for, or the timer that an earlier [handleCopyCSV] has
    set. *)
Inductive Settlement : Type :=
| Own (i : nat)
| Stale
| Timer.

(** The settlements of the run's own tasks. *)
Fixpoint own (events : list Settlement) : list nat :=
  match events with
  | [] => []
  | Own i :: rest => i :: own rest
  | _ :: rest => own rest
  end.

(** The number of extractions of earlier runs that have fulfilled. *)
Fixpoint stale_count (events : list Settlement) : nat :=
  match events with
  | [] => 0
  | Stale :: rest => S (stale_count rest)
  | _ :: rest => stale_count rest
  end.

(** A timer of [handleCopyCSV] has fired. *)
Fixpoint timed (events : list Settlement) : bool :=
  match events with
  | [] => false
  | Timer :: _ => true
  | _ :: rest => timed rest
  end.

(** The run [r] with [k] more on the counter of the page, and with the
    flag [copied] lowered when [lowered] is set. *)
Definition beside (k : nat) (lowered : bool) (r : Run) : Run :=
  {| app :=
       setCopied (if lowered then false else copied (app r))
         (setProcessedCount (fun prev => prev + k) (app r));
     tasks := tasks r; joined := joined r; calls := calls r |}.

Section WithEngine.
Context {engine : Engine}.

(** [new Date(a.date).getTime() - new Date(b.date).getTime()].  Two
    time values differ by less than 2^54 and by a whole number, so
    the sign of the binary64 difference is the sign of the exact
    one. *)
Definition compareDates (a b : Transaction) : option Z :=
  match Date_parse (date a), Date_parse (date b) with
  | Some x, Some y => Some (x - y)%Z
  | _, _ => None
  end.

(** The continuation of [await Promise.all(promises)], for results of
    the declared type: on these the comparator reads the string [date]
    of each record and does not throw. *)
Definition onFulfilled (rs : list (list Transaction)) (st : State) : State :=
  let allTransactions := List.concat rs in
  let allTransactions := JsArray.sort compareDates allTransactions in
  setStatus SUCCESS (setTransactions allTransactions st).

(** The [catch] clause. *)
Definition onRejected (err : Thrown) (st : State) : State :=
  setStatus ERROR (setError (Some (displayed err)) st).

(** Task [i] rejects with [err]: [Promise.all] rejects, unless it has
    settled already. *)
Definition reject (i : nat) (err : Thrown) (r : Run) : Run :=
  {| app := if joined r then app r else onRejected err (app r);
     tasks := JsArray.set_nth i (Failed err) (tasks r);
     joined := true;
     calls := calls r |}.

(** Task [i] fulfils with [result]: the counter is bumped, and
    [Promise.all] fulfils when this was the last task. *)
Definition resolve (i : nat) (result : list Transaction) (r : Run) : Run :=
  let st := setProcessedCount (fun prev => prev + 1) (app r) in
  let ts := JsArray.set_nth i (Resolved result) (tasks r) in
  match results ts, joined r with
  | Some rs, false =>
      {| app := onFulfilled rs st; tasks := ts; joined := true;
         calls := calls r |}
  | _, _ =>
      {| app := st; tasks := ts; joined := joined r; calls := calls r |}
  end.

(** The awaited promise of task [i] settles and the task runs up to
    its next [await] or to its end. *)
Definition step (io : nat -> FileIO) (r : Run) (i : nat) : Run :=
  match nth_error (tasks r) i, nth_error (files (app r)) i with
  | Some Reading, Some file =>
      match convertFileToBase64 (reader (io i)) with
      | Rejected err => reject i err r
      | Fulfilled base64Data =>
          {| app := app r;
             tasks := JsArray.set_nth i Extracting (tasks r);
             joined := joined r;
             calls := calls r ++ [ExtractTransactions base64Data (type file)] |}
      end
  | Some Extracting, Some _ =>
      match extraction (io i) with
      | Rejected err => reject i err r
      | Fulfilled result => resolve i result r
      end
  | _, _ => r
  end.

(** [handleAnalyze] up to its first [await]: the state is reset and
    every file's task is started. *)
Definition start (st : State) : Run :=
  {| app :=
       setTransactions []
         (setError None
            (setProcessedCount (fun _ => 0) (setStatus PROCESSING st)));
     tasks := map (fun _ => Reading) (files st);
     joined := false;
     calls := map ReadAsDataURL (files st) |}.

(** [handleAnalyze()] in the state [st], when file [i] is served as
    [io i] says and the awaited promises settle in the order
    [schedule] (a list of file indices). *)
Definition handleAnalyze (io : nat -> FileIO) (schedule : list nat)
  (st : State) : Run :=
  match files st with
  | [] => {| app := st; tasks := []; joined := false; calls := [] |}
  | _ :: _ => fold_left (step io) schedule (start st)
  end.

(** ** A run beside what earlier actions have left under way

    [Promise.all] rejects with the first task that fails and the page
    shows [ERROR] with "Try Again", while the other tasks of that run go
    on.  A run started then has them beside it: when the extraction that
    such a task awaits fulfils, the task calls
    [setProcessedCount((prev) => prev + 1)] on the counter of the page as
    it is now.  (What the task returns goes to a [Promise.all] that has
    settled, and a rejection of such a task shows nowhere.)  A timer set
    by [handleCopyCSV] less than two seconds before lowers the flag
    [copied] when it fires. *)
Definition stale_fulfilled (r : Run) : Run :=
  {| app := setProcessedCount (fun prev => prev + 1) (app r);
     tasks := tasks r; joined := joined r; calls := calls r |}.

Definition timer_fired (r : Run) : Run :=
  {| app := copiedTimeout (app r);
     tasks := tasks r; joined := joined r; calls := calls r |}.

Definition settle (io : nat -> FileIO) (r : Run) (e : Settlement) : Run :=
  match e with
  | Own i => step io r i
  | Stale => stale_fulfilled r
  | Timer => timer_fired r
  end.

(** [handleAnalyze()] in the state [st], when the promises of its own
    tasks, the extractions of the tasks of earlier runs and the timers
    settle in the order [events]. *)
Definition handleAnalyze_amid (io : nat -> FileIO) (events : list Settlement)
  (st : State) : Run :=
  fold_left (settle io) events
    match files st with
    | [] => {| app := st; tasks := []; joined := false; calls := [] |}
    | _ :: _ => start st
    end.

(** What holds of a run over the files [fs] at every moment. *)
Record invariant (io : nat -> FileIO) (fs : list File) (r : Run) : Prop := {
  inv_files : files (app r) = fs;
  inv_length : List.length (tasks r) = List.length fs;
  inv_tasks : forall i t, nth_error (tasks r) i = Some t -> task_ok (io i) t;
  (** before [Promise.all] settles *)
  inv_pending :
    joined r = false ->
    status (app r) = PROCESSING /\ transactions (app r) = []
    /\ (forall i err, nth_error (tasks r) i <> Some (Failed err))
    /\ results (tasks r) = None;
  (** after it has: rejected, or fulfilled *)
  inv_settled :
    joined r = true ->
    ((exists i err, nth_error (tasks r) i = Some (Failed err))
     /\ status (app r) = ERROR /\ transactions (app r) = [])
    \/ (exists rs, results (tasks r) = Some rs
                   /\ status (app r) = SUCCESS
                   /\ transactions (app r)
                      = JsArray.sort compareDates (List.concat rs))
}.

(** [new Date(t.date).getTime()]. *)
Definition getTime (t : Transaction) : option Z := Date_parse (date t).

(** The calendar order of two records; a record whose date has no
    time value is not compared. *)
Definition date_le (a b : Transaction) : Prop :=
  JsArray.key_le getTime a b.

(** The date of [t] has a time value. *)
Definition has_date (t : Transaction) : Prop := JsArray.has_key getTime t.

(** The records of [l] whose date has the time value [k], in the
    order of [l]. *)
Definition with_time (k : option Z) (l : list Transaction) : list Transaction :=
  filter (JsArray.keyed getTime k) l.

End WithEngine.

(** File [i] of the run is one whose reading or whose extraction
    fails. *)
Definition fails (io : nat -> FileIO) (i : nat) : Prop :=
  reader (io i) = None \/ exists err, extraction (io i) = Rejected err.

(** What file [i] yields when it is read and extracted. *)
Definition extracted (io : nat -> FileIO) (i : nat) : list Transaction :=
  match extraction (io i) with
  | Fulfilled r => r
  | Rejected _ => []
  end.

(** How far a task has come. *)
Definition rank (t : Task) : nat :=
  match t with
  | Reading => 0
  | Extracting => 1
  | Resolved _ | Failed _ => 2
  end.

(** Each of the first [n] tasks is given its two turns. *)
Definition fair (n : nat) (schedule : list nat) : Prop :=
  forall j, j < n -> 2 <= count_occ Nat.eq_dec schedule j.

(** The schedule that lets every task take its two steps in turn. *)
Definition round_robin (n : nat) : list nat := seq 0 n ++ seq 0 n.

(** [err] is what the task of a file served as [w] rejects with: the
    error event of the reader, or the reason of the extraction. *)
Definition failure_of (w : FileIO) (err : Thrown) : Prop :=
  (reader w = None /\ err = ProgressEvent)
  \/ (reader w <> None /\ extraction w = Rejected err).

(** The message the page shows belongs to the status: with [ERROR] it is
    the displayed message of the failure of one of the [n] files, and
    there is none otherwise. *)
Definition error_shown (io : nat -> FileIO) (n : nat) (st : State) : Prop :=
  match status st with
  | ERROR =>
      exists i err,
        i < n /\ failure_of (io i) err /\ error st = Some (displayed err)
  | _ => error st = None
  end.

Definition is_extract (c : Call) : bool :=
  match c with
  | ExtractTransactions _ _ => true
  | ReadAsDataURL _ => false
  end.

(** The reader loads the file. *)
Definition readable (w : FileIO) : bool :=
  match reader w with
  | Some _ => true
  | None => false
  end.

(** The task has asked for the extraction of its file. *)
Definition started (t : Task) (w : FileIO) : bool :=
  match t with
  | Reading => false
  | _ => readable w
  end.

(** The task of file [i] has asked for the extraction of its file. *)
Definition has_requested (io : nat -> FileIO) (ts : list Task) (i : nat)
  : Prop :=
  exists t, nth_error ts i = Some t /\ started t (io i) = true.

(** [c] is the call for the extraction of file [i] of [fs]: the payload
    of its data URL with the MIME type of the file. *)
Definition extraction_call (io : nat -> FileIO) (fs : list File) (i : nat)
  (c : Call) : Prop :=
  exists file base64Data,
    nth_error fs i = Some file
    /\ convertFileToBase64 (reader (io i)) = Fulfilled base64Data
    /\ c = ExtractTransactions base64Data (type file).

(** The log of the calls of a run over [fs]: every file is handed to the
    reader, in file order, and then come the extractions of the files
    [indices], in the order in which their readings ended. *)
Definition calls_logged (io : nat -> FileIO) (fs : list File) (r : Run)
  (indices : list nat) : Prop :=
  NoDup indices
  /\ (forall i, In i indices <-> has_requested io (tasks r) i)
  /\ exists extractions,
       calls r = (map ReadAsDataURL fs ++ extractions)%list
       /\ Forall2 (extraction_call io fs) indices extractions.

End App.

(* ================================================================== *)
(** * The page: the upload component inside [App] *)
(* ================================================================== *)

Module Page.

(** The page shows the component while [status !== SUCCESS], with
    [disabled = (status === PROCESSING)]; the component's effect hands the
    selection to [handleFilesSelect] whenever the selection is set. *)
Definition upload (p : FileUpload.Widget * App.State) (ev : FileUpload.Event)
  : FileUpload.Widget * App.State :=
  let (w, st) := p in
  let (w', updated) := FileUpload.handle (App.is_processing st) w ev in
  (w', if updated
       then App.handleFilesSelect (FileUpload.selection w') st
       else st).

Definition uploads (p : FileUpload.Widget * App.State)
  (evs : list FileUpload.Event) : FileUpload.Widget * App.State :=
  fold_left upload evs p.

(** "New Scan": [handleReset], after which the component is mounted
    anew, with an empty selection that its effect hands to
    [handleFilesSelect]. *)
Definition reset (st : App.State) : FileUpload.Widget * App.State :=
  let w := {| FileUpload.dragActive := false; FileUpload.selection := [] |} in
  (w, App.handleFilesSelect (FileUpload.selection w) (App.handleReset st)).

(** The state of [App] when it is first rendered. *)
Definition initial : App.State :=
  {| App.files := []; App.status := IDLE; App.transactions := [];
     App.error := None; App.copied := false; App.processedCount := 0 |}.

(** The file list of [App] is the selection of the component. *)
Definition mirrored (p : FileUpload.Widget * App.State) : Prop :=
  App.files (snd p) = FileUpload.selection (fst p).

(** What uploads keep of the state [st0]: the flag [copied], and the
    state of the run, unless that has been brought back to idle. *)
Definition kept_or_idle (st0 st : App.State) : Prop :=
  App.copied st = App.copied st0
  /\ ((App.status st = App.status st0
       /\ App.transactions st = App.transactions st0
       /\ App.error st = App.error st0
       /\ App.processedCount st = App.processedCount st0)
      \/ (App.status st = IDLE /\ App.transactions st = []
          /\ App.error st = None /\ App.processedCount st = 0)).

End Page.

(* ================================================================== *)
(** * components/TransactionTable.tsx *)
(* ================================================================== *)

(** The choices the component makes from the amounts.  The totals
    themselves are binary64 sums over [incomeRows] and [spendingRows], and
    the figures are printed by [toFixed] and [toLocaleString]: those are
    not modelled. *)
Module TransactionTable.

(** [transactions.length === 0]: the placeholder is shown instead of the
    table. *)
Definition placeholder (transactions : list Transaction) : bool :=
  Nat.eqb (List.length transactions) 0.

(** [transactions.filter((t) => t.amount > 0)]. *)
Definition incomeRows (transactions : list Transaction) : list Transaction :=
  filter (fun t => JsNumber.is_positive (amount t)) transactions.

(** [transactions.filter((t) => t.amount < 0)]. *)
Definition spendingRows (transactions : list Transaction) : list Transaction :=
  filter (fun t => JsNumber.is_negative (amount t)) transactions.

Definition transactionCount (transactions : list Transaction) : nat :=
  List.length transactions.

(** The colour and arrow of a row: [t.amount >= 0 ? green, up : red, down]. *)
Inductive Tone : Type := Green | Red.

Definition tone (t : Transaction) : Tone :=
  if JsNumber.is_nonnegative (amount t) then Green else Red.

(** The amount is a zero or [NaN]. *)
Definition is_zero_or_nan (x : number) : bool :=
  match x with
  | NaN | Zero _ => true
  | _ => false
  end.

End TransactionTable.

(* ================================================================== *)
(** * The records and runs of the specification's scenarios *)
(* ================================================================== *)

Module Scenario.
Import JsString.

(** The amount that [JSON.parse] reads from the literal [text]. *)
Definition amount_of_literal (text : string) : number :=
  match Json.parse text with
  | inl (JNumber x) => x
  | _ => NaN
  end.

Definition coffee : Transaction :=
  {| date := "2024-03-05"; description := "Coffee Shop";
     category := "Dining"; amount := amount_of_literal "-4.50" |}.

Definition salary : Transaction :=
  {| date := "2024-01-10"; description := "Employer Inc";
     category := "Salary"; amount := amount_of_literal "2500.00" |}.

Definition rent : Transaction :=
  {| date := "2024-02-01";
     description := "Rent" ++ String tab "Payment" ++ String lf EmptyString;
     category := "Bills"; amount := amount_of_literal "-1200" |}.

(** A record whose date holds a tab character. *)
Definition tabbed : Transaction :=
  {| date := "2024-01-10" ++ String tab "2024-01-11";
     description := "Employer Inc";
     category := "Salary"; amount := amount_of_literal "2500.00" |}.

(** ** Responses of the model *)

Definition member (k v : string) : string := Json.quoted k ++ ":" ++ v.

(** One item, with the [date] field only. *)
Definition partial_response : string :=
  "{" ++ member "transactions"
           ("[{" ++ member "date" (Json.quoted "2024-01-10") ++ "}]") ++ "}".

(** One item with the four fields: the response for file B of the
    scenario. *)
Definition full_response : string :=
  "{" ++ member "transactions"
           ("[{" ++ member "date" (Json.quoted "2024-01-10") ++ ","
                 ++ member "description" (Json.quoted "Employer Inc") ++ ","
                 ++ member "category" (Json.quoted "Salary") ++ ","
                 ++ member "amount" "2500.00" ++ "}]") ++ "}".

(** The response for file A of the scenario. *)
Definition coffee_response : string :=
  "{" ++ member "transactions"
           ("[{" ++ member "date" (Json.quoted "2024-03-05") ++ ","
                 ++ member "description" (Json.quoted "Coffee Shop") ++ ","
                 ++ member "category" (Json.quoted "Dining") ++ ","
                 ++ member "amount" "-4.50" ++ "}]") ++ "}".

Definition full_record : json :=
  JObject
    [("date", JString "2024-01-10");
     ("description", JString "Employer Inc");
     ("category", JString "Salary");
     ("amount", JNumber (Finite false 25 4))].

(** An object without the [transactions] member. *)
Definition empty_object_response : string := "{}".

(** A model that answers every request with [text]. *)
Definition answering (text : string) : string -> string -> settled (option string) :=
  fun _ _ => Fulfilled (Some text).

(** ** Files *)

Definition statement_pdf : File :=
  {| name := "statement.pdf"; size := 1024; type := "application/pdf" |}.

(** A file whose type is not in the allow-list. *)
Definition notes_txt : File :=
  {| name := "notes.txt"; size := 12; type := "text/plain" |}.

Definition january_png : File :=
  {| name := "january.png"; size := 2048; type := "image/png" |}.

(** ** Runs *)

Definition two_files : App.State :=
  {| App.files := [january_png; statement_pdf]; App.status := IDLE;
     App.transactions := []; App.error := None; App.copied := false;
     App.processedCount := 0 |}.

(** A state without files that shows the result of an earlier run. *)
Definition no_files : App.State :=
  {| App.files := []; App.status := SUCCESS;
     App.transactions := [salary]; App.error := None; App.copied := true;
     App.processedCount := 1 |}.

(** The page after a run over one file that failed. *)
Definition failed_page : App.State :=
  {| App.files := [statement_pdf]; App.status := ERROR;
     App.transactions := [];
     App.error := Some "No response received from Gemini.";
     App.copied := false; App.processedCount := 0 |}.

Definition loaded (records : list Transaction) : App.FileIO :=
  {| App.reader := Some "data:image/png;base64,QUJD";
     App.extraction := Fulfilled records |}.

(** File A yields the coffee, file B the salary. *)
Definition io_two_files (i : nat) : App.FileIO :=
  match i with
  | O => loaded [coffee]
  | _ => loaded [salary]
  end.

(** A record whose date is the empty string. *)
Definition undated (what : string) : Transaction :=
  {| date := EmptyString; description := what; category := "Bills";
     amount := amount_of_literal "-1" |}.

Definition io_undated (i : nat) : App.FileIO :=
  match i with
  | O => loaded [coffee; undated "Card fee"]
  | _ => loaded [undated "Interest"; salary]
  end.

(** The first file is extracted, the second gets no response. *)
Definition io_failing (i : nat) : App.FileIO :=
  match i with
  | O => loaded [coffee]
  | _ =>
      {| App.reader := Some "data:application/pdf;base64,QUJD";
         App.extraction :=
           Rejected (Error "No response received from Gemini.") |}
  end.

End Scenario.

(* ================================================================== *)
(** * Properties of the string primitives *)
(* ================================================================== *)

Module JsStringFacts.
Import JsString.

Lemma all_chars_app (p : ascii -> bool) (a b : string) :
  all_chars p (a ++ b) = all_chars p a && all_chars p b.
Proof.
  induction a as [|c a IH]; simpl.
  - reflexivity.
  - rewrite IH. now rewrite andb_assoc.
Qed.

Lemma all_chars_weaken (p q : ascii -> bool) (s : string) :
  (forall c, p c = true -> q c = true) ->
  all_chars p s = true -> all_chars q s = true.
Proof.
  intros Hpq. induction s as [|c s IH]; simpl; [easy|].
  rewrite !andb_true_iff. intros [Hc Hs]. split; auto.
Qed.

Lemma all_chars_repeat (p : ascii -> bool) (c : ascii) (n : nat) :
  p c = true -> all_chars p (repeat c n) = true.
Proof.
  intros Hc. induction n as [|n IH]; simpl; [easy|].
  now rewrite Hc, IH.
Qed.

Lemma all_chars_take (p : ascii -> bool) (n : nat) (s : string) :
  all_chars p s = true -> all_chars p (take n s) = true.
Proof.
  revert s. induction n as [|n IH]; intros [|c s]; simpl; try easy.
  rewrite !andb_true_iff. intros [Hc Hs]. split; auto.
Qed.

Lemma all_chars_drop (p : ascii -> bool) (n : nat) (s : string) :
  all_chars p s = true -> all_chars p (drop n s) = true.
Proof.
  revert s. induction n as [|n IH]; intros [|c s]; simpl; try easy.
  rewrite andb_true_iff. intros [_ Hs]. auto.
Qed.

Lemma all_chars_trimStart (p : ascii -> bool) (s : string) :
  all_chars p s = true -> all_chars p (trimStart s) = true.
Proof.
  induction s as [|c s IH]; simpl; [easy|].
  destruct (is_space c); simpl; [|easy].
  rewrite andb_true_iff. intros [_ Hs]. auto.
Qed.

Lemma all_chars_trimEnd (p : ascii -> bool) (s : string) :
  all_chars p s = true -> all_chars p (trimEnd s) = true.
Proof.
  induction s as [|c s IH]; simpl; [easy|].
  rewrite andb_true_iff. intros [Hc Hs]. specialize (IH Hs).
  destruct (trimEnd s) as [|d kept].
  - destruct (is_space c); simpl; [easy|]. now rewrite Hc.
  - change (p c && all_chars p (String d kept) = true). now rewrite Hc, IH.
Qed.

Lemma all_chars_trim (p : ascii -> bool) (s : string) :
  all_chars p s = true -> all_chars p (trim s) = true.
Proof.
  intros H. unfold trim. now apply all_chars_trimEnd, all_chars_trimStart.
Qed.

(** What [replace] leaves has no tab, line feed or carriage return. *)
Lemma replace_runs_clean (in_run : bool) (s : string) :
  all_chars (fun c => negb (is_tnr c)) (replace_runs in_run s) = true.
Proof.
  revert in_run. induction s as [|c s IH]; intros in_run; simpl; [easy|].
  destruct (is_tnr c) eqn:Hc.
  - destruct in_run; simpl; auto.
  - simpl. now rewrite Hc, IH.
Qed.

Lemma lacks_app (c : ascii) (a b : string) :
  lacks c (a ++ b) = lacks c a && lacks c b.
Proof. apply all_chars_app. Qed.

Lemma split_not_nil (sep : ascii) (s : string) : split sep s <> [].
Proof.
  destruct s as [|c s]; simpl; [easy|].
  destruct (split sep s); [easy|]. now destruct (Ascii.eqb c sep).
Qed.

Lemma split_lacks (sep : ascii) (s : string) :
  lacks sep s = true -> split sep s = [s].
Proof.
  induction s as [|c s IH]; simpl; [easy|].
  unfold lacks; simpl. rewrite andb_true_iff, negb_true_iff.
  intros [Hc Hs]. rewrite (IH Hs), Hc. reflexivity.
Qed.

Lemma split_sep (sep : ascii) (s : string) :
  split sep (String sep s) = EmptyString :: split sep s.
Proof.
  simpl. destruct (split sep s) eqn:E.
  - now apply split_not_nil in E.
  - now rewrite Ascii.eqb_refl.
Qed.

Lemma split_app (sep : ascii) (a b : string) :
  lacks sep a = true ->
  split sep (a ++ String sep b) = a :: split sep b.
Proof.
  induction a as [|c a IH].
  - intros _. apply split_sep.
  - unfold lacks; simpl. rewrite andb_true_iff, negb_true_iff.
    intros [Hc Ha]. rewrite (IH Ha), Hc. reflexivity.
Qed.

Lemma join_cons (sep : ascii) (p q : string) (more : list string) :
  join (String sep EmptyString) (p :: q :: more)
  = p ++ String sep (join (String sep EmptyString) (q :: more)).
Proof. reflexivity. Qed.

(** Splitting undoes joining when no part contains the separator. *)
Lemma split_join (sep : ascii) (parts : list string) :
  parts <> [] ->
  Forall (fun p => lacks sep p = true) parts ->
  split sep (join (String sep EmptyString) parts) = parts.
Proof.
  induction parts as [|p [|q more] IH]; intros Hne Hall.
  - easy.
  - inversion Hall; subst. now apply split_lacks.
  - inversion Hall as [|? ? Hp Hrest]; subst.
    rewrite join_cons, split_app by exact Hp.
    f_equal. now apply IH.
Qed.

Lemma lacks_join (c sep : ascii) (parts : list string) :
  Ascii.eqb sep c = false ->
  Forall (fun p => lacks c p = true) parts ->
  lacks c (join (String sep EmptyString) parts) = true.
Proof.
  intros Hsep. induction parts as [|p [|q more] IH]; intros Hall.
  - reflexivity.
  - now inversion Hall.
  - inversion Hall as [|? ? Hp Hrest]; subst.
    rewrite join_cons, lacks_app, Hp. unfold lacks at 1. simpl.
    rewrite Hsep. simpl. now apply IH.
Qed.

End JsStringFacts.

(* ================================================================== *)
(** * Properties of [Number::toString] *)
(* ================================================================== *)

Module JsNumberFacts.
Import JsString JsStringFacts JsNumber.

Lemma string_of_uint_digits (u : Decimal.uint) :
  all_chars is_digit (NilEmpty.string_of_uint u) = true.
Proof. induction u; simpl; auto. Qed.

Lemma digits_are_digits (s : positive) : all_chars is_digit (digits s) = true.
Proof. apply string_of_uint_digits. Qed.

Lemma decimal_digits (n : N) : all_chars is_digit (decimal n) = true.
Proof.
  unfold decimal. destruct (N.to_uint n) eqn:E; try apply string_of_uint_digits.
  reflexivity.
Qed.

Lemma digit_numeric (c : ascii) : is_digit c = true -> numeric_char c = true.
Proof. unfold numeric_char. now intros ->. Qed.

Lemma toString_finite_chars (s : positive) (n : Z) :
  all_chars numeric_char (toString_finite s n) = true.
Proof.
  pose proof (all_chars_weaken _ _ _ digit_numeric (digits_are_digits s)) as Hds.
  unfold toString_finite.
  destruct ((_ <=? n)%Z && (n <=? 21)%Z).
  { rewrite all_chars_app, Hds. now apply all_chars_repeat. }
  destruct ((0 <? n)%Z && (n <=? 21)%Z).
  { rewrite all_chars_app, all_chars_take by exact Hds.
    simpl. now apply all_chars_drop. }
  destruct ((-6 <? n)%Z && (n <=? 0)%Z).
  { simpl. rewrite all_chars_app, Hds, andb_true_r. now apply all_chars_repeat. }
  pose proof (all_chars_weaken _ _ _ digit_numeric
                (decimal_digits (Z.abs_N (n - 1)))) as He.
  destruct (digits s) as [|d [|d' more]]; [reflexivity| |].
  - simpl in Hds |- *. rewrite andb_true_r in Hds. rewrite Hds. simpl.
    destruct (n - 1 <? 0)%Z; simpl; exact He.
  - cbn [append]. cbn [all_chars] in Hds |- *.
    apply andb_true_iff in Hds as [Hd Hmore]. rewrite Hd. simpl.
    apply andb_true_iff in Hmore as [Hd' Hmore]. rewrite Hd'. simpl.
    rewrite all_chars_app, Hmore. simpl.
    destruct (n - 1 <? 0)%Z; simpl; exact He.
Qed.

Lemma toString_chars (x : number) :
  all_chars number_char (toString x) = true.
Proof.
  assert (Hw : forall c, numeric_char c = true -> number_char c = true)
    by (intros c Hc; unfold number_char; now rewrite Hc).
  destruct x as [|[]|[]|[] s n]; try reflexivity;
    cbn [toString]; try (cbn [append all_chars]; apply andb_true_iff; split;
                         [reflexivity|]);
    apply (all_chars_weaken _ _ _ Hw), toString_finite_chars.
Qed.

Lemma toString_finite_unsigned (s : positive) (n : Z) :
  starts_with_minus (toString_finite s n) = false.
Proof.
  pose proof (digits_are_digits s) as Hds.
  assert (Hdig : forall c, is_digit c = true -> Ascii.eqb c "-" = false).
  { intros c. unfold is_digit, digit_of.
    destruct (Ascii.eqb_spec c "-") as [->|]; [discriminate|easy]. }
  unfold toString_finite.
  destruct (digits s) as [|d more] eqn:E.
  - cbn [String.length Z.of_nat append take drop].
    destruct ((0 <=? n)%Z && (n <=? 21)%Z).
    { destruct (Z.to_nat (n - 0)); reflexivity. }
    destruct ((0 <? n)%Z && (n <=? 21)%Z).
    { destruct (Z.to_nat n); reflexivity. }
    destruct ((-6 <? n)%Z && (n <=? 0)%Z); reflexivity.
  - simpl in Hds. apply andb_true_iff in Hds as [Hd _].
    apply Hdig in Hd.
    destruct ((_ <=? n)%Z && (n <=? 21)%Z); [exact Hd|].
    destruct ((0 <? n)%Z && (n <=? 21)%Z) eqn:Hn.
    { apply andb_true_iff in Hn as [Hn _]. apply Z.ltb_lt in Hn.
      destruct (Z.to_nat n) eqn:En; [lia|]. exact Hd. }
    destruct ((-6 <? n)%Z && (n <=? 0)%Z); [reflexivity|].
    destruct more; exact Hd.
Qed.

(** The string begins with a minus sign exactly for the numbers below
    zero. *)
Lemma toString_sign (x : number) :
  starts_with_minus (toString x) = is_negative x.
Proof.
  destruct x as [|[]|[]|[] s n]; try reflexivity.
  apply toString_finite_unsigned.
Qed.

Lemma number_char_not (c : ascii) (s : string) :
  number_char c = false ->
  all_chars number_char s = true -> lacks c s = true.
Proof.
  intros Hc. apply all_chars_weaken. intros d Hd.
  destruct (Ascii.eqb_spec d c) as [->|]; [congruence|reflexivity].
Qed.

End JsNumberFacts.

(* ================================================================== *)
(** * The sanitisation of [generateCSV] against the specification's *)
(* ================================================================== *)

Module CleanFacts.
Import JsString JsStringFacts Csv.

Lemma append_empty (s : string) : s ++ EmptyString = s.
Proof. induction s as [|c s IH]; simpl; congruence. Qed.

Lemma append_assoc (a b c : string) : (a ++ b) ++ c = a ++ (b ++ c).
Proof. induction a as [|x a IH]; simpl; congruence. Qed.

Lemma concat_cons (x : string) (l : list string) :
  String.concat EmptyString (x :: l) = x ++ String.concat EmptyString l.
Proof. destruct l; simpl; [now rewrite append_empty|reflexivity]. Qed.

Lemma runs_cons (d : ascii) (s : string) :
  exists r more, runs (String d s) = (is_tnr d, String d r) :: more.
Proof.
  simpl. destruct (runs s) as [|[b r] more]; [now eexists _, _|].
  destruct (Bool.eqb b (is_tnr d)) eqn:E.
  - apply eqb_prop in E. subst b. now eexists _, _.
  - now eexists _, _.
Qed.

(** How the collapsed string of the specification grows at the
    front. *)
Lemma collapse_spec_cons (c : ascii) (rest : string) :
  collapse_spec (String c rest)
  = if is_tnr c then
      if starts_tnr rest then collapse_spec rest
      else String space (collapse_spec rest)
    else String c (collapse_spec rest).
Proof.
  destruct rest as [|d s].
  - unfold collapse_spec. simpl. now destruct (is_tnr c).
  - destruct (runs_cons d s) as (r & more & E).
    unfold collapse_spec. change (runs (String c (String d s))) with
      (match runs (String d s) with
       | (b, r) :: more =>
           if Bool.eqb b (is_tnr c) then (b, String c r) :: more
           else (is_tnr c, String c EmptyString) :: (b, r) :: more
       | [] => [(is_tnr c, String c EmptyString)]
       end).
    rewrite E. cbn [starts_tnr].
    destruct (is_tnr d) eqn:Hd, (is_tnr c) eqn:Hc; cbn [Bool.eqb map fst snd];
      rewrite ?concat_cons; reflexivity.
Qed.

Lemma replace_runs_spec (s : string) :
  replace_runs false s = collapse_spec s
  /\ (starts_tnr s = true -> String space (replace_runs true s) = collapse_spec s)
  /\ (starts_tnr s = false -> replace_runs true s = collapse_spec s).
Proof.
  induction s as [|c rest (IH1 & IH2 & IH3)].
  - repeat split; try reflexivity. discriminate.
  - assert (H : String space (replace_runs true rest)
                = if starts_tnr rest then collapse_spec rest
                  else String space (collapse_spec rest)).
    { destruct (starts_tnr rest); [now apply IH2|now rewrite IH3]. }
    rewrite collapse_spec_cons. cbn [replace_runs starts_tnr].
    destruct (is_tnr c); repeat split; intros; try discriminate;
      try exact H; now rewrite IH1.
Qed.

Lemma rev_append_spec (s acc : string) : rev_append s acc = rev s ++ acc.
Proof.
  unfold rev. revert acc. induction s as [|c s IH]; intros acc; simpl.
  - reflexivity.
  - rewrite IH, (IH (String c EmptyString)), append_assoc. reflexivity.
Qed.

Lemma rev_cons (c : ascii) (s : string) :
  rev (String c s) = rev s ++ String c EmptyString.
Proof. unfold rev at 1. simpl. apply rev_append_spec. Qed.

Lemma rev_snoc (c : ascii) (s : string) :
  rev (s ++ String c EmptyString) = String c (rev s).
Proof.
  induction s as [|d s IH]; [reflexivity|].
  simpl. now rewrite !rev_cons, IH.
Qed.

Lemma trimStart_snoc (a : string) (c : ascii) :
  trimStart (a ++ String c EmptyString)
  = match trimStart a with
    | EmptyString => if is_space c then EmptyString else String c EmptyString
    | kept => kept ++ String c EmptyString
    end.
Proof.
  induction a as [|d a IH]; simpl.
  - reflexivity.
  - destruct (is_space d); [exact IH|reflexivity].
Qed.

Lemma trimEnd_rev (s : string) : trimEnd s = rev (trimStart (rev s)).
Proof.
  induction s as [|c s IH]; [reflexivity|].
  rewrite rev_cons, trimStart_snoc. cbn [trimEnd]. rewrite IH.
  destruct (trimStart (rev s)) as [|d k].
  - cbn. now destruct (is_space c).
  - rewrite rev_snoc, rev_cons.
    destruct (rev k ++ String d EmptyString) eqn:E; [|reflexivity].
    now destruct (rev k).
Qed.

(** The [clean] of the code is the sanitisation the specification
    describes. *)
Lemma clean_refines (s : string) : clean s = sanitize_spec s.
Proof.
  unfold clean, sanitize_spec, trim_spec, trim.
  rewrite trimEnd_rev. now destruct (replace_runs_spec s) as [-> _].
Qed.

Lemma clean_tabular (s : string) : tabular (clean s) = true.
Proof. apply all_chars_trim, replace_runs_clean. Qed.

Lemma tabular_lacks (s : string) :
  tabular s = true ->
  lacks tab s = true /\ lacks lf s = true /\ lacks cr s = true.
Proof.
  intros H.
  repeat split; revert H; apply all_chars_weaken; intros c;
    unfold is_tnr; rewrite !negb_true_iff, !orb_false_iff; tauto.
Qed.

End CleanFacts.

(* ================================================================== *)
(** * The string of a number read as a decimal numeral *)
(* ================================================================== *)

Module NumeralFacts.
Import JsString JsStringFacts JsNumber JsNumberFacts CleanFacts.

Lemma length_append (a b : string) :
  String.length (a ++ b) = String.length a + String.length b.
Proof. induction a as [|c a IH]; simpl; congruence. Qed.

Lemma take_drop (n : nat) (s : string) : take n s ++ drop n s = s.
Proof.
  revert s. induction n as [|n IH]; intros [|c s]; simpl; try reflexivity.
  now rewrite IH.
Qed.

Lemma length_drop (n : nat) (s : string) :
  String.length (drop n s) = String.length s - n.
Proof.
  revert s. induction n as [|n IH]; intros [|c s]; simpl; auto.
Qed.

Lemma length_repeat (c : ascii) (n : nat) : String.length (repeat c n) = n.
Proof. induction n; simpl; congruence. Qed.

Lemma rev_app (a b : string) : rev (a ++ b) = rev b ++ rev a.
Proof.
  induction a as [|c a IH]; simpl.
  - now rewrite append_empty.
  - now rewrite !rev_cons, IH, append_assoc.
Qed.

Lemma rev_involutive (s : string) : rev (rev s) = s.
Proof.
  induction s as [|c s IH]; [reflexivity|].
  now rewrite rev_cons, rev_snoc, IH.
Qed.

Lemma repeat_snoc (c : ascii) (n : nat) :
  repeat c n ++ String c EmptyString = String c (repeat c n).
Proof. induction n; simpl; congruence. Qed.

Lemma rev_repeat (c : ascii) (n : nat) : rev (repeat c n) = repeat c n.
Proof.
  induction n as [|n IH]; [reflexivity|].
  simpl. now rewrite rev_cons, IH, repeat_snoc.
Qed.

(** ** Digit sequences and their strings *)

Lemma string_of_uint_inj (a b : uint) :
  NilEmpty.string_of_uint a = NilEmpty.string_of_uint b -> a = b.
Proof.
  intros H. apply (f_equal NilEmpty.uint_of_string) in H.
  rewrite !NilEmpty.usu in H. congruence.
Qed.

Lemma string_of_uint_length (u : uint) :
  String.length (NilEmpty.string_of_uint u) = nb_digits u.
Proof. induction u; simpl; congruence. Qed.

Lemma string_of_revapp (d acc : uint) :
  NilEmpty.string_of_uint (revapp d acc)
  = rev_append (NilEmpty.string_of_uint d) (NilEmpty.string_of_uint acc).
Proof.
  revert acc. induction d; intros acc; simpl; try reflexivity;
    now rewrite IHd.
Qed.

Lemma string_of_rev (d : uint) :
  NilEmpty.string_of_uint (Decimal.rev d) = rev (NilEmpty.string_of_uint d).
Proof. unfold Decimal.rev. now rewrite string_of_revapp. Qed.

Lemma string_of_app (a b : uint) :
  NilEmpty.string_of_uint (app a b)
  = NilEmpty.string_of_uint a ++ NilEmpty.string_of_uint b.
Proof.
  unfold app. rewrite string_of_revapp, rev_append_spec, string_of_rev.
  now rewrite rev_involutive.
Qed.

Lemma string_of_zeros (j : nat) (u : uint) :
  NilEmpty.string_of_uint (Nat.iter j D0 u)
  = repeat "0" j ++ NilEmpty.string_of_uint u.
Proof. induction j as [|j IH]; simpl; congruence. Qed.

Lemma of_uint_zeros (j : nat) (u : uint) :
  N.of_uint (Nat.iter j D0 u) = N.of_uint u.
Proof. induction j as [|j IH]; simpl; congruence. Qed.

Lemma strip_zeros_iter (j : nat) (r : uint) :
  strip_zeros r = (O, r) -> strip_zeros (Nat.iter j D0 r) = (j, r).
Proof. intros H. induction j as [|j IH]; simpl; [exact H|now rewrite IH]. Qed.

(** The digits of a positive number do not begin with a zero. *)
Lemma to_uint_head (s : positive) :
  match Pos.to_uint s with
  | Nil | D0 _ => False
  | _ => True
  end.
Proof.
  pose proof (DecimalPos.Unsigned.of_to s) as Hof.
  pose proof (DecimalPos.Unsigned.to_of (Pos.to_uint s)) as Hto.
  rewrite Hof in Hto. simpl in Hto.
  destruct (Pos.to_uint s) as [|u| | | | | | | | |] eqn:E; try exact I.
  - discriminate Hof.
  - rewrite DecimalFacts.unorm_D0 in Hto. unfold unorm in Hto.
    pose proof (DecimalFacts.nzhead_nonzero u u) as Hnz.
    destruct (nzhead u) eqn:En; try congruence.
    injection Hto as ->. simpl in Hof. discriminate Hof.
Qed.

Lemma digits_not_empty (s : positive) : digits s <> EmptyString.
Proof.
  unfold digits. pose proof (to_uint_head s) as H.
  destruct (Pos.to_uint s); simpl; try discriminate. destruct H.
Qed.

(** What [of_decimal] makes of the digits of [s] followed by [j]
    zeros. *)
Lemma of_decimal_digits (negative : bool) (s : positive) (j : nat) (e : Z) :
  shortest s = true ->
  of_decimal negative (N.of_uint (app (Pos.to_uint s) (Nat.iter j D0 Nil))) e
  = Finite negative s
      (Z.of_nat (nb_digits (Pos.to_uint s)) + Z.of_nat j + e).
Proof.
  intros Hs. set (d := app (Pos.to_uint s) (Nat.iter j D0 Nil)).
  assert (Hhead : match d with Nil | D0 _ => False | _ => True end).
  { pose proof (string_of_app (Pos.to_uint s) (Nat.iter j D0 Nil)) as H.
    fold d in H. pose proof (to_uint_head s) as Hh.
    destruct (Pos.to_uint s); try easy; destruct d; try discriminate H;
      exact I. }
  assert (Hd : unorm d = d) by (destruct d; try easy).
  assert (Hrev : Decimal.rev d = Nat.iter j D0 (Pos.to_little_uint s)).
  { apply string_of_uint_inj. rewrite string_of_rev. unfold d.
    rewrite string_of_app, rev_app, !string_of_zeros. simpl.
    rewrite append_empty, rev_repeat. f_equal.
    rewrite <- string_of_rev. unfold Pos.to_uint. now rewrite DecimalFacts.rev_rev. }
  pose proof (Unsigned.to_of d) as Hto. rewrite Hd in Hto.
  unfold of_decimal. destruct (N.of_uint d) as [|p] eqn:Ep.
  - exfalso. simpl in Hto. rewrite <- Hto in Hhead. exact Hhead.
  - simpl in Hto.
    assert (Hl : Pos.to_little_uint p = Decimal.rev d).
    { rewrite <- Hto. unfold Pos.to_uint. now rewrite DecimalFacts.rev_rev. }
    rewrite Hl, Hrev.
    rewrite (strip_zeros_iter j (Pos.to_little_uint s)).
    + change (Decimal.rev (Pos.to_little_uint s)) with (Pos.to_uint s).
      rewrite DecimalPos.Unsigned.of_to. f_equal.
      unfold Pos.to_uint. rewrite DecimalFacts.nb_digits_rev. lia.
    + unfold shortest in Hs. now destruct (Pos.to_little_uint s).
Qed.

(** ** Reading the string of a number *)

Lemma digit_lacks (c : ascii) (s : string) :
  is_digit c = false -> all_chars is_digit s = true -> lacks c s = true.
Proof.
  intros Hc. apply all_chars_weaken. intros d Hd.
  destruct (Ascii.eqb_spec d c) as [->|]; [congruence|reflexivity].
Qed.

Lemma lacks_cons (c d : ascii) (s : string) :
  lacks c (String d s) = negb (Ascii.eqb d c) && lacks c s.
Proof. reflexivity. Qed.

Lemma uint_of_digits_zeros (s : positive) (a j : nat) :
  NilEmpty.uint_of_string (repeat "0" a ++ digits s ++ repeat "0" j)
  = Some (Nat.iter a D0 (app (Pos.to_uint s) (Nat.iter j D0 Nil))).
Proof.
  rewrite <- (NilEmpty.usu (Nat.iter a D0 _)). f_equal.
  rewrite string_of_zeros, string_of_app, string_of_zeros. simpl.
  now rewrite append_empty.
Qed.

Lemma uint_of_digits (s : positive) :
  NilEmpty.uint_of_string (digits s)
  = Some (app (Pos.to_uint s) (Nat.iter 0 D0 Nil)).
Proof.
  pose proof (uint_of_digits_zeros s 0 0) as H. simpl in H.
  rewrite append_empty in H. exact H.
Qed.

Lemma nonempty_uint (x : string) :
  x <> EmptyString -> NilZero.uint_of_string x = NilEmpty.uint_of_string x.
Proof. now destruct x. Qed.

(** A mantissa without a point. *)
Lemma read_mantissa_whole (negative : bool) (m : string) (e : Z) (u : uint) :
  m <> EmptyString -> lacks "." m = true ->
  NilEmpty.uint_of_string m = Some u ->
  read_mantissa negative m e = Some (of_decimal negative (N.of_uint u) e).
Proof.
  intros Hne Hl Hu. unfold read_mantissa.
  rewrite split_lacks by exact Hl. rewrite nonempty_uint by exact Hne.
  rewrite Hu. now destruct m.
Qed.

(** A mantissa with a point. *)
Lemma read_mantissa_point (negative : bool) (i f : string) (e : Z) (u : uint) :
  i <> EmptyString -> f <> EmptyString ->
  lacks "." i = true -> lacks "." f = true ->
  NilEmpty.uint_of_string (i ++ f) = Some u ->
  read_mantissa negative (i ++ String "." f) e
  = Some (of_decimal negative (N.of_uint u) (e - Z.of_nat (String.length f))).
Proof.
  intros Hi Hf Hli Hlf Hu. unfold read_mantissa.
  rewrite split_app by exact Hli. rewrite split_lacks by exact Hlf.
  destruct i as [|c i]; [easy|]. destruct f as [|d f]; [easy|].
  rewrite Hu. reflexivity.
Qed.

Lemma read_exponent_decimal (e : Z) :
  read_exponent ((if (e <? 0)%Z then "-" else "+") ++ decimal (Z.abs_N e))
  = Some e.
Proof.
  assert (H : NilZero.uint_of_string (decimal (Z.abs_N e))
              = Some (N.to_uint (Z.abs_N e))).
  { unfold decimal. apply NilZero.usu.
    destruct (Z.abs_N e); [discriminate|apply Unsigned.to_uint_nonnil]. }
  destruct (e <? 0)%Z eqn:He; cbn [append read_exponent Ascii.eqb];
    rewrite ?Ascii.eqb_refl; simpl; rewrite H; simpl;
    rewrite Unsigned.of_to; f_equal.
  - apply Z.ltb_lt in He. rewrite N2Z.inj_abs_N. lia.
  - apply Z.ltb_ge in He. rewrite N2Z.inj_abs_N. lia.
Qed.

Lemma digits_length (s : positive) :
  String.length (digits s) = nb_digits (Pos.to_uint s).
Proof. apply string_of_uint_length. Qed.

(** The numeral that [Number::toString] writes for the digits [s] and
    the exponent [n] denotes that number. *)
Lemma read_toString_finite (negative : bool) (s : positive) (n : Z) :
  shortest s = true ->
  read_unsigned negative (toString_finite s n) = Some (Finite negative s n).
Proof.
  intros Hs.
  pose proof (digits_are_digits s) as Hds.
  pose proof (digits_not_empty s) as Hne.
  pose proof (digits_length s) as Hk.
  assert (He : lacks "e" (digits s) = true) by now apply digit_lacks.
  assert (Hp : lacks "." (digits s) = true) by now apply digit_lacks.
  unfold toString_finite.
  destruct ((_ <=? n)%Z && (n <=? 21)%Z) eqn:C1.
  { apply andb_true_iff in C1 as [C1 _]. apply Z.leb_le in C1.
    assert (Hz : all_chars is_digit (repeat "0" (Z.to_nat (n - Z.of_nat (String.length (digits s))))) = true)
      by now apply all_chars_repeat.
    unfold read_unsigned. rewrite split_lacks.
    2:{ rewrite lacks_app, He. now apply digit_lacks. }
    rewrite (read_mantissa_whole negative _ 0
               (app (Pos.to_uint s) (Nat.iter (Z.to_nat (n - Z.of_nat (String.length (digits s)))) D0 Nil))).
    - rewrite of_decimal_digits by exact Hs. do 2 f_equal. lia.
    - destruct (digits s); [easy|discriminate].
    - rewrite lacks_app, Hp. now apply digit_lacks.
    - apply (uint_of_digits_zeros s 0). }
  destruct ((0 <? n)%Z && (n <=? 21)%Z) eqn:C2.
  { assert (C2a := C2). apply andb_true_iff in C2a as [C2a _]. apply Z.ltb_lt in C2a.
    apply andb_true_iff in C2 as [_ C2']. apply Z.leb_le in C2'.
    apply andb_false_iff in C1 as [C1|C1]; [|apply Z.leb_gt in C1; lia].
    apply Z.leb_gt in C1.
    set (i := take (Z.to_nat n) (digits s)).
    set (f := drop (Z.to_nat n) (digits s)).
    assert (Hif : i ++ f = digits s) by apply take_drop.
    assert (Hlf : String.length f = String.length (digits s) - Z.to_nat n)
      by apply length_drop.
    assert (Hi : i <> EmptyString).
    { unfold i. destruct (Z.to_nat n) eqn:En; [lia|].
      destruct (digits s); [easy|discriminate]. }
    assert (Hf : f <> EmptyString).
    { intros E. rewrite E in Hlf. simpl in Hlf. lia. }
    assert (Hdi : all_chars is_digit i = true) by now apply all_chars_take.
    assert (Hdf : all_chars is_digit f = true) by now apply all_chars_drop.
    unfold read_unsigned. rewrite split_lacks.
    2:{ change (i ++ "." ++ f) with (i ++ String "." f).
        rewrite lacks_app, lacks_cons, !digit_lacks by easy. reflexivity. }
    change (i ++ "." ++ f) with (i ++ String "." f).
    rewrite (read_mantissa_point negative i f 0
               (app (Pos.to_uint s) (Nat.iter 0 D0 Nil)));
      try assumption; try (now apply digit_lacks).
    - rewrite of_decimal_digits by exact Hs. do 2 f_equal. lia.
    - rewrite Hif. apply uint_of_digits. }
  destruct ((-6 <? n)%Z && (n <=? 0)%Z) eqn:C3.
  { apply andb_true_iff in C3 as [_ C3]. apply Z.leb_le in C3.
    set (f := repeat "0" (Z.to_nat (- n)) ++ digits s).
    assert (Hdf : all_chars is_digit f = true).
    { unfold f. rewrite all_chars_app, Hds. now rewrite all_chars_repeat. }
    assert (Hf : f <> EmptyString).
    { unfold f. destruct (repeat "0" (Z.to_nat (- n))); [exact Hne|discriminate]. }
    unfold read_unsigned. rewrite split_lacks.
    2:{ change ("0." ++ f) with (String "0" (String "." f)).
        rewrite !lacks_cons, digit_lacks by easy. reflexivity. }
    change ("0." ++ f) with ("0" ++ String "." f).
    rewrite (read_mantissa_point negative "0" f 0
               (Nat.iter (S (Z.to_nat (- n))) D0
                  (app (Pos.to_uint s) (Nat.iter 0 D0 Nil))));
      try easy; try (now apply digit_lacks).
    - rewrite of_uint_zeros, of_decimal_digits by exact Hs. do 2 f_equal.
      unfold f. rewrite length_append, length_repeat. lia.
    - pose proof (uint_of_digits_zeros s (S (Z.to_nat (- n))) 0) as H.
      simpl in H. rewrite append_empty in H. exact H. }
  assert (Hn : (n - 1 < -6 \/ 21 <= n - 1)%Z).
  { apply andb_false_iff in C2, C3.
    destruct C2 as [C2|C2], C3 as [C3|C3];
      rewrite ?Z.ltb_ge, ?Z.leb_gt in *; lia. }
  set (x := (if (n - 1 <? 0)%Z then "-" else "+") ++ decimal (Z.abs_N (n - 1))).
  assert (Hx : lacks "e" x = true).
  { unfold x. rewrite lacks_app.
    rewrite (digit_lacks "e" (decimal _)) by (easy || apply decimal_digits).
    now destruct (n - 1 <? 0)%Z. }
  destruct (digits s) as [|d [|d' more]] eqn:E; [easy| |].
  - change (String d "" ++ "e" ++ x) with (String d "" ++ String "e" x).
    unfold read_unsigned. rewrite split_app by exact He.
    rewrite split_lacks by exact Hx. unfold x.
    rewrite read_exponent_decimal.
    rewrite (read_mantissa_whole negative _ (n - 1)
               (app (Pos.to_uint s) (Nat.iter 0 D0 Nil)));
      try easy.
    + rewrite of_decimal_digits by exact Hs. do 2 f_equal. simpl in Hk. lia.
    + rewrite <- E. apply uint_of_digits.
  - set (f := String d' more) in *.
    simpl in Hds, He, Hp. 
    change (String d "" ++ "." ++ f ++ "e" ++ x)
      with (String d (String "." (f ++ String "e" x))).
    assert (Hm : String d (String "." (f ++ String "e" x))
                 = (String d (String "." f)) ++ String "e" x) by reflexivity.
    rewrite Hm. clear Hm.
    assert (Hdd : is_digit d = true /\ all_chars is_digit f = true)
      by (now apply andb_true_iff).
    destruct Hdd as [Hd Hdf].
    unfold read_unsigned. rewrite split_app.
    2:{ rewrite !lacks_cons, (digit_lacks "e" f) by easy.
        destruct (Ascii.eqb_spec d "e") as [->|]; [discriminate Hd|reflexivity]. }
    rewrite split_lacks by exact Hx. unfold x.
    rewrite read_exponent_decimal.
    change (String d (String "." f)) with (String d "" ++ String "." f).
    rewrite (read_mantissa_point negative (String d "") f (n - 1)
               (app (Pos.to_uint s) (Nat.iter 0 D0 Nil)));
      try easy; try (now apply digit_lacks).
    + rewrite of_decimal_digits by exact Hs. do 2 f_equal.
      simpl in Hk. unfold f. simpl. lia.
    + rewrite lacks_cons.
      destruct (Ascii.eqb_spec d ".") as [->|]; [discriminate Hd|reflexivity].
    + change (String d "" ++ f) with (String d f). rewrite <- E.
      apply uint_of_digits.
Qed.

(** Read as a decimal numeral, the string of a finite number is that
    number. *)
Lemma decimal_value_toString (negative : bool) (s : positive) (n : Z) :
  shortest s = true ->
  decimal_value (toString (Finite negative s n)) = Some (Finite negative s n).
Proof.
  intros Hs. destruct negative; cbn [toString].
  - change ("-" ++ toString_finite s n) with (String "-" (toString_finite s n)).
    cbn [decimal_value]. rewrite Ascii.eqb_refl. now apply read_toString_finite.
  - pose proof (toString_finite_unsigned s n) as Hu.
    pose proof (read_toString_finite false s n Hs) as Hr.
    destruct (toString_finite s n) as [|c rest]; [discriminate Hr|].
    cbn [decimal_value]. simpl in Hu. now rewrite Hu.
Qed.

End NumeralFacts.

(* ================================================================== *)
(** * utils/csv.ts: the serialised table *)
(* ================================================================== *)

Module CsvFacts.
Import JsString JsStringFacts JsNumber JsNumberFacts Csv CleanFacts.
Import NumeralFacts.

Lemma toString_lacks (c : ascii) (x : number) :
  number_char c = false -> lacks c (toString x) = true.
Proof. intros Hc. apply number_char_not; [exact Hc|apply toString_chars]. Qed.

Lemma row_fields (t : Transaction) :
  lacks tab (date t) = true ->
  split tab (row t)
  = [date t; clean (description t); clean (category t); toString (amount t)].
Proof.
  intros Hd. unfold row. apply split_join; [easy|].
  repeat constructor; try exact Hd;
    try (apply tabular_lacks, clean_tabular).
  now apply toString_lacks.
Qed.

Lemma row_one_line (t : Transaction) :
  lacks lf (date t) = true -> lacks lf (row t) = true.
Proof.
  intros Hd. unfold row. apply lacks_join; [reflexivity|].
  repeat constructor; try exact Hd;
    try (apply tabular_lacks, clean_tabular).
  now apply toString_lacks.
Qed.

Lemma generateCSV_rows (transactions : list Transaction) :
  transactions <> [] ->
  Forall (fun t => lacks lf (date t) = true) transactions ->
  split lf (generateCSV transactions)
  = join (String tab EmptyString) headers :: map row transactions.
Proof.
  intros Hne Hall. destruct transactions as [|t ts]; [easy|].
  unfold generateCSV. apply split_join; [easy|].
  constructor; [reflexivity|].
  apply Forall_map. revert Hall. apply Forall_impl. exact row_one_line.
Qed.

(** C5, as the code has it: for every non-empty sequence of N records
    whose [date] fields hold neither a tab nor a line feed, the output of
    [generateCSV] split on line feeds has N+1 rows, and every data row
    split on tabs has 4 fields. *)
Theorem generateCSV_shape (transactions : list Transaction) :
  transactions <> [] ->
  Forall (fun t => lacks tab (date t) = true /\ lacks lf (date t) = true)
    transactions ->
  let rows := split lf (generateCSV transactions) in
  List.length rows = S (List.length transactions)
  /\ Forall (fun r => List.length (split tab r) = 4%nat) (tl rows).
Proof.
  intros Hne Hall rows. subst rows.
  rewrite generateCSV_rows; [|exact Hne|].
  - split; [simpl; now rewrite length_map|].
    simpl. apply Forall_map. revert Hall. apply Forall_impl.
    intros t [Ht _]. now rewrite row_fields.
  - revert Hall. apply Forall_impl. now intros t [_ Hl].
Qed.

Lemma generateCSV_shape_witness :
  let rows := split lf (generateCSV [Scenario.salary; Scenario.coffee]) in
  List.length rows = 3%nat
  /\ Forall (fun r => List.length (split tab r) = 4%nat) (tl rows).
Proof.
  apply (generateCSV_shape [Scenario.salary; Scenario.coffee]).
  - discriminate.
  - repeat constructor.
Defined.

(** C5 as stated fails: [date] is passed through verbatim, so a record
    whose date holds a tab yields a data row of five fields. *)
Lemma generateCSV_date_with_tab :
  let transactions := [Scenario.tabbed] in
  let rows := split lf (generateCSV transactions) in
  transactions <> []
  /\ ~ (List.length rows = S (List.length transactions)
        /\ Forall (fun r => List.length (split tab r) = 4%nat) (tl rows)).
Proof.
  split; [discriminate|].
  intros [_ H]. vm_compute in H. inversion H as [|? ? H5 _]. discriminate H5.
Qed.

(** C6: in every serialised row the description and the category are
    the sanitised texts of the specification (every run of tab, line
    feed and carriage return collapsed to one space, white space
    trimmed at both ends); neither holds a tab, a line feed or a
    carriage return, whatever the input; the description made of
    "Rent", a tab, "Payment" and a line feed is serialised as
    "Rent Payment". *)
Theorem clean_sanitizes (t : Transaction) :
  row t
  = join (String tab EmptyString)
      [date t; sanitize_spec (description t); sanitize_spec (category t);
       toString (amount t)]
  /\ tabular (clean (description t)) = true
  /\ tabular (clean (category t)) = true
  /\ clean (description Scenario.rent) = "Rent Payment"
  /\ row Scenario.rent
     = join (String tab EmptyString)
         ["2024-02-01"; "Rent Payment"; "Bills"; "-1200"].
Proof.
  repeat split; try apply clean_tabular.
  unfold row. now rewrite !clean_refines.
Qed.

(** The fields after the last separator of [a ++ sep ++ b] are those
    of [b]. *)
Lemma split_app_any (sep : ascii) (a b : string) :
  split sep (a ++ String sep b) = (split sep a ++ split sep b)%list.
Proof.
  induction a as [|c a IH].
  - apply split_sep.
  - cbn [append split]. rewrite IH.
    pose proof (split_not_nil sep a) as Hne.
    destruct (split sep a) as [|cur more]; [easy|].
    cbn [app]. now destruct (Ascii.eqb c sep).
Qed.

Lemma last_app_r {A : Type} (l1 l2 : list A) (d : A) :
  l2 <> [] -> last (l1 ++ l2)%list d = last l2 d.
Proof.
  intros Hne. induction l1 as [|x l1 IH]; [reflexivity|].
  simpl. destruct (l1 ++ l2)%list eqn:E.
  - apply app_eq_nil in E as [_ E]. congruence.
  - exact IH.
Qed.

Lemma last_split_app (sep : ascii) (a b : string) :
  last (split sep (a ++ String sep b)) EmptyString
  = last (split sep b) EmptyString.
Proof. rewrite split_app_any. apply last_app_r, split_not_nil. Qed.

(** The last field of a row, whatever its date holds, is the string of
    the amount. *)
Lemma row_last_field (t : Transaction) :
  last (split tab (row t)) EmptyString = toString (amount t).
Proof.
  unfold row.
  change (join (String tab EmptyString)
            [date t; clean (description t); clean (category t);
             toString (amount t)])
    with (date t ++ String tab
            (clean (description t) ++ String tab
               (clean (category t) ++ String tab (toString (amount t))))).
  rewrite !last_split_app.
  now rewrite split_lacks by now apply toString_lacks.
Qed.


(** C9: [generateCSV] of the empty sequence is the empty string, not
    the header row. *)
Theorem generateCSV_empty :
  generateCSV [] = EmptyString
  /\ generateCSV [] <> join (String tab EmptyString) headers.
Proof. split; [reflexivity|discriminate]. Qed.

End CsvFacts.

(* ================================================================== *)
(** * services/geminiService.ts: what [extractTransactions] returns *)
(* ================================================================== *)

Module GeminiFacts.
Import GeminiService.

Section WithEngine.
Context {engine : Engine}.
Variable generateContent : string -> string -> settled (option string).
Variables base64Data mimeType : string.

Lemma extract_parsed (text : string) (data : json) :
  generateContent mimeType base64Data = Fulfilled (Some text) ->
  text <> EmptyString ->
  JSON_parse text = inl data ->
  data <> JNull ->
  extractTransactions generateContent base64Data mimeType
  = Fulfilled (transactions_or_empty data).
Proof.
  intros Hg Hne Hp Hnull. unfold extractTransactions.
  rewrite Hg. destruct text as [|c text]; [easy|]. rewrite Hp.
  now destruct data.
Qed.

End WithEngine.

(** An item that conforms to the item schema has the four fields, none
    of them [null]. *)
Lemma conforms_has_all_fields (item : json) :
  conforms itemSchema item = true -> has_all_fields item = true.
Proof.
  destruct item as [| | | | |ms]; try discriminate.
  unfold itemSchema. cbn [conforms has_all_fields forallb].
  destruct (Json.get_member "date" ms) as [[]|]; try discriminate;
    destruct (Json.get_member "description" ms) as [[]|]; try discriminate;
    destruct (Json.get_member "category" ms) as [[]|]; try discriminate;
    destruct (Json.get_member "amount" ms) as [[]|]; try discriminate;
    reflexivity.
Qed.

(** The items that conform to the item schema are those that can be
    read at the type [Transaction]. *)
Lemma conforms_asTransaction (item : json) :
  conforms itemSchema item = true <-> exists t, asTransaction item = Some t.
Proof.
  destruct item as [| | | | |ms];
    try (split; [discriminate|intros [t Ht]; discriminate Ht]).
  unfold itemSchema. cbn [conforms asTransaction forallb].
  destruct (Json.get_member "date" ms) as [[]|];
    try (split; [discriminate|intros [t Ht]; discriminate Ht]);
    destruct (Json.get_member "description" ms) as [[]|];
    try (split; [discriminate|intros [t Ht]; discriminate Ht]);
    destruct (Json.get_member "category" ms) as [[]|];
    try (split; [discriminate|intros [t Ht]; discriminate Ht]);
    destruct (Json.get_member "amount" ms) as [[]|];
    try (split; [discriminate|intros [t Ht]; discriminate Ht]).
  split; [intros _; now eexists|reflexivity].
Qed.

(** The declared result type [Transaction[]] is right exactly for the
    values whose items all conform. *)
Lemma valid_asTransactions (v : json) :
  all_records_valid v = true <-> exists ts, asTransactions v = Some ts.
Proof.
  destruct v as [| | | |items|];
    try (split; [discriminate|intros [t Ht]; discriminate Ht]).
  unfold all_records_valid. cbn [conforms asTransactions].
  induction items as [|item items IH].
  - split; [intros _; now exists []|reflexivity].
  - cbn [forallb asTransactions_items]. rewrite andb_true_iff, IH.
    rewrite conforms_asTransaction. split.
    + intros [[t Ht] [ts Hts]]. rewrite Ht, Hts. now eexists.
    + intros [ts Hts].
      destruct (asTransaction item) as [t|]; [|discriminate].
      destruct (asTransactions_items items) as [ts'|]; [|discriminate].
      split; now eexists.
Qed.

Lemma conformant_member (data : json) :
  schema_conformant data = true ->
  data <> JNull
  /\ exists items,
       Json.property "transactions" data = Some (JArray items)
       /\ all_records_valid (JArray items) = true.
Proof.
  destruct data as [| | | | |ms]; try discriminate.
  unfold schema_conformant, transactionSchema.
  cbn [conforms forallb Json.property].
  destruct (Json.get_member "transactions" ms) as [v|]; [|discriminate].
  cbn [andb]. rewrite andb_true_r. intros Hv. split; [discriminate|].
  destruct v as [| | | |items|]; try discriminate Hv. now exists items.
Qed.

Lemma valid_records_have_fields (items : list json) :
  all_records_valid (JArray items) = true ->
  forallb has_all_fields items = true.
Proof.
  unfold all_records_valid. cbn [conforms]. rewrite !forallb_forall.
  intros H item Hin. apply conforms_has_all_fields. now apply H.
Qed.

(** C3, as the code has it: [extractTransactions] returns the
    [transactions] member of the parsed response as it is, whenever the
    member is truthy: it looks at no item.  When the response conforms to
    the schema, what it returns is an array whose every record has the
    four fields, none of them [null], and is of the declared type. *)
Theorem extractTransactions_returns_member {engine : Engine}
  (generateContent : string -> string -> settled (option string))
  (base64Data mimeType text : string) (data v : json) :
  generateContent mimeType base64Data = Fulfilled (Some text) ->
  text <> EmptyString ->
  JSON_parse text = inl data ->
  Json.property "transactions" data = Some v ->
  Json.truthy v = true ->
  extractTransactions generateContent base64Data mimeType = Fulfilled v
  /\ (schema_conformant data = true ->
      exists items ts,
        extractTransactions generateContent base64Data mimeType
        = Fulfilled (JArray items)
        /\ forallb has_all_fields items = true
        /\ asTransactions (JArray items) = Some ts).
Proof.
  intros Hg Hne Hp Hv Ht.
  assert (Hout : extractTransactions generateContent base64Data mimeType
                 = Fulfilled v).
  { rewrite (extract_parsed generateContent base64Data mimeType text data);
      try assumption.
    + unfold transactions_or_empty. now rewrite Hv, Ht.
    + intros ->. discriminate Hv. }
  split; [exact Hout|].
  intros Hc. destruct (conformant_member data Hc) as (_ & items & Hm & Hvalid).
  rewrite Hv in Hm. injection Hm as ->.
  pose proof (valid_records_have_fields items Hvalid) as Hfields.
  apply valid_asTransactions in Hvalid as [ts Hts].
  now exists items, ts.
Qed.

Lemma extractTransactions_returns_member_witness :
  extractTransactions (Scenario.answering Scenario.full_response)
    "AAAA" "image/png"
  = Fulfilled (JArray [Scenario.full_record])
  /\ (schema_conformant
        (JObject [("transactions", JArray [Scenario.full_record])]) = true ->
      exists items ts,
        extractTransactions (Scenario.answering Scenario.full_response)
          "AAAA" "image/png"
        = Fulfilled (JArray items)
        /\ forallb has_all_fields items = true
        /\ asTransactions (JArray items) = Some ts).
Proof.
  apply (extractTransactions_returns_member
           (Scenario.answering Scenario.full_response) "AAAA" "image/png"
           Scenario.full_response
           (JObject [("transactions", JArray [Scenario.full_record])])).
  - reflexivity.
  - discriminate.
  - reflexivity.
  - reflexivity.
  - reflexivity.
Defined.

(** C3 as stated fails: an item that has only its [date] is returned,
    not rejected. *)
Lemma extractTransactions_keeps_partial_record :
  extractTransactions (Scenario.answering Scenario.partial_response)
    "AAAA" "image/png"
  = Fulfilled (JArray [JObject [("date", JString "2024-01-10")]])
  /\ has_all_fields (JObject [("date", JString "2024-01-10")]) = false
  /\ all_records_valid (JArray [JObject [("date", JString "2024-01-10")]])
     = false.
Proof. repeat split. Qed.

(** C4, as the code has it: [extractTransactions] fails exactly when
    the request fails, when the response has no text or an empty one,
    when [JSON.parse] rejects the text, or when the text parses to
    [null], and it rethrows that error; in every other case it succeeds:
    with the [transactions] member itself when that is truthy, and with
    the empty sequence when the member is falsy ([null], [false], a zero,
    the empty string) or absent. *)
Theorem extractTransactions_outcome {engine : Engine}
  (generateContent : string -> string -> settled (option string))
  (base64Data mimeType : string) :
  let outcome := extractTransactions generateContent base64Data mimeType in
  (forall err, generateContent mimeType base64Data = Rejected err ->
               outcome = Rejected err)
  /\ (generateContent mimeType base64Data = Fulfilled None
      \/ generateContent mimeType base64Data = Fulfilled (Some EmptyString) ->
      outcome = Rejected (Error "No response received from Gemini."))
  /\ (forall text msg,
        generateContent mimeType base64Data = Fulfilled (Some text) ->
        text <> EmptyString ->
        JSON_parse text = inr msg ->
        outcome = Rejected (SyntaxError msg))
  /\ (forall text,
        generateContent mimeType base64Data = Fulfilled (Some text) ->
        text <> EmptyString ->
        JSON_parse text = inl JNull ->
        outcome = Rejected (TypeError (null_property_message "transactions")))
  /\ (forall text data,
        generateContent mimeType base64Data = Fulfilled (Some text) ->
        text <> EmptyString ->
        JSON_parse text = inl data ->
        data <> JNull ->
        (forall v, Json.property "transactions" data = Some v ->
                   Json.truthy v = true -> outcome = Fulfilled v)
        /\ (forall v, Json.property "transactions" data = Some v ->
                      Json.truthy v = false -> outcome = Fulfilled (JArray []))
        /\ (Json.property "transactions" data = None ->
            outcome = Fulfilled (JArray [])))
  /\ ((exists err, outcome = Rejected err) <->
      (exists err, generateContent mimeType base64Data = Rejected err)
      \/ generateContent mimeType base64Data = Fulfilled None
      \/ generateContent mimeType base64Data = Fulfilled (Some EmptyString)
      \/ (exists text,
            generateContent mimeType base64Data = Fulfilled (Some text)
            /\ text <> EmptyString
            /\ ((exists msg, JSON_parse text = inr msg)
                \/ JSON_parse text = inl JNull))).
Proof.
  intros outcome. subst outcome. split; [|split; [|split; [|split; [|split]]]].
  - intros err Hg. unfold extractTransactions. now rewrite Hg.
  - intros [Hg|Hg]; unfold extractTransactions; now rewrite Hg.
  - intros text msg Hg Hne Hp. unfold extractTransactions. rewrite Hg.
    destruct text; [easy|]. now rewrite Hp.
  - intros text Hg Hne Hp. unfold extractTransactions. rewrite Hg.
    destruct text; [easy|]. now rewrite Hp.
  - intros text data Hg Hne Hp Hnull.
    rewrite (extract_parsed generateContent base64Data mimeType text data)
      by assumption.
    unfold transactions_or_empty. repeat split.
    + intros v Hv Ht. now rewrite Hv, Ht.
    + intros v Hv Ht. now rewrite Hv, Ht.
    + intros Hnone. now rewrite Hnone.
  - unfold extractTransactions.
    destruct (generateContent mimeType base64Data) as [[text|]|err] eqn:Hg.
    + destruct text as [|c text].
      * split; [intros _; right; right; now left|intros _; now eexists].
      * destruct (JSON_parse (String c text)) as [data|msg] eqn:Hp.
        -- destruct data;
             try (split;
                  [intros [e He]; discriminate He
                  |intros [[e He]|[He|[He|(t & [= <-] & _ & [[m Hm]|Hm])]]];
                   congruence]).
           split; [intros _|intros _; now eexists].
           right; right; right. exists (String c text).
           split; [reflexivity|]. split; [discriminate|now right].
        -- split; [intros _|intros _; now eexists].
           right; right; right. exists (String c text).
           split; [reflexivity|]. split; [discriminate|left; now exists msg].
    + split; [intros _; right; now left|intros _; now eexists].
    + split; [intros _; left; now exists err|intros _; now eexists].
Qed.

(** C4 as stated fails: the response [{}] does not conform to the
    schema, and the function returns the empty sequence for it. *)
Lemma extractTransactions_empty_object :
  extractTransactions (Scenario.answering Scenario.empty_object_response)
    "AAAA" "image/png"
  = Fulfilled (JArray [])
  /\ JSON_parse Scenario.empty_object_response = inl (JObject [])
  /\ schema_conformant (JObject []) = false.
Proof. repeat split. Qed.

End GeminiFacts.

(* ================================================================== *)
(** * components/FileUpload.tsx: the submission set *)
(* ================================================================== *)

Module FileUploadFacts.
Import FileUpload.

Lemma newFiles_filter (selectedFiles fileList acc : list File) :
  fold_left (consider selectedFiles) fileList acc
  = (acc ++ filter (accepted selectedFiles) fileList)%list.
Proof.
  revert acc. induction fileList as [|file fileList IH]; intros acc; simpl.
  - now rewrite app_nil_r.
  - rewrite IH. unfold consider, accepted.
    destruct (JsArray.includes validTypes (type file)); simpl; [|reflexivity].
    destruct (existsb (same_name_and_size file) selectedFiles); simpl;
      [reflexivity|].
    now rewrite <- app_assoc.
Qed.

Lemma add_event_spec (disabled : bool) (selectedFiles fileList : list File) :
  add_event disabled selectedFiles fileList
  = if disabled then selectedFiles
    else (selectedFiles ++ filter (accepted selectedFiles) fileList)%list.
Proof.
  unfold add_event, handleFiles. destruct disabled; [reflexivity|].
  rewrite newFiles_filter. simpl.
  destruct (filter (accepted selectedFiles) fileList); simpl;
    [now rewrite app_nil_r|reflexivity].
Qed.

Lemma same_key (file f : File) :
  same_name_and_size file f = true <-> key f = key file.
Proof.
  unfold same_name_and_size, key.
  rewrite andb_true_iff, String.eqb_eq, N.eqb_eq.
  split; [intros [-> ->]; reflexivity|intros [= -> ->]; easy].
Qed.

Lemma accepted_new (selectedFiles : list File) (file : File) :
  accepted selectedFiles file = true ->
  ~ In (key file) (map key selectedFiles).
Proof.
  unfold accepted. rewrite andb_true_iff, negb_true_iff.
  intros [_ Hnew] Hin. apply in_map_iff in Hin as (f & Hk & Hf).
  assert (existsb (same_name_and_size file) selectedFiles = true)
    by (apply existsb_exists; exists f; split; [exact Hf|now apply same_key]).
  congruence.
Qed.

Lemma NoDup_map_filter (p : File -> bool) (l : list File) :
  NoDup (map key l) -> NoDup (map key (filter p l)).
Proof.
  induction l as [|f l IH]; simpl; [easy|].
  intros H. inversion H as [|? ? Hnotin Hrest]; subst.
  destruct (p f); simpl; [|now apply IH].
  constructor; [|now apply IH].
  intros Hin. apply Hnotin. apply in_map_iff in Hin as (g & Hk & Hg).
  apply filter_In in Hg as [Hg _]. apply in_map_iff. now exists g.
Qed.

(** An add-event keeps the set free of duplicates when the batch
    itself holds no two files with the same name and size. *)
Lemma add_event_no_duplicates (disabled : bool)
  (selectedFiles fileList : list File) :
  NoDup (map key selectedFiles) ->
  NoDup (map key fileList) ->
  NoDup (map key (add_event disabled selectedFiles fileList)).
Proof.
  intros Hsel Hbatch. rewrite add_event_spec. destruct disabled; [exact Hsel|].
  rewrite map_app. apply NoDup_app; repeat split.
  - exact Hsel.
  - now apply NoDup_map_filter.
  - intros k Hk Hin. apply in_map_iff in Hin as (f & <- & Hf).
    apply filter_In in Hf as [_ Hacc]. now apply accepted_new in Hacc.
Qed.

(** So does a sequence of add-events, when no batch holds a duplicate
    within itself. *)
Lemma add_events_no_duplicates (disabled : bool)
  (selectedFiles : list File) (batches : list (list File)) :
  NoDup (map key selectedFiles) ->
  Forall (fun fileList => NoDup (map key fileList)) batches ->
  NoDup (map key (add_events disabled selectedFiles batches)).
Proof.
  unfold add_events. revert selectedFiles.
  induction batches as [|fileList batches IH]; intros selectedFiles Hsel Hall;
    [exact Hsel|].
  inversion Hall; subst. simpl. apply IH; [|assumption].
  now apply add_event_no_duplicates.
Qed.

(** A file of the batch whose name and size occur in the set already
    is dropped. *)
Lemma add_event_drops_known (selectedFiles fileList : list File) (file : File) :
  In (key file) (map key selectedFiles) ->
  ~ In file (filter (accepted selectedFiles) fileList).
Proof.
  intros Hin Hf. apply filter_In in Hf as [_ Hacc].
  now apply accepted_new in Hacc.
Qed.

(** C7 at its failing input: the duplicate check looks at the files
    selected before the event only, so one batch that holds the same
    name and size twice puts both entries in the set. *)
Theorem handleFiles_same_batch_duplicate :
  add_events false [] [[Scenario.statement_pdf; Scenario.statement_pdf]]
  = [Scenario.statement_pdf; Scenario.statement_pdf]
  /\ ~ NoDup
       (map key
          (add_events false []
             [[Scenario.statement_pdf; Scenario.statement_pdf]]))
  /\ add_events false []
       [[Scenario.statement_pdf]; [Scenario.statement_pdf]]
     = [Scenario.statement_pdf].
Proof.
  repeat split. intros H. vm_compute in H.
  inversion H as [|? ? Hnotin _]. apply Hnotin. now left.
Qed.

End FileUploadFacts.

(* ================================================================== *)
(** * [Array.prototype.sort] with a comparison of numeric keys *)
(* ================================================================== *)

Module JsArrayFacts.
Import JsArray.

Section ByKey.
Context {A : Type} (key : A -> option Z).

Lemma precedes_lt (x y : A) :
  precedes (compare_keys key) x y = true <->
  exists a b, key x = Some a /\ key y = Some b /\ (a < b)%Z.
Proof.
  unfold precedes, compare_keys.
  destruct (key x) as [a|], (key y) as [b|]; split;
    try discriminate; try (intros (? & ? & ? & ? & ?); discriminate).
  - intros H. apply Z.ltb_lt in H. exists a, b. repeat split. lia.
  - intros (a' & b' & [= <-] & [= <-] & H). apply Z.ltb_lt. lia.
Qed.

Lemma insert_perm (x : A) (before : list A) :
  Permutation (insert (compare_keys key) x before) (x :: before).
Proof.
  induction before as [|y more IH]; simpl; [reflexivity|].
  destruct (precedes (compare_keys key) x y); [|reflexivity].
  rewrite IH. apply perm_swap.
Qed.

Lemma fold_insert_perm (l acc : list A) :
  Permutation (fold_left (fun before x => insert (compare_keys key) x before) l acc) (l ++ acc).
Proof.
  revert acc. induction l as [|x l IH]; intros acc; simpl; [reflexivity|].
  rewrite IH, insert_perm. symmetry. apply Permutation_middle.
Qed.

(** The sorted array holds the elements of the array, each as many
    times. *)
Lemma sort_perm (l : list A) : Permutation (sort (compare_keys key) l) l.
Proof.
  unfold sort. rewrite <- Permutation_rev, fold_insert_perm.
  now rewrite app_nil_r.
Qed.

Lemma sort_length (l : list A) : List.length (sort (compare_keys key) l) = List.length l.
Proof. apply Permutation_length, sort_perm. Qed.

(** An element moves left only past elements of another key. *)
Lemma filter_insert (k : option Z) (x : A) (before : list A) :
  filter (keyed key k) (insert (compare_keys key) x before)
  = filter (keyed key k) (x :: before).
Proof.
  induction before as [|y more IH]; [reflexivity|].
  cbn [insert]. destruct (precedes (compare_keys key) x y) eqn:E; [|reflexivity].
  apply precedes_lt in E as (a & b & Ha & Hb & Hlt).
  cbn [filter] in IH |- *. rewrite IH.
  unfold keyed. rewrite Ha, Hb.
  destruct k as [k|]; [|reflexivity].
  destruct (Z.eqb_spec a k), (Z.eqb_spec b k); try reflexivity. lia.
Qed.

Lemma filter_fold_insert (k : option Z) (l acc : list A) :
  filter (keyed key k) (fold_left (fun before x => insert (compare_keys key) x before) l acc)
  = filter (keyed key k) (List.rev l ++ acc).
Proof.
  revert acc. induction l as [|x l IH]; intros acc; [reflexivity|].
  cbn [fold_left List.rev]. rewrite IH, <- app_assoc.
  change ([x] ++ acc)%list with (x :: acc).
  rewrite !filter_app. f_equal. apply filter_insert.
Qed.

(** The sort is stable: the elements of one key stand in the order
    they had. *)
Lemma sort_stable (k : option Z) (l : list A) :
  filter (keyed key k) (sort (compare_keys key) l) = filter (keyed key k) l.
Proof.
  unfold sort. rewrite filter_rev, filter_fold_insert, app_nil_r.
  now rewrite filter_rev, rev_involutive.
Qed.

Lemma key_le_trans (a b c : A) :
  has_key key b -> key_le key a b -> key_le key b c -> key_le key a c.
Proof.
  unfold has_key, key_le.
  destruct (key a), (key b), (key c); try easy. lia.
Qed.

Lemma insert_descending (x : A) (before : list A) :
  has_key key x -> Forall (has_key key) before ->
  descending key before -> descending key (insert (compare_keys key) x before).
Proof.
  intros Hx. induction before as [|y more IH]; intros Hall Hs.
  - repeat constructor.
  - inversion Hall as [|? ? Hy Hmore]; subst.
    apply StronglySorted_inv in Hs as [Hs Hy_top].
    cbn [insert]. destruct (precedes (compare_keys key) x y) eqn:E.
    + constructor; [now apply IH|].
      rewrite insert_perm.
      constructor; [|exact Hy_top].
      apply precedes_lt in E as (a & b & Ha & Hb & Hlt).
      unfold key_le. rewrite Ha, Hb. lia.
    + assert (Hyx : key_le key y x).
      { unfold key_le, has_key in *. unfold precedes, compare_keys in E.
        destruct (key x) as [a|], (key y) as [b|]; try easy.
        apply Z.ltb_ge in E. lia. }
      constructor; [now constructor|].
      constructor; [exact Hyx|].
      revert Hy_top. apply Forall_impl. intros z Hz.
      now apply key_le_trans with (b := y).
Qed.

Lemma fold_insert_descending (l acc : list A) :
  Forall (has_key key) l -> Forall (has_key key) acc ->
  descending key acc -> descending key (fold_left (fun before x => insert (compare_keys key) x before) l acc).
Proof.
  revert acc. induction l as [|x l IH]; intros acc Hl Hacc Hs; [exact Hs|].
  inversion Hl; subst. cbn [fold_left]. apply IH; [assumption| |].
  - rewrite insert_perm. now constructor.
  - now apply insert_descending.
Qed.

Lemma StronglySorted_snoc (R : A -> A -> Prop) (l : list A) (x : A) :
  StronglySorted R l -> Forall (fun y => R y x) l ->
  StronglySorted R (l ++ [x]).
Proof.
  induction l as [|y l IH]; intros Hs Hall; simpl.
  - repeat constructor.
  - apply StronglySorted_inv in Hs as [Hs Hy].
    inversion Hall; subst.
    constructor; [now apply IH|].
    apply Forall_app. split; [exact Hy|now repeat constructor].
Qed.

Lemma descending_rev (l : list A) :
  descending key l -> StronglySorted (key_le key) (List.rev l).
Proof.
  induction l as [|y l IH]; intros Hs; simpl; [constructor|].
  apply StronglySorted_inv in Hs as [Hs Hy].
  apply StronglySorted_snoc; [now apply IH|].
  now apply Forall_rev.
Qed.

Lemma keyed_same (k : option Z) (x : A) :
  keyed key k x = true <-> key x = k.
Proof.
  unfold keyed. destruct (key x) as [a|], k as [b|]; split;
    try discriminate; try reflexivity.
  - intros H. apply Z.eqb_eq in H. now subst.
  - intros [= ->]. apply Z.eqb_refl.
Qed.

(** Key order and stability leave one array only: two arrays in key
    order with the same elements of every key, in the same order, are
    equal.  So every stable sort returns what [sort] returns. *)
Lemma stable_sorted_unique (l1 l2 : list A) :
  Forall (has_key key) l1 -> Forall (has_key key) l2 ->
  StronglySorted (key_le key) l1 -> StronglySorted (key_le key) l2 ->
  (forall k, filter (keyed key k) l1 = filter (keyed key k) l2) ->
  l1 = l2.
Proof.
  revert l2. induction l1 as [|x l1 IH]; intros l2 H1 H2 S1 S2 Hsame.
  - destruct l2 as [|y l2]; [reflexivity|].
    specialize (Hsame (key y)). simpl in Hsame.
    now rewrite (proj2 (keyed_same (key y) y) eq_refl) in Hsame.
  - destruct l2 as [|y l2].
    + specialize (Hsame (key x)). simpl in Hsame.
      now rewrite (proj2 (keyed_same (key x) x) eq_refl) in Hsame.
    + inversion H1 as [|? ? Hx H1']; inversion H2 as [|? ? Hy H2']; subst.
      apply StronglySorted_inv in S1 as [S1 Hx_min].
      apply StronglySorted_inv in S2 as [S2 Hy_min].
      rewrite Forall_forall in Hx_min, Hy_min.
      assert (Hxy : key x = key y).
      { (* each head occurs in the other array, behind or at its head *)
        assert (Hin_x : In x (y :: l2)).
        { pose proof (Hsame (key x)) as E. simpl in E.
          rewrite (proj2 (keyed_same (key x) x) eq_refl) in E.
          assert (In x (filter (keyed key (key x)) (y :: l2)))
            by (simpl; rewrite <- E; now left).
          now apply filter_In in H as [H _]. }
        assert (Hin_y : In y (x :: l1)).
        { pose proof (Hsame (key y)) as E. simpl in E.
          rewrite (proj2 (keyed_same (key y) y) eq_refl) in E.
          assert (In y (filter (keyed key (key y)) (x :: l1)))
            by (simpl; rewrite E; now left).
          now apply filter_In in H as [H _]. }
        unfold has_key in Hx, Hy.
        destruct Hin_x as [<-|Hin_x]; [reflexivity|].
        destruct Hin_y as [<-|Hin_y]; [reflexivity|].
        specialize (Hx_min _ Hin_y). specialize (Hy_min _ Hin_x).
        unfold key_le in Hx_min, Hy_min.
        destruct (key x), (key y); try easy. f_equal. lia. }
      assert (x = y).
      { pose proof (Hsame (key x)) as E. simpl in E.
        rewrite (proj2 (keyed_same (key x) x) eq_refl) in E.
        rewrite Hxy in E at 2.
        rewrite (proj2 (keyed_same (key y) y) eq_refl) in E.
        now injection E. }
      subst y. f_equal. apply IH; try assumption.
      intros k. specialize (Hsame k). simpl in Hsame.
      destruct (keyed key k x); [now injection Hsame|exact Hsame].
Qed.

(** When every element has a key the sorted array is in key
    order. *)
Lemma sort_sorted (l : list A) :
  Forall (has_key key) l -> StronglySorted (key_le key) (sort (compare_keys key) l).
Proof.
  intros Hl. unfold sort. apply descending_rev.
  apply fold_insert_descending; [exact Hl|constructor|constructor].
Qed.

(** Every array that is the elements of [l] in key order, with the
    elements of one key in the order of [l], is the array [sort]
    returns. *)
Lemma sort_determined (l out : list A) :
  Forall (has_key key) l ->
  Permutation out l ->
  StronglySorted (key_le key) out ->
  (forall k, filter (keyed key k) out = filter (keyed key k) l) ->
  out = sort (compare_keys key) l.
Proof.
  intros Hl Hperm Hsorted Hstable.
  apply stable_sorted_unique; try assumption.
  - now rewrite Hperm.
  - now rewrite sort_perm.
  - now apply sort_sorted.
  - intros k. now rewrite sort_stable.
Qed.

End ByKey.
End JsArrayFacts.

(* ================================================================== *)
(** * App.tsx: the run of [handleAnalyze] *)
(* ================================================================== *)

Module AppFacts.
Import JsArray JsArrayFacts App.

Lemma length_set_nth {A : Type} (i : nat) (x : A) (l : list A) :
  List.length (set_nth i x l) = List.length l.
Proof.
  revert i. induction l as [|y l IH]; intros [|i]; simpl; auto.
Qed.

Lemma nth_error_set_nth {A : Type} (i j : nat) (x t : A) (l : list A) :
  nth_error (set_nth i x l) j = Some t ->
  (j = i /\ t = x) \/ (j <> i /\ nth_error l j = Some t).
Proof.
  revert i j. induction l as [|y l IH]; intros [|i] [|j]; simpl;
    try discriminate; intros H.
  - left. split; congruence.
  - right. split; [lia|exact H].
  - right. split; [lia|exact H].
  - destruct (IH _ _ H) as [[-> ->]|[Hne Hj]]; [now left|right].
    split; [lia|exact Hj].
Qed.

Lemma nth_error_set_nth_same {A : Type} (i : nat) (x y : A) (l : list A) :
  nth_error l i = Some y -> nth_error (set_nth i x l) i = Some x.
Proof.
  revert i. induction l as [|z l IH]; intros [|i]; simpl;
    try discriminate; auto.
Qed.

Lemma nth_error_set_nth_other {A : Type} (i j : nat) (x : A) (l : list A) :
  j <> i -> nth_error (set_nth i x l) j = nth_error l j.
Proof.
  revert i j. induction l as [|z l IH]; intros [|i] [|j] Hne; simpl;
    try reflexivity; try easy.
  apply IH. lia.
Qed.

Lemma results_resolved (ts : list Task) (rs : list (list Transaction))
  (i : nat) (t : Task) :
  results ts = Some rs -> nth_error ts i = Some t -> exists r, t = Resolved r.
Proof.
  revert rs i. induction ts as [|u ts IH]; intros rs [|i]; simpl;
    try discriminate.
  - destruct u; try discriminate. intros _ [= <-]. now eexists.
  - destruct u; try discriminate.
    destruct (results ts) as [rs'|]; [|discriminate].
    intros _ Hi. now apply (IH rs' i).
Qed.

Lemma results_none (ts : list Task) (i : nat) (t : Task) :
  nth_error ts i = Some t -> (forall r, t <> Resolved r) -> results ts = None.
Proof.
  intros Hi Ht. destruct (results ts) as [rs|] eqn:E; [|reflexivity].
  destruct (results_resolved _ _ _ _ E Hi) as [r ->]. now elim (Ht r).
Qed.

(** The value [Promise.all] fulfils with is what the files yield, in
    file order. *)
Lemma results_extracted (io : nat -> FileIO) (ts : list Task)
  (rs : list (list Transaction)) (k : nat) :
  (forall i t, nth_error ts i = Some t -> task_ok (io (k + i)) t) ->
  results ts = Some rs ->
  rs = map (extracted io) (seq k (List.length ts)).
Proof.
  revert rs k. induction ts as [|u ts IH]; intros rs k Hok; simpl.
  - now intros [= <-].
  - destruct u; try discriminate.
    destruct (results ts) as [rs'|] eqn:E; [|discriminate].
    intros [= <-]. f_equal.
    + specialize (Hok 0 _ eq_refl). simpl in Hok. destruct Hok as [_ Hx].
      unfold extracted. rewrite Nat.add_0_r in Hx. now rewrite Hx.
    + apply IH; [|reflexivity]. intros i t Hi.
      replace (S k + i) with (k + S i) by lia. now apply Hok.
Qed.

(** A lookup in a task list updated at [i]: the index is [i] and the
    task the new one, or the index is another one. *)
Ltac updated H := apply nth_error_set_nth in H as [[-> ->]|[_ H]].

Section WithEngine.
Context {engine : Engine}.
Variable io : nat -> FileIO.
Variable fs : list File.

Lemma start_invariant (st : State) :
  files st = fs -> fs <> [] -> invariant io fs (start st).
Proof.
  intros Hfs Hne. subst fs. constructor; simpl.
  - reflexivity.
  - apply length_map.
  - intros i t Hi. rewrite nth_error_map in Hi.
    destruct (nth_error (files st) i); [|discriminate].
    injection Hi as <-. exact I.
  - intros _. repeat split.
    + intros i err Hi. rewrite nth_error_map in Hi.
      destruct (nth_error (files st) i); discriminate.
    + destruct (files st); [easy|reflexivity].
  - discriminate.
Qed.

(** While task [i] has not settled, a settled [Promise.all] is a
    rejected one, and the task that rejected it is another one. *)
Lemma settled_while_running (r : Run) (i : nat) (t : Task) :
  invariant io fs r ->
  nth_error (tasks r) i = Some t -> is_settled t = false ->
  joined r = true ->
  (exists j err, j <> i /\ nth_error (tasks r) j = Some (Failed err))
  /\ status (app r) = ERROR /\ transactions (app r) = [].
Proof.
  intros Hinv Hi Ht Hj.
  destruct (inv_settled _ _ _ Hinv Hj)
    as [((j & err & Hf) & Hs & Htx)|(rs & Hrs & _)].
  - repeat split; try assumption. exists j, err. split; [|exact Hf].
    intros ->. rewrite Hi in Hf. injection Hf as ->. discriminate Ht.
  - destruct (results_resolved _ _ _ _ Hrs Hi) as [res ->]. discriminate Ht.
Qed.

Lemma reject_invariant (r : Run) (i : nat) (t : Task) (err : Thrown) :
  invariant io fs r ->
  nth_error (tasks r) i = Some t -> is_settled t = false ->
  task_ok (io i) (Failed err) ->
  invariant io fs (reject i err r).
Proof.
  intros Hinv Hi Ht Hok. constructor; simpl.
  - destruct (joined r); [|simpl]; apply (inv_files _ _ _ Hinv).
  - rewrite length_set_nth. apply (inv_length _ _ _ Hinv).
  - intros j u Hj. updated Hj;
      [exact Hok|now apply (inv_tasks _ _ _ Hinv)].
  - discriminate.
  - intros _. left. split.
    + exists i, err. now apply nth_error_set_nth_same with (y := t).
    + destruct (joined r) eqn:Hj.
      * now destruct (settled_while_running r i t Hinv Hi Ht Hj) as (_ & ? & ?).
      * destruct (inv_pending _ _ _ Hinv Hj) as (_ & Htx & _).
        simpl. now split.
Qed.

Lemma advance_invariant (r : Run) (i : nat) (cs : list Call) :
  invariant io fs r ->
  nth_error (tasks r) i = Some Reading ->
  reader (io i) <> None ->
  invariant io fs
    {| app := app r; tasks := set_nth i Extracting (tasks r);
       joined := joined r; calls := cs |}.
Proof.
  intros Hinv Hi Hr. constructor; simpl.
  - apply (inv_files _ _ _ Hinv).
  - rewrite length_set_nth. apply (inv_length _ _ _ Hinv).
  - intros j u Hj. updated Hj;
      [exact Hr|now apply (inv_tasks _ _ _ Hinv)].
  - intros Hj. destruct (inv_pending _ _ _ Hinv Hj) as (Hs & Htx & Hnf & _).
    repeat split; try assumption.
    + intros j err Hf. apply nth_error_set_nth in Hf as [[_ [=]]|[_ Hf]].
      now apply (Hnf j err).
    + apply results_none with (i := i) (t := Extracting); [|discriminate].
      now apply nth_error_set_nth_same with (y := Reading).
  - intros Hj. left.
    destruct (settled_while_running r i Reading Hinv Hi eq_refl Hj)
      as ((j & err & Hne & Hf) & Hs & Htx).
    repeat split; try assumption. exists j, err.
    now rewrite nth_error_set_nth_other.
Qed.

Lemma resolve_invariant (r : Run) (i : nat) (result : list Transaction) :
  invariant io fs r ->
  nth_error (tasks r) i = Some Extracting ->
  task_ok (io i) (Resolved result) ->
  invariant io fs (resolve i result r).
Proof.
  intros Hinv Hi Hok.
  assert (Htasks : forall j u,
             nth_error (set_nth i (Resolved result) (tasks r)) j = Some u ->
             task_ok (io j) u).
  { intros j u Hj. updated Hj;
      [exact Hok|now apply (inv_tasks _ _ _ Hinv)]. }
  assert (Hrejected : joined r = true ->
            exists j err,
              nth_error (set_nth i (Resolved result) (tasks r)) j
              = Some (Failed err)).
  { intros Hj.
    destruct (settled_while_running r i Extracting Hinv Hi eq_refl Hj)
      as ((j & err & Hne & Hf) & _).
    exists j, err. now rewrite nth_error_set_nth_other. }
  unfold resolve.
  destruct (results (set_nth i (Resolved result) (tasks r))) as [rs|] eqn:Ers;
    [destruct (joined r) eqn:Hj|];
    constructor; simpl; try discriminate;
    try apply (inv_files _ _ _ Hinv); try exact Htasks;
    try (rewrite length_set_nth; apply (inv_length _ _ _ Hinv)).
  - (* the promise had been rejected: not every task can be resolved *)
    intros _. destruct (Hrejected eq_refl) as (j & err & Hf).
    now destruct (results_resolved _ _ _ _ Ers Hf).
  - (* the last task resolves: the promise is fulfilled *)
    intros _. right. exists rs. now repeat split.
  - intros Hj. destruct (inv_pending _ _ _ Hinv Hj) as (Hs & Htx & Hnf & _).
    repeat split; try assumption.
    intros j err Hf. apply nth_error_set_nth in Hf as [[_ [=]]|[_ Hf]].
    now apply (Hnf j err).
  - intros Hj. left. split; [now apply Hrejected|].
    now destruct (settled_while_running r i Extracting Hinv Hi eq_refl Hj)
      as (_ & ? & ?).
Qed.

Lemma step_invariant (r : Run) (i : nat) :
  invariant io fs r -> invariant io fs (step io r i).
Proof.
  intros Hinv. unfold step.
  destruct (nth_error (tasks r) i) as [t|] eqn:Hi; [|exact Hinv].
  destruct (nth_error (files (app r)) i) as [file|];
    [|destruct t; exact Hinv].
  destruct t; try exact Hinv.
  - unfold convertFileToBase64. destruct (reader (io i)) as [url|] eqn:Hr.
    + apply advance_invariant; [exact Hinv|exact Hi|]. now rewrite Hr.
    + apply reject_invariant with (t := Reading); try easy. now left.
  - pose proof (inv_tasks _ _ _ Hinv _ _ Hi) as Hread. simpl in Hread.
    destruct (extraction (io i)) as [result|err] eqn:He.
    + apply resolve_invariant; try easy.
    + apply reject_invariant with (t := Extracting); try easy. now right.
Qed.

Lemma run_invariant (schedule : list nat) (r : Run) :
  invariant io fs r -> invariant io fs (fold_left (step io) schedule r).
Proof.
  revert r. induction schedule as [|i schedule IH]; intros r Hinv;
    [exact Hinv|].
  simpl. apply IH. now apply step_invariant.
Qed.

Lemma handleAnalyze_invariant (schedule : list nat) (st : State) :
  files st = fs -> fs <> [] ->
  invariant io fs (handleAnalyze io schedule st).
Proof.
  intros Hfs Hne. unfold handleAnalyze.
  destruct (files st) eqn:E; [congruence|]. rewrite <- E in Hfs.
  apply run_invariant. now apply start_invariant.
Qed.

End WithEngine.
(** ** The progress counter *)

Lemma resolved_count_set_nth (i : nat) (t new : Task) (ts : list Task) :
  nth_error ts i = Some t ->
  resolved_count (set_nth i new ts) + (if is_resolved t then 1 else 0)
  = resolved_count ts + (if is_resolved new then 1 else 0).
Proof.
  unfold resolved_count. revert i.
  induction ts as [|u ts IH]; intros [|i]; simpl; try discriminate.
  - intros [= ->]. destruct (is_resolved t), (is_resolved new); simpl; lia.
  - intros Hi. specialize (IH i Hi). destruct (is_resolved u); simpl; lia.
Qed.

Lemma resolved_count_all (ts : list Task) (rs : list (list Transaction)) :
  results ts = Some rs -> resolved_count ts = List.length ts.
Proof.
  unfold resolved_count. revert rs.
  induction ts as [|u ts IH]; intros rs; simpl; [reflexivity|].
  destruct u; try discriminate.
  destruct (results ts) as [rs'|]; [|discriminate].
  intros _. simpl. f_equal. now apply (IH rs').
Qed.

Lemma resolved_count_start (fs : list File) :
  resolved_count (map (fun _ => Reading) fs) = 0.
Proof. unfold resolved_count. induction fs; simpl; auto. Qed.

Section Counter.
Context {engine : Engine}.
Variable io : nat -> FileIO.

(** The counter shows the number of files extracted. *)
Lemma step_counter (r : Run) (i : nat) :
  processedCount (app r) = resolved_count (tasks r) ->
  processedCount (app (step io r i)) = resolved_count (tasks (step io r i)).
Proof.
  intros Hc. unfold step.
  destruct (nth_error (tasks r) i) as [t|] eqn:Hi; [|exact Hc].
  destruct (nth_error (files (app r)) i); [|now destruct t].
  destruct t; try exact Hc.
  - pose proof (resolved_count_set_nth i Reading) as Hset.
    unfold convertFileToBase64. destruct (reader (io i)); simpl.
    + specialize (Hset Extracting _ Hi). simpl in Hset. lia.
    + specialize (Hset (Failed ProgressEvent) _ Hi). simpl in Hset.
      destruct (joined r); simpl; lia.
  - pose proof (resolved_count_set_nth i Extracting) as Hset.
    destruct (extraction (io i)) as [result|err].
    + specialize (Hset (Resolved result) _ Hi). simpl in Hset.
      unfold resolve. destruct (results _), (joined r); simpl; lia.
    + specialize (Hset (Failed err) _ Hi). simpl in Hset.
      unfold reject. destruct (joined r); simpl; lia.
Qed.

Lemma run_counter (schedule : list nat) (r : Run) :
  processedCount (app r) = resolved_count (tasks r) ->
  processedCount (app (fold_left (step io) schedule r))
  = resolved_count (tasks (fold_left (step io) schedule r)).
Proof.
  revert r. induction schedule as [|i schedule IH]; intros r Hc; [exact Hc|].
  simpl. apply IH. now apply step_counter.
Qed.

(** A run that ends in [SUCCESS] has counted every file. *)
Lemma success_counter (schedule : list nat) (st : State) :
  files st <> [] ->
  status (app (handleAnalyze io schedule st)) = SUCCESS ->
  processedCount (app (handleAnalyze io schedule st))
  = List.length (files st).
Proof.
  intros Hne Hs.
  pose proof (handleAnalyze_invariant io (files st) schedule st eq_refl Hne)
    as Hinv.
  assert (Hc : processedCount (app (handleAnalyze io schedule st))
               = resolved_count (tasks (handleAnalyze io schedule st))).
  { unfold handleAnalyze. destruct (files st) eqn:E; [easy|].
    apply run_counter. simpl. now rewrite resolved_count_start. }
  rewrite Hc, <- (inv_length _ _ _ Hinv).
  destruct (joined (handleAnalyze io schedule st)) eqn:Hj.
  - destruct (inv_settled _ _ _ Hinv Hj)
      as [(_ & He & _)|(rs & Hrs & _)]; [congruence|].
    now apply resolved_count_all with (rs := rs).
  - destruct (inv_pending _ _ _ Hinv Hj) as (Hp & _). congruence.
Qed.

End Counter.

(** ** Every run comes to its end *)

Section Progress.
Context {engine : Engine}.
Variable io : nat -> FileIO.
Variable fs : list File.

Lemma rank_settled (t : Task) : 2 <= rank t -> is_settled t = true.
Proof. destruct t; simpl; try lia; reflexivity. Qed.

(** A step moves its own task on, unless that task has settled. *)
Lemma step_own_task (r : Run) (i : nat) (t : Task) :
  invariant io fs r ->
  nth_error (tasks r) i = Some t ->
  exists t', nth_error (tasks (step io r i)) i = Some t'
             /\ Nat.min 2 (S (rank t)) <= rank t'.
Proof.
  intros Hinv Hi. unfold step. rewrite Hi.
  destruct (nth_error (files (app r)) i) as [file|] eqn:Hfile.
  2:{ apply nth_error_None in Hfile.
      assert (i < List.length (tasks r))
        by (apply nth_error_Some; congruence).
      rewrite (inv_files _ _ _ Hinv) in Hfile.
      rewrite (inv_length _ _ _ Hinv) in H. lia. }
  destruct t.
  - unfold convertFileToBase64. destruct (reader (io i)); simpl;
      eexists; (split; [now apply nth_error_set_nth_same with (y := Reading)|]);
      simpl; lia.
  - destruct (extraction (io i)); [unfold resolve|unfold reject].
    + destruct (results _), (joined r); simpl; eexists;
        (split; [now apply nth_error_set_nth_same with (y := Extracting)|]);
        simpl; lia.
    + simpl. eexists.
      split; [now apply nth_error_set_nth_same with (y := Extracting)|].
      simpl; lia.
  - exists (Resolved result). now split.
  - exists (Failed reason). now split.
Qed.

(** It leaves the other tasks as they are. *)
Lemma step_other_task (r : Run) (i j : nat) :
  j <> i -> nth_error (tasks (step io r i)) j = nth_error (tasks r) j.
Proof.
  intros Hne. unfold step.
  destruct (nth_error (tasks r) i) as [t|]; [|reflexivity].
  destruct (nth_error (files (app r)) i); [|now destruct t].
  destruct t; try reflexivity.
  - unfold convertFileToBase64. destruct (reader (io i)); simpl;
      now apply nth_error_set_nth_other.
  - destruct (extraction (io i)); [unfold resolve|unfold reject].
    + destruct (results _), (joined r); simpl;
        now apply nth_error_set_nth_other.
    + simpl. now apply nth_error_set_nth_other.
Qed.

Lemma run_rank (schedule : list nat) (r : Run) (j : nat) (t : Task) :
  invariant io fs r ->
  nth_error (tasks r) j = Some t ->
  exists t', nth_error (tasks (fold_left (step io) schedule r)) j = Some t'
             /\ Nat.min 2 (rank t + count_occ Nat.eq_dec schedule j) <= rank t'.
Proof.
  revert r t. induction schedule as [|i schedule IH]; intros r t Hinv Hj.
  - exists t. split; [exact Hj|]. cbn [count_occ]. lia.
  - cbn [fold_left count_occ].
    pose proof (step_invariant io fs r i Hinv) as Hinv'.
    destruct (Nat.eq_dec i j) as [->|Hne].
    + destruct (step_own_task r j t Hinv Hj) as (u & Hu & Hrank).
      destruct (IH _ u Hinv' Hu) as (t' & Ht' & Hrank').
      exists t'. split; [exact Ht'|]. lia.
    + rewrite <- (step_other_task r i j) in Hj by congruence.
      destruct (IH _ t Hinv' Hj) as (t' & Ht' & Hrank').
      exists t'. split; [exact Ht'|]. lia.
Qed.

(** Under a fair schedule every task settles. *)
Lemma fair_run_completes (schedule : list nat) (st : State) :
  files st = fs -> fs <> [] ->
  fair (List.length fs) schedule ->
  completed (handleAnalyze io schedule st) = true.
Proof.
  intros Hfs Hne Hfair. unfold completed, handleAnalyze.
  destruct (files st) as [|f rest] eqn:E; [congruence|]. rewrite <- E in *.
  apply forallb_forall. intros t Hin.
  apply In_nth_error in Hin as [j Hj].
  pose proof (start_invariant io fs st Hfs Hne) as Hinv.
  assert (Hlt : j < List.length fs).
  { rewrite <- (inv_length _ _ _ (run_invariant io fs schedule _ Hinv)).
    apply nth_error_Some. congruence. }
  assert (Hstart : nth_error (tasks (start st)) j = Some Reading).
  { simpl. rewrite nth_error_map.
    destruct (nth_error (files st) j) eqn:Ej; [reflexivity|].
    apply nth_error_None in Ej. rewrite Hfs in Ej. lia. }
  destruct (run_rank schedule _ j Reading Hinv Hstart) as (t' & Ht' & Hrank).
  rewrite Hj in Ht'. injection Ht' as <-.
  apply rank_settled. specialize (Hfair j Hlt). cbn [rank] in Hrank. lia.
Qed.

Lemma round_robin_fair (n : nat) : fair n (round_robin n).
Proof.
  intros j Hj. unfold round_robin. rewrite count_occ_app.
  assert (0 < count_occ Nat.eq_dec (seq 0 n) j)
    by (apply count_occ_In, in_seq; lia).
  lia.
Qed.

End Progress.

End AppFacts.

(* ================================================================== *)
(** * App.tsx: what a run of [handleAnalyze] leaves in the state *)
(* ================================================================== *)

Module Pipeline.
Import JsArray JsArrayFacts App AppFacts.

Section WithEngine.
Context {engine : Engine}.
Variable io : nat -> FileIO.

Lemma compareDates_by_key : compareDates = compare_keys getTime.
Proof. reflexivity. Qed.

(** A run that ends in [SUCCESS] has stored the sorted concatenation
    of what the files yield. *)
Lemma success_transactions (schedule : list nat) (st : State) :
  files st <> [] ->
  status (app (handleAnalyze io schedule st)) = SUCCESS ->
  transactions (app (handleAnalyze io schedule st))
  = sort compareDates
      (List.concat (map (extracted io) (seq 0 (List.length (files st))))).
Proof.
  intros Hne Hs.
  pose proof (handleAnalyze_invariant io (files st) schedule st eq_refl Hne)
    as Hinv.
  destruct (joined (handleAnalyze io schedule st)) eqn:Hj.
  - destruct (inv_settled _ _ _ Hinv Hj)
      as [(_ & He & _)|(rs & Hrs & _ & Htx)]; [congruence|].
    rewrite Htx. do 2 f_equal.
    rewrite <- (inv_length _ _ _ Hinv).
    apply results_extracted; [|exact Hrs].
    intros i t. apply (inv_tasks _ _ _ Hinv).
  - destruct (inv_pending _ _ _ Hinv Hj) as (Hp & _). congruence.
Qed.

(** No task of a failing file is ever resolved. *)
Lemma failing_not_resolved (r : Run) (fs : list File) (i : nat)
  (result : list Transaction) :
  invariant io fs r -> fails io i ->
  nth_error (tasks r) i <> Some (Resolved result).
Proof.
  intros Hinv Hfail Hi.
  destruct (inv_tasks _ _ _ Hinv _ _ Hi) as [Hr He].
  destruct Hfail as [Hnone|[err Herr]]; congruence.
Qed.

(** Once the task of a failing file has had its two turns, the run has
    been rejected. *)
Lemma failing_task_rejects (schedule : list nat) (st : State) (i : nat) :
  i < List.length (files st) ->
  fails io i ->
  2 <= count_occ Nat.eq_dec schedule i ->
  status (app (handleAnalyze io schedule st)) = ERROR.
Proof.
  intros Hi Hfail Hturns.
  assert (Hne : files st <> [])
    by (destruct (files st); simpl in Hi; [lia|easy]).
  pose proof (handleAnalyze_invariant io (files st) schedule st eq_refl Hne)
    as Hinv.
  assert (Hsettled : exists t,
             nth_error (tasks (handleAnalyze io schedule st)) i = Some t
             /\ is_settled t = true).
  { unfold handleAnalyze in *. destruct (files st) as [|f rest] eqn:E;
      [easy|]. rewrite <- E in *.
    assert (Hstart : nth_error (tasks (start st)) i = Some Reading).
    { simpl. rewrite nth_error_map.
      destruct (nth_error (files st) i) eqn:Ei; [reflexivity|].
      apply nth_error_None in Ei. lia. }
    destruct (run_rank io (files st) schedule _ i Reading
                (start_invariant io (files st) st eq_refl Hne) Hstart)
      as (t & Ht & Hrank).
    exists t. split; [exact Ht|]. apply rank_settled.
    cbn [rank] in Hrank. lia. }
  destruct Hsettled as (t & Ht & Hset).
  destruct t as [| |result|err]; try discriminate Hset.
  - now elim (failing_not_resolved _ (files st) i result Hinv Hfail).
  - destruct (joined (handleAnalyze io schedule st)) eqn:Hj.
    + destruct (inv_settled _ _ _ Hinv Hj) as [(_ & He & _)|(rs & Hrs & _)];
        [exact He|].
      destruct (results_resolved _ _ _ _ Hrs Ht) as [res Hres].
      discriminate Hres.
    + destruct (inv_pending _ _ _ Hinv Hj) as (_ & _ & Hnf & _).
      now elim (Hnf i err).
Qed.

(** When every file is read and extracted, a fair run ends in
    [SUCCESS]. *)
Lemma fair_run_succeeds (schedule : list nat) (st : State) :
  files st <> [] ->
  fair (List.length (files st)) schedule ->
  (forall i, i < List.length (files st) -> ~ fails io i) ->
  status (app (handleAnalyze io schedule st)) = SUCCESS.
Proof.
  intros Hne Hfair Hok.
  pose proof (handleAnalyze_invariant io (files st) schedule st eq_refl Hne)
    as Hinv.
  pose proof (fair_run_completes io (files st) schedule st eq_refl Hne Hfair)
    as Hdone.
  unfold completed in Hdone. rewrite forallb_forall in Hdone.
  assert (Hnf : forall j err,
             nth_error (tasks (handleAnalyze io schedule st)) j
             <> Some (Failed err)).
  { intros j err Hj.
    assert (Hlt : j < List.length (files st)).
    { rewrite <- (inv_length _ _ _ Hinv). apply nth_error_Some. congruence. }
    apply (Hok j Hlt). destruct (inv_tasks _ _ _ Hinv _ _ Hj) as [H|H].
    - now left.
    - right. now exists err. }
  destruct (joined (handleAnalyze io schedule st)) eqn:Hj.
  - destruct (inv_settled _ _ _ Hinv Hj)
      as [((j & err & Hf) & _)|(rs & _ & Hs & _)]; [|exact Hs].
    now elim (Hnf j err).
  - destruct (inv_pending _ _ _ Hinv Hj) as (_ & _ & _ & Hnone).
    destruct (tasks (handleAnalyze io schedule st)) as [|t ts] eqn:Et.
    + pose proof (inv_length _ _ _ Hinv) as Hl. rewrite Et in Hl.
      destruct (files st); [easy|discriminate].
    + exfalso. clear Hinv Hj.
      assert (Hall : forall u, In u (t :: ts) -> exists res, u = Resolved res).
      { intros u Hu. specialize (Hdone u Hu).
        apply In_nth_error in Hu as [j Hu].
        destruct u; try discriminate; [now eexists|].
        now elim (Hnf j reason). }
      clear Hdone Hnf. revert Hnone Hall. generalize (t :: ts).
      induction l as [|u l IH]; [discriminate|].
      intros Hnone Hall. destruct (Hall u (or_introl eq_refl)) as [res ->].
      simpl in Hnone. destruct (results l) eqn:El; [discriminate|].
      apply IH; [reflexivity|]. intros v Hv. apply Hall. now right.
Qed.

End WithEngine.

(** C1, as the code has it: after every run that ends in [SUCCESS] the
    transactions are those the files yield, so their number is the sum of
    the counts of the files; when every date has a time value the
    sequence is in non-decreasing order of the time values of the dates,
    and the transactions of one date stand in the order they had in the
    concatenation of the files' sequences. *)
Theorem handleAnalyze_success {engine : Engine} (io : nat -> FileIO)
  (schedule : list nat) (st : State) :
  files st <> [] ->
  status (app (handleAnalyze io schedule st)) = SUCCESS ->
  let out := transactions (app (handleAnalyze io schedule st)) in
  let per_file := map (extracted io) (seq 0 (List.length (files st))) in
  List.length out = list_sum (map (@List.length Transaction) per_file)
  /\ Permutation out (List.concat per_file)
  /\ (Forall has_date (List.concat per_file) ->
      StronglySorted date_le out
      /\ forall k, with_time k out = with_time k (List.concat per_file)).
Proof.
  intros Hne Hs out per_file. subst out per_file.
  rewrite (success_transactions io schedule st Hne Hs), compareDates_by_key.
  repeat split.
  - now rewrite sort_length, length_concat.
  - apply sort_perm.
  - now apply sort_sorted.
  - intros k. apply sort_stable.
Qed.

(** The two files of the specification's scenario: the salary of file B
    comes before the coffee of file A. *)
Lemma handleAnalyze_success_witness :
  let run :=
    handleAnalyze Scenario.io_two_files (round_robin 2) Scenario.two_files in
  let per_file := [[Scenario.coffee]; [Scenario.salary]] in
  transactions (app run) = [Scenario.salary; Scenario.coffee]
  /\ List.length (transactions (app run)) = 2
  /\ Permutation (transactions (app run)) (List.concat per_file)
  /\ StronglySorted date_le (transactions (app run))
  /\ forall k, with_time k (transactions (app run))
               = with_time k (List.concat per_file).
Proof.
  split; [reflexivity|].
  destruct (handleAnalyze_success Scenario.io_two_files (round_robin 2)
              Scenario.two_files) as (Hlen & Hperm & Hsorted).
  - discriminate.
  - reflexivity.
  - destruct Hsorted as [Hsorted Hstable];
      [repeat constructor; discriminate|].
    split; [exact Hlen|]. split; [exact Hperm|]. split; assumption.
Defined.

(** C1 as stated fails: a run whose files yield records with dates that
    have no time value ends in [SUCCESS] with the coffee of March before
    the salary of January. *)
Lemma handleAnalyze_unsorted :
  let run :=
    handleAnalyze Scenario.io_undated (round_robin 2) Scenario.two_files in
  status (app run) = SUCCESS
  /\ transactions (app run)
     = [Scenario.coffee; Scenario.undated "Card fee";
        Scenario.undated "Interest"; Scenario.salary]
  /\ ~ StronglySorted date_le (transactions (app run)).
Proof.
  repeat split. intros H.
  change (StronglySorted date_le
            [Scenario.coffee; Scenario.undated "Card fee";
             Scenario.undated "Interest"; Scenario.salary]) in H.
  apply StronglySorted_inv in H as [_ H].
  rewrite Forall_forall in H.
  assert (Hle : date_le Scenario.coffee Scenario.salary)
    by (apply H; right; right; now left).
  vm_compute in Hle. now apply Hle.
Qed.

(** C2: in a run one of whose files fails to be read or extracted, the
    status is never [SUCCESS] and the transactions stay empty, whatever
    the other files yield and in whatever order the promises settle.
    The status is [ERROR] as soon as the task of the failing file has had
    its two turns (its reading and its extraction have settled); so when
    every task is given its turns the run comes to its end, and it ends
    in [ERROR]. *)
Theorem handleAnalyze_failure {engine : Engine} (io : nat -> FileIO)
  (schedule : list nat) (st : State) (i : nat) :
  i < List.length (files st) ->
  fails io i ->
  let run := handleAnalyze io schedule st in
  status (app run) <> SUCCESS
  /\ transactions (app run) = []
  /\ (completed run = true -> status (app run) = ERROR)
  /\ (2 <= count_occ Nat.eq_dec schedule i -> status (app run) = ERROR)
  /\ (fair (List.length (files st)) schedule ->
      completed run = true /\ status (app run) = ERROR).
Proof.
  intros Hi Hfail run. subst run.
  assert (Hne : files st <> []) by (destruct (files st); simpl in Hi; [lia|easy]).
  pose proof (handleAnalyze_invariant io (files st) schedule st eq_refl Hne)
    as Hinv.
  assert (Hturns : 2 <= count_occ Nat.eq_dec schedule i ->
                   status (app (handleAnalyze io schedule st)) = ERROR)
    by now apply failing_task_rejects.
  assert (Hfair : fair (List.length (files st)) schedule ->
                  completed (handleAnalyze io schedule st) = true
                  /\ status (app (handleAnalyze io schedule st)) = ERROR).
  { intros Hf. split.
    - now apply (fair_run_completes io (files st)).
    - apply Hturns. now apply Hf. }
  set (run := handleAnalyze io schedule st) in *.
  assert (Hrejected :
            joined run = true -> status (app run) = ERROR
                                 /\ transactions (app run) = []).
  { intros Hj. destruct (inv_settled _ _ _ Hinv Hj)
      as [(_ & He & Htx)|(rs & Hrs & _)]; [now split|].
    rewrite <- (inv_length _ _ _ Hinv) in Hi.
    destruct (nth_error (tasks run) i) as [t|] eqn:Et;
      [|apply nth_error_None in Et; lia].
    destruct (results_resolved _ _ _ _ Hrs Et) as [res ->].
    now elim (failing_not_resolved io run (files st) i res). }
  destruct (joined run) eqn:Hj.
  - destruct (Hrejected eq_refl) as [He Htx]. rewrite He.
    repeat split; try easy.
    now apply Hfair.
  - destruct (inv_pending _ _ _ Hinv Hj) as (Hp & Htx & Hnf & _).
    split; [rewrite Hp; discriminate|]. split; [exact Htx|].
    split; [|split; [exact Hturns|exact Hfair]].
    intros Hdone. exfalso.
    rewrite <- (inv_length _ _ _ Hinv) in Hi.
    destruct (nth_error (tasks run) i) as [t|] eqn:Et;
      [|apply nth_error_None in Et; lia].
    unfold completed in Hdone. rewrite forallb_forall in Hdone.
    specialize (Hdone t (nth_error_In _ _ Et)).
    destruct t; try discriminate.
    + now elim (failing_not_resolved io run (files st) i result).
    + now elim (Hnf i reason).
Qed.

(** The first file is extracted, the second gets no response: the
    coffee of the first file is not kept, and the page shows the
    error. *)
Lemma handleAnalyze_failure_witness :
  let run :=
    handleAnalyze Scenario.io_failing (round_robin 2) Scenario.two_files in
  (status (app run) <> SUCCESS
   /\ transactions (app run) = []
   /\ (completed run = true -> status (app run) = ERROR)
   /\ (2 <= count_occ Nat.eq_dec (round_robin 2) 1 ->
       status (app run) = ERROR)
   /\ (fair (List.length (files Scenario.two_files)) (round_robin 2) ->
       completed run = true /\ status (app run) = ERROR))
  /\ 2 <= count_occ Nat.eq_dec (round_robin 2) 1
  /\ fair (List.length (files Scenario.two_files)) (round_robin 2).
Proof.
  split; [|split].
  - apply (handleAnalyze_failure Scenario.io_failing (round_robin 2)
             Scenario.two_files 1).
    + simpl. lia.
    + right. now eexists.
  - simpl. lia.
  - apply round_robin_fair.
Defined.

Example failing_run :
  let run :=
    handleAnalyze Scenario.io_failing (round_robin 2) Scenario.two_files in
  completed run = true
  /\ status (app run) = ERROR
  /\ error (app run) = Some "No response received from Gemini."
  /\ transactions (app run) = []
  /\ processedCount (app run) = 1.
Proof. repeat split. Qed.

(** C10: with no file selected [handleAnalyze] returns at once: the
    state (status, transactions, error, counter) is the one it was
    called in, and no file is read and no extraction is requested. *)
Theorem handleAnalyze_no_files {engine : Engine} (io : nat -> FileIO)
  (schedule : list nat) (st : State) :
  files st = [] ->
  app (handleAnalyze io schedule st) = st
  /\ calls (handleAnalyze io schedule st) = [].
Proof. intros H. unfold handleAnalyze. rewrite H. now split. Qed.

Lemma handleAnalyze_no_files_witness :
  app (handleAnalyze Scenario.io_two_files (round_robin 2) Scenario.no_files)
  = Scenario.no_files
  /\ calls (handleAnalyze Scenario.io_two_files (round_robin 2) Scenario.no_files)
     = [].
Proof.
  apply (handleAnalyze_no_files Scenario.io_two_files (round_robin 2)
           Scenario.no_files).
  reflexivity.
Defined.

(** The scenario of the specification from end to end: the two
    responses are extracted, read at their declared type, merged and
    sorted by the run, and serialised. *)
Example scenario_end_to_end :
  let extract text :=
    GeminiService.extractTransactions (Scenario.answering text)
      "QUJD" "image/png" in
  let run :=
    handleAnalyze Scenario.io_two_files (round_robin 2) Scenario.two_files in
  (exists a b,
      extract Scenario.coffee_response = Fulfilled a
      /\ extract Scenario.full_response = Fulfilled b
      /\ GeminiService.asTransactions a = Some [Scenario.coffee]
      /\ GeminiService.asTransactions b = Some [Scenario.salary])
  /\ status (app run) = SUCCESS
  /\ processedCount (app run) = 2
  /\ transactions (app run) = [Scenario.salary; Scenario.coffee]
  /\ Csv.generateCSV (transactions (app run))
     = JsString.join (String JsString.lf EmptyString)
         [JsString.join (String JsString.tab EmptyString)
            ["Date"; "Description"; "Category"; "Amount"];
          JsString.join (String JsString.tab EmptyString)
            ["2024-01-10"; "Employer Inc"; "Salary"; "2500"];
          JsString.join (String JsString.tab EmptyString)
            ["2024-03-05"; "Coffee Shop"; "Dining"; "-4.5"]].
Proof.
  repeat split. do 2 eexists. repeat split.
Qed.

End Pipeline.

(* ================================================================== *)
(** * components/FileUpload.tsx: adding, removing, clearing *)
(* ================================================================== *)

Module WidgetFacts.
Import JsArray FileUpload FileUploadFacts.

Lemma key_seen (selectedFiles : list File) (file : File) :
  existsb (same_name_and_size file) selectedFiles = true <->
  In (key file) (map key selectedFiles).
Proof.
  rewrite existsb_exists, in_map_iff. split.
  - intros (f & Hf & Hsame). exists f. split; [now apply same_key|exact Hf].
  - intros (f & Hk & Hf). exists f. split; [exact Hf|now apply same_key].
Qed.

Lemma accepted_iff (selectedFiles : list File) (file : File) :
  accepted selectedFiles file = true <->
  includes validTypes (type file) = true
  /\ ~ In (key file) (map key selectedFiles).
Proof.
  unfold accepted. rewrite andb_true_iff, negb_true_iff, <- key_seen.
  split; intros [Hv Hn]; split; try exact Hv.
  - now rewrite Hn.
  - now destruct (existsb (same_name_and_size file) selectedFiles).
Qed.

(** X1: an add-event of a component that is not disabled keeps the
    entries there are, in their order, and appends the files of the batch
    that have a type of the allow-list and whose name and size no earlier
    entry has; every other file of the batch is left out, and a disabled
    component takes none. *)
Theorem add_event_membership (selectedFiles fileList : list File) (file : File) :
  firstn (List.length selectedFiles) (add_event false selectedFiles fileList)
  = selectedFiles
  /\ (In file (add_event false selectedFiles fileList) <->
      In file selectedFiles
      \/ (In file fileList
          /\ includes validTypes (type file) = true
          /\ ~ In (key file) (map key selectedFiles)))
  /\ add_event true selectedFiles fileList = selectedFiles.
Proof.
  rewrite !add_event_spec. repeat split.
  - rewrite firstn_app, Nat.sub_diag, firstn_all. simpl. apply app_nil_r.
  - intros Hin. apply in_app_or in Hin as [Hin|Hin]; [now left|right].
    apply filter_In in Hin as [Hin Hacc]. apply accepted_iff in Hacc.
    tauto.
  - intros [Hin|(Hin & Hv & Hnew)]; apply in_or_app; [now left|right].
    apply filter_In. split; [exact Hin|]. now apply accepted_iff.
Qed.

Lemma add_event_valid (disabled : bool) (selectedFiles fileList : list File) :
  all_valid selectedFiles ->
  all_valid (add_event disabled selectedFiles fileList).
Proof.
  unfold all_valid. intros Hsel. rewrite add_event_spec.
  destruct disabled; [exact Hsel|]. apply Forall_app. split; [exact Hsel|].
  apply Forall_forall. intros f Hf. apply filter_In in Hf as [_ Hacc].
  now apply accepted_iff in Hacc.
Qed.

(** X2: whatever batches are offered, no file with a type outside the
    allow-list gets into the selection. *)
Theorem add_events_allow_list (disabled : bool) (selectedFiles : list File)
  (batches : list (list File)) :
  all_valid selectedFiles ->
  all_valid (add_events disabled selectedFiles batches).
Proof.
  unfold add_events. revert selectedFiles.
  induction batches as [|fileList batches IH]; intros selectedFiles Hsel;
    [exact Hsel|].
  simpl. apply IH. now apply add_event_valid.
Qed.

Lemma add_events_allow_list_witness :
  all_valid
    (add_events false []
       [[Scenario.statement_pdf; Scenario.notes_txt]; [Scenario.january_png]])
  /\ add_events false []
       [[Scenario.statement_pdf; Scenario.notes_txt]; [Scenario.january_png]]
     = [Scenario.statement_pdf; Scenario.january_png].
Proof.
  split; [|reflexivity].
  apply (add_events_allow_list false []
           [[Scenario.statement_pdf; Scenario.notes_txt];
            [Scenario.january_png]]).
  constructor.
Defined.

Lemma filter_nil_iff {A : Type} (p : A -> bool) (l : list A) :
  (forall x, In x l -> p x = false) -> filter p l = [].
Proof.
  induction l as [|x l IH]; intros H; simpl; [reflexivity|].
  rewrite (H x (or_introl eq_refl)). apply IH. intros y Hy. apply H. now right.
Qed.

(** X3: offering a batch a second time changes nothing: after an
    add-event, the same batch holds no file that is new. *)
Theorem add_event_idempotent (disabled : bool)
  (selectedFiles fileList : list File) :
  add_event disabled (add_event disabled selectedFiles fileList) fileList
  = add_event disabled selectedFiles fileList.
Proof.
  rewrite !add_event_spec. destruct disabled; [reflexivity|].
  rewrite (filter_nil_iff
             (accepted (selectedFiles ++ filter (accepted selectedFiles) fileList))
             fileList); [apply app_nil_r|].
  intros f Hf.
  destruct (accepted (selectedFiles
                      ++ filter (accepted selectedFiles) fileList) f) eqn:E;
    [|reflexivity].
  apply accepted_iff in E as [Hv Hnew]. exfalso. apply Hnew.
  rewrite map_app. apply in_or_app.
  destruct (existsb (same_name_and_size f) selectedFiles) eqn:Hseen.
  - left. now apply key_seen.
  - right. apply in_map, filter_In. split; [exact Hf|].
    apply accepted_iff. split; [exact Hv|].
    intros Hin. apply key_seen in Hin. congruence.
Qed.

Lemma filter_from_spec (indexToRemove : nat) (l : list File) (k : nat) :
  filter_from (fun _ idx => negb (Nat.eqb idx indexToRemove)) k l
  = if (indexToRemove <? k)%nat then l
    else (firstn (indexToRemove - k) l ++ skipn (S (indexToRemove - k)) l)%list.
Proof.
  revert k. induction l as [|f l IH]; intros k; simpl.
  - destruct (indexToRemove <? k)%nat; [reflexivity|].
    now rewrite firstn_nil.
  - rewrite IH. destruct (Nat.eqb_spec k indexToRemove) as [->|Hne]; simpl.
    + rewrite Nat.ltb_irrefl, Nat.sub_diag.
      replace (indexToRemove <? S indexToRemove)%nat with true
        by (symmetry; apply Nat.ltb_lt; lia).
      reflexivity.
    + destruct (Nat.ltb_spec indexToRemove k) as [Hlt|Hge].
      * replace (indexToRemove <? S k)%nat with true
          by (symmetry; apply Nat.ltb_lt; lia).
        reflexivity.
      * replace (indexToRemove <? S k)%nat with false
          by (symmetry; apply Nat.ltb_ge; lia).
        replace (indexToRemove - k) with (S (indexToRemove - S k)) by lia.
        reflexivity.
Qed.

Lemma removeFile_spec (indexToRemove : nat) (selectedFiles : list File) :
  removeFile false indexToRemove selectedFiles
  = (firstn indexToRemove selectedFiles
     ++ skipn (S indexToRemove) selectedFiles)%list.
Proof.
  unfold removeFile, filter_indexed. rewrite filter_from_spec. simpl.
  now rewrite Nat.sub_0_r.
Qed.

(** X4: [removeFile] takes out the entry at the index, and that one
    only: the entries before it and after it stay, in their order, and the
    selection is one entry shorter; an index past the end removes
    nothing. *)
Theorem removeFile_at (indexToRemove : nat) (selectedFiles : list File) :
  removeFile false indexToRemove selectedFiles
  = (firstn indexToRemove selectedFiles
     ++ skipn (S indexToRemove) selectedFiles)%list
  /\ (forall file,
        nth_error selectedFiles indexToRemove = Some file ->
        S (List.length (removeFile false indexToRemove selectedFiles))
        = List.length selectedFiles)
  /\ (List.length selectedFiles <= indexToRemove ->
      removeFile false indexToRemove selectedFiles = selectedFiles).
Proof.
  rewrite removeFile_spec. repeat split.
  - intros file Hi.
    assert (indexToRemove < List.length selectedFiles)
      by (apply nth_error_Some; congruence).
    rewrite length_app, length_firstn, length_skipn. lia.
  - intros Hle. rewrite firstn_all2 by exact Hle.
    rewrite skipn_all2 by lia. apply app_nil_r.
Qed.

Lemma skipn_past {A : Type} (l1 l2 : list A) (x : A) :
  skipn (S (List.length l1)) (l1 ++ x :: l2) = l2.
Proof. induction l1 as [|y l1 IH]; [reflexivity|exact IH]. Qed.

(** The two cases of a removal: the index is that of an entry, which
    goes, or it is past the end. *)
Lemma removeFile_cases (indexToRemove : nat) (selectedFiles : list File) :
  (exists l1 file l2,
      selectedFiles = (l1 ++ file :: l2)%list
      /\ List.length l1 = indexToRemove
      /\ removeFile false indexToRemove selectedFiles = (l1 ++ l2)%list)
  \/ (List.length selectedFiles <= indexToRemove
      /\ removeFile false indexToRemove selectedFiles = selectedFiles).
Proof.
  destruct (nth_error selectedFiles indexToRemove) as [file|] eqn:Hi.
  - left. apply nth_error_split in Hi as (l1 & l2 & -> & Hlen).
    exists l1, file, l2. repeat split; [exact Hlen|].
    rewrite removeFile_spec. subst indexToRemove.
    rewrite skipn_past, firstn_app, Nat.sub_diag, firstn_all. simpl.
    now rewrite app_nil_r.
  - right. apply nth_error_None in Hi. split; [exact Hi|].
    rewrite removeFile_spec, firstn_all2 by exact Hi.
    rewrite skipn_all2 by lia. apply app_nil_r.
Qed.

Lemma removeFile_sublist (disabled : bool) (indexToRemove : nat)
  (selectedFiles : list File) (P : File -> Prop) :
  Forall P selectedFiles ->
  Forall P (removeFile disabled indexToRemove selectedFiles).
Proof.
  intros H. destruct disabled; [exact H|].
  destruct (removeFile_cases indexToRemove selectedFiles)
    as [(l1 & f & l2 & -> & _ & ->)|[_ ->]]; [|exact H].
  apply Forall_app in H as [H1 H2]. inversion H2; subst.
  apply Forall_app. now split.
Qed.

Lemma removeFile_no_duplicates (disabled : bool) (indexToRemove : nat)
  (selectedFiles : list File) :
  NoDup (map key selectedFiles) ->
  NoDup (map key (removeFile disabled indexToRemove selectedFiles)).
Proof.
  intros H. destruct disabled; [exact H|].
  destruct (removeFile_cases indexToRemove selectedFiles)
    as [(l1 & f & l2 & -> & _ & ->)|[_ ->]]; [|exact H].
  rewrite map_app in H |- *. simpl in H. now apply NoDup_remove_1 in H.
Qed.

(** X5: a file that was removed can be selected again: when no two
    entries share a name and size, removing the entry at an index and then
    offering that file puts it back, at the end of the selection. *)
Theorem remove_then_add_again (indexToRemove : nat)
  (selectedFiles : list File) (file : File) :
  NoDup (map key selectedFiles) ->
  nth_error selectedFiles indexToRemove = Some file ->
  includes validTypes (type file) = true ->
  add_event false (removeFile false indexToRemove selectedFiles) [file]
  = (removeFile false indexToRemove selectedFiles ++ [file])%list.
Proof.
  intros Hnd Hi Hv. rewrite add_event_spec. f_equal. cbn [filter].
  replace (accepted (removeFile false indexToRemove selectedFiles) file)
    with true; [reflexivity|].
  symmetry. apply accepted_iff. split; [exact Hv|].
  destruct (removeFile_cases indexToRemove selectedFiles)
    as [(l1 & f & l2 & -> & Hlen & ->)|[Hle _]].
  - subst indexToRemove. rewrite nth_error_app2, Nat.sub_diag in Hi by lia.
    injection Hi as ->.
    rewrite map_app in Hnd |- *. simpl in Hnd.
    now apply NoDup_remove_2 in Hnd.
  - apply nth_error_None in Hle. congruence.
Qed.

Lemma remove_then_add_again_witness :
  add_event false
    (removeFile false 0 [Scenario.statement_pdf; Scenario.january_png])
    [Scenario.statement_pdf]
  = [Scenario.january_png; Scenario.statement_pdf].
Proof.
  apply (remove_then_add_again 0
           [Scenario.statement_pdf; Scenario.january_png]
           Scenario.statement_pdf).
  - repeat constructor; simpl; intuition discriminate.
  - reflexivity.
  - reflexivity.
Defined.

End WidgetFacts.

(* ================================================================== *)
(** * The upload component inside the page *)
(* ================================================================== *)

Module PageFacts.
Import JsArray FileUpload FileUploadFacts WidgetFacts App Page.

(** A handler that does not set the selection leaves it as it is. *)
Lemma handle_not_updated (disabled : bool) (w : Widget) (ev : Event) :
  snd (handle disabled w ev) = false ->
  selection (fst (handle disabled w ev)) = selection w.
Proof.
  destruct ev as [type|[[|f more]|]|[[|f more]|]|index|]; simpl; try reflexivity.
  - unfold queues_update, add_event, handleFiles.
    destruct disabled; [reflexivity|]. simpl.
    now destruct (fold_left (consider (selection w)) more
                    (consider (selection w) [] f)).
  - unfold queues_update, add_event, handleFiles.
    destruct disabled; [reflexivity|]. simpl.
    now destruct (fold_left (consider (selection w)) more
                    (consider (selection w) [] f)).
  - now destruct disabled.
  - now destruct disabled.
Qed.

(** A disabled component sets no selection. *)
Lemma handle_disabled (w : Widget) (ev : Event) :
  snd (handle true w ev) = false.
Proof. now destruct ev as [type|[[|f more]|]|[[|f more]|]|index|]. Qed.

Lemma handle_preserves (disabled : bool) (w : Widget) (ev : Event) :
  batch_distinct ev ->
  NoDup (map key (selection w)) -> all_valid (selection w) ->
  NoDup (map key (selection (fst (handle disabled w ev))))
  /\ all_valid (selection (fst (handle disabled w ev))).
Proof.
  intros Hev Hnd Hv.
  destruct ev as [type|[[|f more]|]|[[|f more]|]|index|]; simpl in *;
    try (split; assumption).
  - split; [now apply add_event_no_duplicates|now apply add_event_valid].
  - split; [now apply add_event_no_duplicates|now apply add_event_valid].
  - split; [now apply removeFile_no_duplicates|now apply removeFile_sublist].
  - destruct disabled; simpl; split; try assumption; constructor.
Qed.

Lemma handleFilesSelect_files (selectedFiles : list File) (st : State) :
  files (handleFilesSelect selectedFiles st) = selectedFiles.
Proof.
  unfold handleFilesSelect. destruct (is_processing st); [reflexivity|].
  now destruct selectedFiles.
Qed.

Lemma upload_step (st0 : State) (p : Widget * State) (ev : Event) :
  status st0 <> PROCESSING ->
  mirrored p -> kept_or_idle st0 (snd p) ->
  mirrored (upload p ev) /\ kept_or_idle st0 (snd (upload p ev)).
Proof.
  destruct p as [w st]. unfold mirrored, upload. simpl.
  intros Hst0 Hm Hk.
  destruct (handle (is_processing st) w ev) as [w' updated] eqn:E.
  destruct updated; simpl.
  - split; [apply handleFilesSelect_files|].
    unfold handleFilesSelect.
    destruct (is_processing st); [exact Hk|].
    destruct (selection w'); [|exact Hk].
    destruct Hk as [Hc _]. split; [exact Hc|]. right. now repeat split.
  - split; [|exact Hk]. rewrite Hm.
    pose proof (handle_not_updated (is_processing st) w ev) as H.
    rewrite E in H. simpl in H. symmetry. now apply H.
Qed.

Lemma upload_processing (w : Widget) (st : State) (ev : Event) :
  status st = PROCESSING ->
  snd (upload (w, st) ev) = st
  /\ selection (fst (upload (w, st) ev)) = selection w.
Proof.
  intros Hs. unfold upload, is_processing. rewrite Hs.
  pose proof (handle_disabled w ev) as Hd.
  pose proof (handle_not_updated true w ev Hd) as Hsel.
  destruct (handle true w ev) as [w' updated]. simpl in *. subst updated.
  now split.
Qed.

Lemma uploads_mirrored (p : Widget * State) (evs : list Event) :
  mirrored p -> mirrored (uploads p evs).
Proof.
  unfold uploads. revert p.
  induction evs as [|ev evs IH]; intros p Hp; [exact Hp|].
  simpl. apply IH. destruct p as [w st]. unfold mirrored, upload in *.
  simpl in *.
  destruct (handle (is_processing st) w ev) as [w' updated] eqn:E.
  destruct updated; simpl; [apply handleFilesSelect_files|].
  pose proof (handle_not_updated (is_processing st) w ev) as H.
  rewrite E in H. simpl in H. rewrite Hp. symmetry. now apply H.
Qed.

Lemma uploads_processing (w : Widget) (st : State) (evs : list Event) :
  status st = PROCESSING ->
  snd (uploads (w, st) evs) = st
  /\ selection (fst (uploads (w, st) evs)) = selection w.
Proof.
  intros Hs. unfold uploads. revert w.
  induction evs as [|ev evs IH]; intros w; [now split|].
  cbn [fold_left]. destruct (upload_processing w st ev Hs) as [Hst Hsel].
  destruct (upload (w, st) ev) as [w' st']. cbn [fst snd] in *. subst st'.
  rewrite <- Hsel. apply IH.
Qed.

Lemma uploads_kept (st0 : State) (p : Widget * State) (evs : list Event) :
  status st0 <> PROCESSING ->
  mirrored p -> kept_or_idle st0 (snd p) ->
  kept_or_idle st0 (snd (uploads p evs)).
Proof.
  intros Hs. unfold uploads. revert p.
  induction evs as [|ev evs IH]; intros p Hp Hk; [exact Hk|].
  cbn [fold_left]. destruct (upload_step st0 p ev Hs Hp Hk) as [Hp' Hk'].
  now apply IH.
Qed.

(** X6: through every sequence of uploads (drags, drops, file-input
    changes, removals, "Clear All") the file list of the page stays the
    selection of the component.  While a run is in progress the sequence
    changes neither the selection nor the state of the page; otherwise it
    leaves the results of the last run as they are, or, once the selection
    has been emptied, brings the page back to idle with no transactions,
    no error and a counter of zero. *)
Theorem uploads_mirror (w : Widget) (st : State) (evs : list Event) :
  files st = selection w ->
  let p := uploads (w, st) evs in
  files (snd p) = selection (fst p)
  /\ (status st = PROCESSING ->
      snd p = st /\ selection (fst p) = selection w)
  /\ (status st <> PROCESSING -> kept_or_idle st (snd p)).
Proof.
  intros Hm p. subst p. split; [|split].
  - now apply (uploads_mirrored (w, st)).
  - intros Hs. now apply uploads_processing.
  - intros Hs. apply uploads_kept; [exact Hs|exact Hm|].
    split; [reflexivity|]. left. now repeat split.
Qed.

(** After a failed run over one file, a second file is dropped and then
    the selection is cleared: the page is idle again. *)
Lemma uploads_mirror_witness :
  let w := {| dragActive := false; selection := [Scenario.statement_pdf] |} in
  let p := uploads (w, Scenario.failed_page)
             [DropEvent (Some [Scenario.january_png]); ClearAllClick] in
  snd p = Page.initial
  /\ files (snd p) = selection (fst p)
  /\ (status Scenario.failed_page = PROCESSING ->
      snd p = Scenario.failed_page /\ selection (fst p) = selection w)
  /\ (status Scenario.failed_page <> PROCESSING ->
      kept_or_idle Scenario.failed_page (snd p)).
Proof.
  split; [reflexivity|].
  apply (uploads_mirror
           {| dragActive := false; selection := [Scenario.statement_pdf] |}
           Scenario.failed_page
           [DropEvent (Some [Scenario.january_png]); ClearAllClick]).
  reflexivity.
Defined.

(** X7: when no batch that is dropped or chosen holds two files of one
    name and size, every sequence of uploads keeps the selection, and
    with it the file list of the page, free of two entries of one name
    and size and free of files with a type outside the allow-list. *)
Theorem uploads_keep_selection_sound (w : Widget) (st : State)
  (evs : list Event) :
  files st = selection w ->
  Forall batch_distinct evs ->
  NoDup (map key (selection w)) ->
  all_valid (selection w) ->
  NoDup (map key (files (snd (uploads (w, st) evs))))
  /\ all_valid (files (snd (uploads (w, st) evs))).
Proof.
  intros Hm Hevs Hnd Hv.
  pose proof (uploads_mirrored (w, st) evs Hm) as Hfiles.
  unfold mirrored in Hfiles. rewrite Hfiles.
  clear Hfiles Hm. unfold uploads. revert w st Hnd Hv.
  induction Hevs as [|ev evs Hev Hevs IH]; intros w st Hnd Hv;
    [now split|].
  simpl. unfold upload at 2.
  destruct (handle_preserves (is_processing st) w ev Hev Hnd Hv) as [Hnd' Hv'].
  destruct (handle (is_processing st) w ev) as [w' updated]. simpl in *.
  now apply IH.
Qed.

Lemma uploads_keep_selection_sound_witness :
  let evs := [DropEvent (Some [Scenario.statement_pdf; Scenario.notes_txt]);
              ChangeEvent (Some [Scenario.statement_pdf; Scenario.january_png]);
              RemoveClick 0] in
  let p := uploads ({| dragActive := false; selection := [] |}, Page.initial)
             evs in
  files (snd p) = [Scenario.january_png]
  /\ NoDup (map key (files (snd p)))
  /\ all_valid (files (snd p)).
Proof.
  split; [reflexivity|].
  apply (uploads_keep_selection_sound
           {| dragActive := false; selection := [] |} Page.initial
           [DropEvent (Some [Scenario.statement_pdf; Scenario.notes_txt]);
            ChangeEvent (Some [Scenario.statement_pdf; Scenario.january_png]);
            RemoveClick 0]).
  - reflexivity.
  - repeat constructor; simpl; intuition discriminate.
  - constructor.
  - constructor.
Defined.

End PageFacts.

(* ================================================================== *)
(** * App.tsx: more about the run of [handleAnalyze] *)
(* ================================================================== *)

Module RunFacts.
Import JsArray JsArrayFacts App AppFacts Pipeline.

Lemma displayed_not_empty (err : Thrown) : displayed err <> EmptyString.
Proof.
  unfold displayed. destruct (message err) as [[|c m]|]; discriminate.
Qed.

Lemma displayed_verbatim (err : Thrown) (m : string) :
  message err = Some m -> m <> EmptyString -> displayed err = m.
Proof.
  unfold displayed. intros ->. now destruct m.
Qed.

(** The steps of a run leave the file list and the flag [copied]. *)
Lemma step_frame {engine : Engine} (io : nat -> FileIO) (r : Run) (i : nat) :
  files (app (step io r i)) = files (app r)
  /\ copied (app (step io r i)) = copied (app r).
Proof.
  unfold step.
  destruct (nth_error (tasks r) i) as [t|]; [|now split].
  destruct (nth_error (files (app r)) i); [|now destruct t].
  destruct t; try now split.
  - unfold convertFileToBase64. destruct (reader (io i)); simpl; [now split|].
    now destruct (joined r).
  - destruct (extraction (io i)); [unfold resolve|unfold reject]; simpl.
    + now destruct (results _), (joined r).
    + now destruct (joined r).
Qed.

Lemma run_frame {engine : Engine} (io : nat -> FileIO) (schedule : list nat)
  (st : State) :
  files (app (handleAnalyze io schedule st)) = files st
  /\ copied (app (handleAnalyze io schedule st)) = copied st.
Proof.
  unfold handleAnalyze. destruct (files st) as [|f fs] eqn:E; [now split|].
  rewrite <- E.
  assert (H : forall r, files (app (fold_left (step io) schedule r)) = files (app r)
                        /\ copied (app (fold_left (step io) schedule r))
                           = copied (app r)).
  { induction schedule as [|i schedule IH]; intros r; [now split|].
    cbn [fold_left]. destruct (IH (step io r i)) as [-> ->].
    apply step_frame. }
  apply (H (start st)).
Qed.

Section WithEngine.
Context {engine : Engine}.
Variable io : nat -> FileIO.
Variable fs : list File.

Lemma step_error_shown (r : Run) (i : nat) :
  invariant io fs r ->
  error_shown io (List.length fs) (app r) ->
  error_shown io (List.length fs) (app (step io r i)).
Proof.
  intros Hinv Herr. unfold step.
  destruct (nth_error (tasks r) i) as [t|] eqn:Hi; [|exact Herr].
  destruct (nth_error (files (app r)) i) as [file|] eqn:Hfile;
    [|now destruct t].
  assert (Hlt : i < List.length fs).
  { rewrite <- (inv_files _ _ _ Hinv). apply nth_error_Some. congruence. }
  assert (Hrej : forall err,
             failure_of (io i) err ->
             error_shown io (List.length fs) (app (reject i err r))).
  { intros err Hf. unfold reject. simpl.
    destruct (joined r); [exact Herr|].
    unfold error_shown. simpl. now exists i, err. }
  destruct t; try exact Herr.
  - unfold convertFileToBase64. destruct (reader (io i)) eqn:Hr; [exact Herr|].
    apply Hrej. left. now split.
  - pose proof (inv_tasks _ _ _ Hinv _ _ Hi) as Hread. simpl in Hread.
    destruct (extraction (io i)) as [result|err] eqn:He.
    + unfold resolve.
      destruct (results _) as [rs|]; [destruct (joined r) eqn:Hj|];
        try exact Herr.
      destruct (inv_pending _ _ _ Hinv Hj) as (Hp & _).
      unfold error_shown in *. simpl. now rewrite Hp in Herr.
    + apply Hrej. right. now split.
Qed.

Lemma run_error_shown (schedule : list nat) (r : Run) :
  invariant io fs r ->
  error_shown io (List.length fs) (app r) ->
  error_shown io (List.length fs) (app (fold_left (step io) schedule r)).
Proof.
  revert r. induction schedule as [|i schedule IH]; intros r Hinv Herr;
    [exact Herr|].
  cbn [fold_left]. apply IH; [now apply step_invariant|].
  now apply step_error_shown.
Qed.

Lemma handleAnalyze_error_shown (schedule : list nat) (st : State) :
  files st = fs -> fs <> [] ->
  error_shown io (List.length fs) (app (handleAnalyze io schedule st)).
Proof.
  intros Hfs Hne. unfold handleAnalyze.
  destruct (files st) eqn:E; [congruence|]. rewrite <- E in Hfs.
  apply run_error_shown; [now apply start_invariant|reflexivity].
Qed.

End WithEngine.

(** X8: after [handleAnalyze] on a page with files one of which fails
    to be read or extracted, a status [ERROR] comes with the message of
    the failure of one of the files: the message of the rejected
    extraction verbatim when it has a non-empty one, the default text
    otherwise (as for a file that could not be read); the message is
    never empty.  With a status other than [ERROR] there is no error
    message, whatever the files do. *)
Theorem handleAnalyze_error_message {engine : Engine} (io : nat -> FileIO)
  (schedule : list nat) (st : State) :
  files st <> [] ->
  let final := app (handleAnalyze io schedule st) in
  ((exists i, i < List.length (files st) /\ fails io i) ->
   status final = ERROR ->
   exists i err,
     i < List.length (files st)
     /\ failure_of (io i) err
     /\ error final = Some (displayed err)
     /\ displayed err <> EmptyString
     /\ (forall m, message err = Some m -> m <> EmptyString ->
                   error final = Some m)
     /\ (message err = None -> error final = Some defaultMessage))
  /\ (status final <> ERROR -> error final = None).
Proof.
  intros Hne final. subst final.
  pose proof (handleAnalyze_error_shown io (files st) schedule st eq_refl Hne)
    as H.
  unfold error_shown in H. split.
  - intros _ Hs. rewrite Hs in H. destruct H as (i & err & Hi & Hf & He).
    exists i, err. repeat split; try assumption.
    + apply displayed_not_empty.
    + intros m Hm Hnonempty. now rewrite He, (displayed_verbatim err m).
    + intros Hm. rewrite He. unfold displayed. now rewrite Hm.
  - intros Hs. now destruct (status (app (handleAnalyze io schedule st))).
Qed.

Lemma handleAnalyze_error_message_witness :
  let final :=
    app (handleAnalyze Scenario.io_failing (round_robin 2) Scenario.two_files) in
  error final = Some "No response received from Gemini."
  /\ status final = ERROR
  /\ (exists i, i < 2 /\ fails Scenario.io_failing i)
  /\ ((exists i, i < 2 /\ fails Scenario.io_failing i) ->
      status final = ERROR ->
      exists i err,
        i < 2
        /\ failure_of (Scenario.io_failing i) err
        /\ error final = Some (displayed err)
        /\ displayed err <> EmptyString
        /\ (forall m, message err = Some m -> m <> EmptyString ->
                      error final = Some m)
        /\ (message err = None -> error final = Some defaultMessage))
  /\ (status final <> ERROR -> error final = None).
Proof.
  split; [reflexivity|]. split; [reflexivity|]. split.
  - exists 1. split; [lia|]. right. now eexists.
  - apply (handleAnalyze_error_message Scenario.io_failing (round_robin 2)
             Scenario.two_files).
    discriminate.
Defined.

(** ** The counter *)

Lemma resolved_count_le (ts : list Task) : resolved_count ts <= List.length ts.
Proof. unfold resolved_count. apply filter_length_le. Qed.

Lemma step_counter_mono {engine : Engine} (io : nat -> FileIO) (r : Run)
  (i : nat) :
  processedCount (app r) <= processedCount (app (step io r i)).
Proof.
  unfold step.
  destruct (nth_error (tasks r) i) as [t|]; [|lia].
  destruct (nth_error (files (app r)) i); [|destruct t; lia].
  destruct t; try lia.
  - unfold convertFileToBase64. destruct (reader (io i)); simpl; [lia|].
    destruct (joined r); simpl; lia.
  - destruct (extraction (io i)); [unfold resolve|unfold reject]; simpl.
    + destruct (results _), (joined r); simpl; lia.
    + destruct (joined r); simpl; lia.
Qed.

Lemma run_counter_mono {engine : Engine} (io : nat -> FileIO)
  (more : list nat) (r : Run) :
  processedCount (app r) <= processedCount (app (fold_left (step io) more r)).
Proof.
  revert r. induction more as [|i more IH]; intros r; [simpl; lia|].
  cbn [fold_left]. specialize (IH (step io r i)).
  pose proof (step_counter_mono io r i). lia.
Qed.

Lemma handleAnalyze_app {engine : Engine} (io : nat -> FileIO)
  (schedule more : list nat) (st : State) :
  files st <> [] ->
  handleAnalyze io (schedule ++ more) st
  = fold_left (step io) more (handleAnalyze io schedule st).
Proof.
  intros Hne. unfold handleAnalyze. destruct (files st); [easy|].
  apply fold_left_app.
Qed.

Lemma handleAnalyze_counter {engine : Engine} (io : nat -> FileIO)
  (schedule : list nat) (st : State) :
  files st <> [] ->
  processedCount (app (handleAnalyze io schedule st))
  = resolved_count (tasks (handleAnalyze io schedule st)).
Proof.
  intros Hne. unfold handleAnalyze. destruct (files st) eqn:E; [easy|].
  apply run_counter. simpl. now rewrite resolved_count_start.
Qed.

(** ** Beside what earlier actions have left under way *)

Lemma state_eq (a b : State) :
  files a = files b -> status a = status b ->
  transactions a = transactions b -> error a = error b ->
  copied a = copied b -> processedCount a = processedCount b ->
  a = b.
Proof. destruct a, b; simpl; intros; subst; reflexivity. Qed.

Lemma run_eq (a b : Run) :
  app a = app b -> tasks a = tasks b -> joined a = joined b ->
  calls a = calls b -> a = b.
Proof. destruct a, b; simpl; intros; subst; reflexivity. Qed.

Lemma beside_zero (r : Run) : beside 0 false r = r.
Proof.
  apply run_eq; try reflexivity. apply state_eq; try reflexivity.
  cbn. apply Nat.add_0_r.
Qed.

Lemma beside_beside (j k : nat) (a b : bool) (r : Run) :
  beside k b (beside j a r) = beside (j + k) (a || b) r.
Proof.
  apply run_eq; try reflexivity. apply state_eq; try reflexivity.
  - cbn. now destruct a, b.
  - cbn. now rewrite Nat.add_assoc.
Qed.

Lemma stale_beside (r : Run) : stale_fulfilled r = beside 1 false r.
Proof. reflexivity. Qed.

Lemma timer_beside (r : Run) : timer_fired r = beside 0 true r.
Proof.
  apply run_eq; try reflexivity. apply state_eq; try reflexivity.
  cbn. symmetry. apply Nat.add_0_r.
Qed.

(** The steps of a run read neither the counter nor the flag
    [copied]. *)
Lemma step_beside {engine : Engine} (io : nat -> FileIO) (k : nat) (b : bool)
  (r : Run) (i : nat) :
  step io (beside k b r) i = beside k b (step io r i).
Proof.
  unfold step.
  cbn [beside tasks app files setProcessedCount setCopied joined calls].
  destruct (nth_error (tasks r) i) as [t|]; [|reflexivity].
  destruct (nth_error (files (app r)) i); [|now destruct t].
  destruct t; try reflexivity.
  - destruct (convertFileToBase64 (reader (io i))); [reflexivity|].
    unfold reject. cbn [beside joined app tasks calls].
    destruct (joined r); apply run_eq; try reflexivity;
      now apply state_eq.
  - destruct (extraction (io i)) as [result|err].
    + unfold resolve. cbn [beside joined app tasks calls].
      destruct (results _), (joined r); apply run_eq; try reflexivity;
        apply state_eq; cbn; try reflexivity; lia.
    + unfold reject. cbn [beside joined app tasks calls].
      destruct (joined r); apply run_eq; try reflexivity;
        now apply state_eq.
Qed.

Lemma run_beside {engine : Engine} (io : nat -> FileIO) (schedule : list nat)
  (k : nat) (b : bool) (r : Run) :
  fold_left (step io) schedule (beside k b r)
  = beside k b (fold_left (step io) schedule r).
Proof.
  revert r. induction schedule as [|i schedule IH]; intros r; [reflexivity|].
  cbn [fold_left]. now rewrite step_beside, IH.
Qed.

Lemma settle_beside {engine : Engine} (io : nat -> FileIO)
  (events : list Settlement) (r : Run) :
  fold_left (settle io) events r
  = beside (stale_count events) (timed events)
      (fold_left (step io) (own events) r).
Proof.
  revert r. induction events as [|[i| |] events IH]; intros r.
  - symmetry. apply beside_zero.
  - cbn [fold_left settle own stale_count timed]. apply IH.
  - cbn [fold_left settle own stale_count timed].
    rewrite IH, stale_beside, run_beside, beside_beside. reflexivity.
  - cbn [fold_left settle own stale_count timed].
    rewrite IH, timer_beside, run_beside, beside_beside. reflexivity.
Qed.

Lemma idle_run {engine : Engine} (io : nat -> FileIO) (schedule : list nat)
  (st : State) :
  fold_left (step io) schedule
    {| app := st; tasks := []; joined := false; calls := [] |}
  = {| app := st; tasks := []; joined := false; calls := [] |}.
Proof.
  induction schedule as [|i schedule IH]; [reflexivity|].
  cbn [fold_left]. unfold step at 2. cbn [tasks].
  now destruct i.
Qed.

(** A run beside what earlier actions have left under way is the run
    alone, with the counter ahead by the number of the earlier
    extractions that fulfilled and the flag [copied] lowered when a timer
    fired. *)
Lemma amid_beside {engine : Engine} (io : nat -> FileIO)
  (events : list Settlement) (st : State) :
  handleAnalyze_amid io events st
  = beside (stale_count events) (timed events)
      (handleAnalyze io (own events) st).
Proof.
  unfold handleAnalyze_amid, handleAnalyze. rewrite settle_beside.
  destruct (files st); [|reflexivity]. now rewrite idle_run.
Qed.

Lemma own_app (a b : list Settlement) : own (a ++ b) = (own a ++ own b)%list.
Proof.
  induction a as [|[i| |] a IH]; simpl; congruence.
Qed.

Lemma stale_count_app (a b : list Settlement) :
  stale_count (a ++ b) = stale_count a + stale_count b.
Proof.
  induction a as [|[i| |] a IH]; simpl; congruence.
Qed.

(** X9: the counter of processed files during and after
    [handleAnalyze], also when tasks of an earlier, failed run are still
    under way.  The counter is the number of files of this run extracted
    so far plus the number of extractions of earlier runs that have
    fulfilled since: it never goes down, it stays within the number of
    files when there are no such extractions, and with them it can pass
    that number; at [SUCCESS] it is the number of files plus theirs. *)
Theorem handleAnalyze_progress {engine : Engine} (io : nat -> FileIO)
  (events more : list Settlement) (st : State) :
  files st <> [] ->
  let run := handleAnalyze_amid io events st in
  processedCount (app run) = resolved_count (tasks run) + stale_count events
  /\ processedCount (app run) <= List.length (files st) + stale_count events
  /\ processedCount (app run)
     <= processedCount (app (handleAnalyze_amid io (events ++ more) st))
  /\ (status (app run) = SUCCESS ->
      processedCount (app run) = List.length (files st) + stale_count events)
  /\ (stale_count events = 0 ->
      processedCount (app run) <= List.length (files st)).
Proof.
  intros Hne run. subst run. rewrite !amid_beside.
  cbn [beside app tasks setProcessedCount setCopied processedCount status].
  pose proof (handleAnalyze_counter io (own events) st Hne) as Hc.
  pose proof (handleAnalyze_invariant io (files st) (own events) st eq_refl Hne)
    as Hinv.
  pose proof (resolved_count_le (tasks (handleAnalyze io (own events) st)))
    as Hle.
  rewrite (inv_length _ _ _ Hinv) in Hle.
  split; [lia|]. split; [lia|]. split; [|split].
  - rewrite own_app, stale_count_app, handleAnalyze_app by exact Hne.
    pose proof (run_counter_mono io (own more)
                  (handleAnalyze io (own events) st)). lia.
  - intros Hs. rewrite (success_counter io (own events) st Hne Hs). lia.
  - lia.
Qed.

(** After the first file has been read, an extraction of the run before
    fulfils: the counter shows one. *)
Lemma handleAnalyze_progress_witness :
  let run :=
    handleAnalyze_amid Scenario.io_two_files [Own 0; Stale]
      Scenario.two_files in
  processedCount (app run) = 1
  /\ processedCount
       (app (handleAnalyze_amid Scenario.io_two_files
               ([Own 0; Stale] ++ [Own 0; Own 1; Own 1]) Scenario.two_files))
     = 3
  /\ (processedCount (app run)
      = resolved_count (tasks run) + stale_count [Own 0; Stale]
      /\ processedCount (app run)
         <= List.length (files Scenario.two_files) + stale_count [Own 0; Stale]
      /\ processedCount (app run)
         <= processedCount
              (app (handleAnalyze_amid Scenario.io_two_files
                      ([Own 0; Stale] ++ [Own 0; Own 1; Own 1])
                      Scenario.two_files))
      /\ (status (app run) = SUCCESS ->
          processedCount (app run)
          = List.length (files Scenario.two_files)
            + stale_count [Own 0; Stale])
      /\ (stale_count [Own 0; Stale] = 0 ->
          processedCount (app run) <= List.length (files Scenario.two_files))).
Proof.
  split; [reflexivity|]. split; [reflexivity|].
  apply (handleAnalyze_progress Scenario.io_two_files [Own 0; Stale]
           [Own 0; Own 1; Own 1] Scenario.two_files).
  discriminate.
Defined.

(** ** The end of a run *)

Lemma completed_joined {engine : Engine} (io : nat -> FileIO)
  (fs : list File) (r : Run) :
  fs <> [] -> invariant io fs r -> completed r = true -> joined r = true.
Proof.
  intros Hne Hinv Hdone. destruct (joined r) eqn:Hj; [reflexivity|].
  destruct (inv_pending _ _ _ Hinv Hj) as (_ & _ & Hnf & Hnone).
  exfalso. unfold completed in Hdone. rewrite forallb_forall in Hdone.
  assert (Hall : forall u, In u (tasks r) -> exists res, u = Resolved res).
  { intros u Hu. specialize (Hdone u Hu).
    apply In_nth_error in Hu as [j Hu].
    destruct u; try discriminate; [now eexists|].
    now elim (Hnf j reason). }
  clear Hdone Hnf Hinv Hj. revert Hnone Hall.
  generalize (tasks r). induction l as [|u l IH]; [discriminate|].
  intros Hnone Hall. destruct (Hall u (or_introl eq_refl)) as [res ->].
  simpl in Hnone. destruct (results l) eqn:El; [discriminate|].
  apply IH; [reflexivity|]. intros v Hv. apply Hall. now right.
Qed.

(** X10: when every task is given its turns, a run of [handleAnalyze]
    on a page with files comes to its end: every task settles, and the
    status is [SUCCESS] or [ERROR], never left at [PROCESSING]; it is
    [SUCCESS] only when every file has been read and extracted. *)
Theorem fair_run_outcome {engine : Engine} (io : nat -> FileIO)
  (schedule : list nat) (st : State) :
  files st <> [] ->
  fair (List.length (files st)) schedule ->
  let run := handleAnalyze io schedule st in
  completed run = true
  /\ (status (app run) = SUCCESS \/ status (app run) = ERROR)
  /\ (status (app run) = SUCCESS ->
      forall i, i < List.length (files st) -> ~ fails io i).
Proof.
  intros Hne Hfair run. subst run.
  pose proof (handleAnalyze_invariant io (files st) schedule st eq_refl Hne)
    as Hinv.
  pose proof (fair_run_completes io (files st) schedule st eq_refl Hne Hfair)
    as Hdone.
  pose proof (completed_joined io (files st) _ Hne Hinv Hdone) as Hj.
  repeat split.
  - exact Hdone.
  - destruct (inv_settled _ _ _ Hinv Hj) as [(_ & He & _)|(rs & _ & Hs & _)];
      [now right|now left].
  - intros Hs i Hi Hfail.
    destruct (inv_settled _ _ _ Hinv Hj) as [(_ & He & _)|(rs & Hrs & _)];
      [congruence|].
    rewrite <- (inv_length _ _ _ Hinv) in Hi.
    destruct (nth_error (tasks (handleAnalyze io schedule st)) i) as [t|] eqn:Et;
      [|apply nth_error_None in Et; lia].
    destruct (results_resolved _ _ _ _ Hrs Et) as [res ->].
    now elim (failing_not_resolved io _ (files st) i res Hinv Hfail).
Qed.

Lemma fair_run_outcome_witness :
  let run :=
    handleAnalyze Scenario.io_two_files (round_robin 2) Scenario.two_files in
  completed run = true
  /\ (status (app run) = SUCCESS \/ status (app run) = ERROR)
  /\ (status (app run) = SUCCESS ->
      forall i, i < 2 -> ~ fails Scenario.io_two_files i).
Proof.
  apply (fair_run_outcome Scenario.io_two_files (round_robin 2)
           Scenario.two_files).
  - discriminate.
  - apply round_robin_fair.
Defined.



(** ** The calls of a run *)

Lemma has_requested_set_nth (io : nat -> FileIO) (ts : list Task)
  (i j : nat) (t new : Task) :
  nth_error ts i = Some t ->
  started new (io i) = started t (io i) ->
  has_requested io (JsArray.set_nth i new ts) j <-> has_requested io ts j.
Proof.
  intros Hi Hs. unfold has_requested. destruct (Nat.eq_dec j i) as [->|Hne].
  - rewrite (nth_error_set_nth_same i new t ts Hi), Hi. split.
    + intros (u & [= <-] & Hu). exists t. split; [reflexivity|congruence].
    + intros (u & [= <-] & Hu). exists new. split; [reflexivity|congruence].
  - now rewrite nth_error_set_nth_other.
Qed.

Lemma calls_logged_set_nth (io : nat -> FileIO) (fs : list File)
  (r r' : Run) (i : nat) (t new : Task) (indices : list nat) :
  nth_error (tasks r) i = Some t ->
  started new (io i) = started t (io i) ->
  tasks r' = JsArray.set_nth i new (tasks r) ->
  calls r' = calls r ->
  calls_logged io fs r indices -> calls_logged io fs r' indices.
Proof.
  intros Hi Hs Ht Hc (Hnd & Hin & ex & Hcalls & Hex).
  split; [exact Hnd|]. split.
  - intros j. rewrite Ht, (has_requested_set_nth io _ i j t new Hi Hs).
    apply Hin.
  - exists ex. split; [congruence|exact Hex].
Qed.

Lemma step_calls {engine : Engine} (io : nat -> FileIO) (fs : list File)
  (r : Run) (i : nat) (indices : list nat) :
  invariant io fs r ->
  calls_logged io fs r indices ->
  exists more, calls_logged io fs (step io r i) (indices ++ more)%list.
Proof.
  intros Hinv Hlog. unfold step.
  destruct (nth_error (tasks r) i) as [t|] eqn:Hi;
    [|exists []; now rewrite app_nil_r].
  rewrite (inv_files _ _ _ Hinv).
  destruct (nth_error fs i) as [file|] eqn:Hfile;
    [|exists []; rewrite app_nil_r; now destruct t].
  destruct t; try (exists []; now rewrite app_nil_r).
  - destruct (reader (io i)) as [url|] eqn:Hr; unfold convertFileToBase64.
    + exists [i]. destruct Hlog as (Hnd & Hin & ex & Hcalls & Hex).
      split; [|split].
      * apply NoDup_app; [exact Hnd|repeat constructor; easy|].
        intros j Hj [<-|[]]. apply Hin in Hj as (u & Hu & Hs).
        rewrite Hi in Hu. injection Hu as <-. discriminate Hs.
      * intros j. cbn [tasks]. rewrite in_app_iff. unfold has_requested.
        destruct (Nat.eq_dec j i) as [->|Hne].
        -- rewrite (nth_error_set_nth_same i Extracting Reading _ Hi).
           split; [|intros _; right; now left].
           intros _. exists Extracting. split; [reflexivity|].
           unfold started, readable. now rewrite Hr.
        -- rewrite nth_error_set_nth_other by exact Hne.
           rewrite (Hin j). unfold has_requested. split; [|now left].
           intros [H|[H|[]]]; [exact H|]. now elim Hne.
      * exists (ex ++ [ExtractTransactions
                        (nth_error (JsString.split "," url) 1) (type file)])%list.
        cbn [calls]. split; [now rewrite Hcalls, app_assoc|].
        apply Forall2_app; [exact Hex|]. repeat constructor.
        exists file, (nth_error (JsString.split "," url) 1).
        unfold convertFileToBase64. now rewrite Hr.
    + exists []. rewrite app_nil_r.
      apply (calls_logged_set_nth io fs r _ i Reading (Failed ProgressEvent));
        try easy.
      unfold started, readable. now rewrite Hr.
  - exists []. rewrite app_nil_r.
    destruct (extraction (io i)) as [result|err].
    + apply (calls_logged_set_nth io fs r _ i Extracting (Resolved result));
        try easy; unfold resolve; now destruct (results _), (joined r).
    + now apply (calls_logged_set_nth io fs r _ i Extracting (Failed err)).
Qed.

Lemma run_calls {engine : Engine} (io : nat -> FileIO) (fs : list File)
  (schedule : list nat) (r : Run) (indices : list nat) :
  invariant io fs r ->
  calls_logged io fs r indices ->
  exists more,
    calls_logged io fs (fold_left (step io) schedule r) (indices ++ more)%list.
Proof.
  revert r indices. induction schedule as [|i schedule IH];
    intros r indices Hinv Hlog.
  - exists []. now rewrite app_nil_r.
  - cbn [fold_left].
    destruct (step_calls io fs r i indices Hinv Hlog) as [m1 H1].
    destruct (IH _ _ (step_invariant io fs r i Hinv) H1) as [m2 H2].
    exists (m1 ++ m2)%list. now rewrite app_assoc.
Qed.

Lemma start_calls (io : nat -> FileIO) (st : State) :
  calls_logged io (files st) (start st) [].
Proof.
  split; [constructor|]. split.
  - intros i. split; [easy|]. intros (t & Ht & Hs). cbn [tasks start] in Ht.
    rewrite nth_error_map in Ht.
    destruct (nth_error (files st) i); [|discriminate].
    injection Ht as <-. discriminate Hs.
  - exists []. split; [simpl; now rewrite app_nil_r|constructor].
Qed.

(** X12: what a run of [handleAnalyze] asks of its collaborators.  Every
    file is handed to the reader, in file order.  The extraction is then
    requested at most once per file, only for a file whose reading has
    ended well, and with the payload of that file's data URL and that
    file's MIME type; when the run is over it has been requested for every
    readable file, also after another file has failed. *)
Theorem handleAnalyze_calls {engine : Engine} (io : nat -> FileIO)
  (schedule : list nat) (st : State) :
  files st <> [] ->
  let run := handleAnalyze io schedule st in
  exists indices extractions,
    calls run = (map ReadAsDataURL (files st) ++ extractions)%list
    /\ Forall2 (extraction_call io (files st)) indices extractions
    /\ NoDup indices
    /\ (forall i, In i indices <-> has_requested io (tasks run) i)
    /\ (completed run = true ->
        forall i, In i indices <->
                  i < List.length (files st) /\ reader (io i) <> None).
Proof.
  intros Hne run.
  pose proof (handleAnalyze_invariant io (files st) schedule st eq_refl Hne)
    as Hinv. fold run in Hinv.
  assert (Hlog : exists indices, calls_logged io (files st) run indices).
  { subst run. unfold handleAnalyze in *. destruct (files st) eqn:E; [easy|].
    rewrite <- E in *.
    destruct (run_calls io (files st) schedule (start st) []
                (start_invariant io (files st) st eq_refl Hne)
                (start_calls io st)) as [more H].
    now exists more. }
  destruct Hlog as (indices & Hnd & Hin & ex & Hcalls & Hex).
  exists indices, ex. repeat split; try assumption; try (now apply Hin).
  - apply Hin in H0 as (t & Ht & _).
    rewrite <- (inv_length _ _ _ Hinv). apply nth_error_Some. congruence.
  - apply Hin in H0 as (t & Ht & Hs). intros Hr.
    unfold started, readable in Hs. rewrite Hr in Hs. now destruct t.
  - intros [Hi Hr]. apply Hin.
    rewrite <- (inv_length _ _ _ Hinv) in Hi.
    destruct (nth_error (tasks run) i) as [t|] eqn:Ht;
      [|apply nth_error_None in Ht; lia].
    exists t. split; [exact Ht|].
    unfold completed in H. rewrite forallb_forall in H.
    specialize (H t (nth_error_In _ _ Ht)).
    unfold started, readable.
    destruct t; try discriminate; now destruct (reader (io i)).
Qed.

Lemma handleAnalyze_calls_witness :
  let run :=
    handleAnalyze Scenario.io_failing (round_robin 2) Scenario.two_files in
  exists indices extractions,
    calls run
    = (map ReadAsDataURL (files Scenario.two_files) ++ extractions)%list
    /\ Forall2 (extraction_call Scenario.io_failing (files Scenario.two_files))
         indices extractions
    /\ NoDup indices
    /\ (forall i, In i indices
                  <-> has_requested Scenario.io_failing (tasks run) i)
    /\ (completed run = true ->
        forall i, In i indices <->
                  i < List.length (files Scenario.two_files)
                  /\ reader (Scenario.io_failing i) <> None).
Proof.
  apply (handleAnalyze_calls Scenario.io_failing (round_robin 2)
           Scenario.two_files).
  discriminate.
Defined.

(** ** Reading a file *)

(** X13: [convertFileToBase64] hands on what stands between the first
    and the second comma of the data URL the reader loads: the payload
    of a data URL with one comma, the payload cut at its own first comma
    otherwise, and [undefined], not an error, for a result without a
    comma. *)
Theorem convertFileToBase64_payload (header payload more : string) :
  JsString.lacks "," header = true ->
  JsString.lacks "," payload = true ->
  convertFileToBase64 (Some (header ++ String "," payload))
  = Fulfilled (Some payload)
  /\ convertFileToBase64
       (Some (header ++ String "," (payload ++ String "," more)))
     = Fulfilled (Some payload)
  /\ convertFileToBase64 (Some header) = Fulfilled None.
Proof.
  intros Hh Hp. unfold convertFileToBase64. repeat split.
  - rewrite JsStringFacts.split_app by exact Hh.
    now rewrite JsStringFacts.split_lacks.
  - rewrite !JsStringFacts.split_app by assumption. reflexivity.
  - now rewrite JsStringFacts.split_lacks.
Qed.

Lemma convertFileToBase64_payload_witness :
  convertFileToBase64 (Some ("data:image/png;base64" ++ String "," "iVBORw0KGgo="))
  = Fulfilled (Some "iVBORw0KGgo=")
  /\ convertFileToBase64
       (Some ("data:image/png;base64"
              ++ String "," ("iVBORw0KGgo=" ++ String "," "tail")))
     = Fulfilled (Some "iVBORw0KGgo=")
  /\ convertFileToBase64 (Some "data:image/png;base64") = Fulfilled None.
Proof.
  apply (convertFileToBase64_payload "data:image/png;base64" "iVBORw0KGgo="
           "tail"); reflexivity.
Defined.

End RunFacts.

(* ================================================================== *)
(** * The export: [generateCSV], [clean] and [handleCopyCSV] *)
(* ================================================================== *)

Module ExportFacts.
Import JsString JsStringFacts JsNumber Csv CleanFacts CsvFacts.
Import JsArray JsArrayFacts App AppFacts Pipeline RunFacts.

Lemma replace_runs_tabular (s : string) :
  tabular s = true -> replace_runs false s = s.
Proof.
  unfold tabular. induction s as [|c s IH]; cbn [all_chars replace_runs];
    [easy|].
  rewrite andb_true_iff, negb_true_iff. intros [-> Hs]. now rewrite IH.
Qed.

Lemma trimStart_length (s : string) :
  String.length (trimStart s) <= String.length s.
Proof.
  induction s as [|c s IH]; simpl; [lia|].
  destruct (is_space c); simpl; lia.
Qed.

Lemma trimStart_idempotent (s : string) : trimStart (trimStart s) = trimStart s.
Proof.
  induction s as [|c s IH]; [reflexivity|].
  cbn [trimStart]. destruct (is_space c) eqn:E; [exact IH|].
  cbn [trimStart]. now rewrite E.
Qed.

Lemma trimEnd_idempotent (s : string) : trimEnd (trimEnd s) = trimEnd s.
Proof.
  induction s as [|c s IH]; [reflexivity|].
  cbn [trimEnd]. destruct (trimEnd s) as [|d kept] eqn:E.
  - destruct (is_space c) eqn:Hc; [reflexivity|].
    cbn [trimEnd]. now rewrite Hc.
  - change (trimEnd (String c (String d kept)))
      with (match trimEnd (String d kept) with
            | EmptyString =>
                if is_space c then EmptyString else String c EmptyString
            | String a b => String c (String a b)
            end).
    now rewrite IH.
Qed.

Lemma trimStart_trimEnd (s : string) :
  trimStart s = s -> trimStart (trimEnd s) = trimEnd s.
Proof.
  destruct s as [|c s]; [reflexivity|].
  cbn [trimStart]. destruct (is_space c) eqn:Hc.
  - intros H. pose proof (trimStart_length s) as Hl. rewrite H in Hl.
    simpl in Hl. lia.
  - intros _. cbn [trimEnd]. destruct (trimEnd s); rewrite ?Hc;
      cbn [trimStart]; now rewrite Hc.
Qed.

Lemma trim_idempotent (s : string) : trim (trim s) = trim s.
Proof.
  unfold trim.
  rewrite (trimStart_trimEnd (trimStart s)) by apply trimStart_idempotent.
  apply trimEnd_idempotent.
Qed.

(** X14: sanitising a text field twice is sanitising it once, and the
    fields that [clean] leaves as they are are those without tab, line
    feed and carriage return and without white space at either end. *)
Theorem clean_idempotent (s : string) :
  clean (clean s) = clean s
  /\ (clean s = s <-> tabular s = true /\ trim s = s).
Proof.
  split.
  - unfold clean at 1. rewrite replace_runs_tabular by apply clean_tabular.
    unfold clean. apply trim_idempotent.
  - split.
    + intros H. assert (Ht : tabular s = true)
        by (rewrite <- H; apply clean_tabular).
      split; [exact Ht|]. unfold clean in H.
      now rewrite replace_runs_tabular in H.
    + intros [Ht Hs]. unfold clean. now rewrite replace_runs_tabular.
Qed.

(** X15: the exported text can be read back.  For records whose dates
    hold neither a tab nor a line feed, splitting the output of
    [generateCSV] on line feeds and every row on tabs gives the header
    names and then, record by record and in order, the date, the
    sanitised description, the sanitised category and the amount's
    string. *)
Theorem generateCSV_round_trip (transactions : list Transaction) :
  transactions <> [] ->
  Forall (fun t => lacks tab (date t) = true /\ lacks lf (date t) = true)
    transactions ->
  map (split tab) (split lf (generateCSV transactions))
  = headers
    :: map (fun t => [date t; clean (description t); clean (category t);
                      toString (amount t)]) transactions.
Proof.
  intros Hne Hall. rewrite generateCSV_rows; [|exact Hne|].
  - cbn [map]. f_equal. rewrite map_map. apply map_ext_in.
    intros t Ht. rewrite Forall_forall in Hall.
    apply row_fields. now apply Hall.
  - revert Hall. apply Forall_impl. now intros t [_ Hl].
Qed.

Lemma generateCSV_round_trip_witness :
  map (split tab) (split lf (generateCSV [Scenario.salary; Scenario.rent]))
  = headers
    :: map (fun t => [date t; clean (description t); clean (category t);
                      toString (amount t)]) [Scenario.salary; Scenario.rent].
Proof.
  apply (generateCSV_round_trip [Scenario.salary; Scenario.rent]).
  - discriminate.
  - repeat constructor.
Defined.

Lemma generateCSV_empty_iff (transactions : list Transaction) :
  generateCSV transactions = EmptyString <-> transactions = [].
Proof.
  split; [|now intros ->].
  destruct transactions as [|t ts]; [reflexivity|].
  unfold generateCSV. cbn [map]. now destruct (map row ts).
Qed.

(** X16: [handleCopyCSV] on a page whose transactions are records of
    the declared type.  The text handed to the clipboard is the export of
    the transactions the page shows: empty exactly when there are none,
    and otherwise, when no date holds a line feed, the header line and
    one line for each record.  The flag [copied] is raised only by a
    write that the clipboard accepted, and nothing else on the page
    changes; a write that fails changes nothing. *)
Theorem handleCopyCSV_outcome (writeText : string -> settled unit)
  (st : State) :
  let text := snd (handleCopyCSV writeText st) in
  let st' := fst (handleCopyCSV writeText st) in
  text = generateCSV (transactions st)
  /\ (text = EmptyString <-> transactions st = [])
  /\ (transactions st <> [] ->
      Forall (fun t => lacks lf (date t) = true) (transactions st) ->
      split lf text
      = join (String tab EmptyString) headers :: map row (transactions st))
  /\ (copied st' = true <->
      copied st = true \/ exists u, writeText text = Fulfilled u)
  /\ st' = setCopied (copied st') st
  /\ (forall err, writeText text = Rejected err -> st' = st).
Proof.
  intros text st'. subst text st'. cbn [handleCopyCSV fst snd].
  split; [reflexivity|]. split; [apply generateCSV_empty_iff|].
  split; [apply generateCSV_rows|].
  unfold Clipboard.copyToClipboard.
  destruct (writeText (generateCSV (transactions st))) as [u|err].
  - split; [|split].
    + cbn [copied setCopied]. split; [intros _; right; now exists u|easy].
    + reflexivity.
    + discriminate.
  - split; [|split].
    + split; [now left|]. intros [H|[u Hu]]; [exact H|discriminate].
    + now destruct st.
    + reflexivity.
Qed.

End ExportFacts.

(* ================================================================== *)
(** * What [extractTransactions] hands to its caller *)
(* ================================================================== *)

Module ResponseFacts.
Import GeminiService GeminiFacts.

Lemma asTransactions_items_length (items : list json) (ts : list Transaction) :
  asTransactions_items items = Some ts -> List.length ts = List.length items.
Proof.
  revert ts. induction items as [|item items IH]; intros ts; simpl.
  - now intros [= <-].
  - destruct (asTransaction item); [|discriminate].
    destruct (asTransactions_items items) as [ts'|]; [|discriminate].
    intros [= <-]. simpl. f_equal. now apply IH.
Qed.

(** X17: when the model keeps to the response schema of the request,
    [extractTransactions] fulfils with an array that is of its declared
    type [Transaction[]]: every item is a record with the four fields, a
    string date, description and category and a number amount, and no
    item is dropped or added. *)
Theorem conformant_response_typed {engine : Engine}
  (generateContent : string -> string -> settled (option string))
  (base64Data mimeType text : string) (data : json) :
  generateContent mimeType base64Data = Fulfilled (Some text) ->
  text <> EmptyString ->
  JSON_parse text = inl data ->
  schema_conformant data = true ->
  exists items ts,
    Json.property "transactions" data = Some (JArray items)
    /\ extractTransactions generateContent base64Data mimeType
       = Fulfilled (JArray items)
    /\ asTransactions (JArray items) = Some ts
    /\ List.length ts = List.length items.
Proof.
  intros Hg Hne Hp Hc.
  destruct (conformant_member data Hc) as (Hnull & items & Hm & Hv).
  apply valid_asTransactions in Hv as [ts Hts].
  exists items, ts. repeat split.
  - exact Hm.
  - rewrite (extract_parsed generateContent base64Data mimeType text data)
      by assumption.
    unfold transactions_or_empty. now rewrite Hm.
  - exact Hts.
  - now apply asTransactions_items_length.
Qed.

Lemma conformant_response_typed_witness :
  exists items ts,
    Json.property "transactions"
      (JObject [("transactions", JArray [Scenario.full_record])])
    = Some (JArray items)
    /\ extractTransactions (Scenario.answering Scenario.full_response)
         "AAAA" "image/png"
       = Fulfilled (JArray items)
    /\ asTransactions (JArray items) = Some ts
    /\ List.length ts = List.length items.
Proof.
  apply (conformant_response_typed
           (Scenario.answering Scenario.full_response) "AAAA" "image/png"
           Scenario.full_response
           (JObject [("transactions", JArray [Scenario.full_record])])).
  - reflexivity.
  - discriminate.
  - reflexivity.
  - reflexivity.
Defined.

(** X18: whatever the model answers, a value that [extractTransactions]
    fulfils with is truthy: it is never [null], [false], a zero, [NaN]
    or the empty string, because a falsy [transactions] member is
    replaced by the empty array; and a fulfilled call means that the
    request was answered with a text that is not empty. *)
Theorem extractTransactions_truthy {engine : Engine}
  (generateContent : string -> string -> settled (option string))
  (base64Data mimeType : string) (v : json) :
  extractTransactions generateContent base64Data mimeType = Fulfilled v ->
  Json.truthy v = true
  /\ exists text data,
       generateContent mimeType base64Data = Fulfilled (Some text)
       /\ text <> EmptyString
       /\ JSON_parse text = inl data
       /\ data <> JNull
       /\ v = transactions_or_empty data.
Proof.
  unfold extractTransactions.
  destruct (generateContent mimeType base64Data) as [[text|]|err];
    try discriminate.
  destruct text as [|c text]; [discriminate|].
  destruct (JSON_parse (String c text)) as [data|msg] eqn:Hp;
    [|discriminate].
  intros Hv.
  assert (H : data <> JNull /\ v = transactions_or_empty data).
  { destruct data; try discriminate Hv; injection Hv as <-;
      (split; [discriminate|reflexivity]). }
  destruct H as [Hnull ->]. split.
  - unfold transactions_or_empty.
    destruct (Json.property "transactions" data) as [w|]; [|reflexivity].
    now destruct (Json.truthy w) eqn:Hw.
  - exists (String c text), data. repeat split; try assumption. discriminate.
Qed.

Lemma extractTransactions_truthy_witness :
  Json.truthy (JArray []) = true
  /\ exists text data,
       Scenario.answering Scenario.empty_object_response "image/png" "AAAA"
       = Fulfilled (Some text)
       /\ text <> EmptyString
       /\ JSON_parse text = inl data
       /\ data <> JNull
       /\ JArray [] = transactions_or_empty data.
Proof.
  apply (extractTransactions_truthy
           (Scenario.answering Scenario.empty_object_response)
           "AAAA" "image/png" (JArray [])).
  reflexivity.
Defined.

End ResponseFacts.

(* ================================================================== *)
(** * components/TransactionTable.tsx *)
(* ================================================================== *)

Module TableFacts.
Import JsNumber TransactionTable.

Lemma amount_classes (x : number) :
  (if is_positive x then 1 else 0) + (if is_negative x then 1 else 0)
  + (if is_zero_or_nan x then 1 else 0) = 1.
Proof. destruct x as [|[]|[]|[] s n]; reflexivity. Qed.

Lemma rows_count (transactions : list Transaction) :
  transactionCount transactions
  = List.length (incomeRows transactions)
    + List.length (spendingRows transactions)
    + List.length (filter (fun t => is_zero_or_nan (amount t)) transactions).
Proof.
  unfold transactionCount, incomeRows, spendingRows.
  induction transactions as [|t ts IH]; [reflexivity|].
  cbn [filter List.length]. pose proof (amount_classes (amount t)) as H.
  destruct (is_positive (amount t)), (is_negative (amount t)),
    (is_zero_or_nan (amount t)); simpl in *; lia.
Qed.

(** X19: how the table counts and colours its rows.  Every record is
    counted once: in the income rows, in the spending rows, or, with an
    amount that is a zero or [NaN], in neither total.  Income rows are
    shown green and spending rows red; a row shown green that is no
    income row has a zero amount, and a row shown red that is no spending
    row has the amount [NaN]. *)
Theorem rows_partition (transactions : list Transaction) :
  transactionCount transactions
  = List.length (incomeRows transactions)
    + List.length (spendingRows transactions)
    + List.length (filter (fun t => is_zero_or_nan (amount t)) transactions)
  /\ Forall (fun t => tone t = Green) (incomeRows transactions)
  /\ Forall (fun t => tone t = Red) (spendingRows transactions)
  /\ Forall (fun t => tone t = Green -> ~ In t (incomeRows transactions) ->
                      exists negative, amount t = Zero negative)
       transactions
  /\ Forall (fun t => tone t = Red -> ~ In t (spendingRows transactions) ->
                      amount t = NaN)
       transactions.
Proof.
  split; [apply rows_count|].
  unfold incomeRows, spendingRows, tone.
  repeat split; rewrite Forall_forall; intros t Ht.
  - apply filter_In in Ht as [_ Ht]. now destruct (amount t) as [|[]|[]|[] s n].
  - apply filter_In in Ht as [_ Ht]. now destruct (amount t) as [|[]|[]|[] s n].
  - intros Hg Hout. rewrite filter_In in Hout.
    destruct (amount t) as [|[]|neg|[] s n]; try discriminate Hg;
      try (now exists neg); elim Hout; now split.
  - intros Hr Hout. rewrite filter_In in Hout.
    destruct (amount t) as [|[]|neg|[] s n]; try discriminate Hr;
      try reflexivity; elim Hout; now split.
Qed.

End TableFacts.
